(** * Word counting with three-way cross validation

    A shallow embedding of the counting core of the [wordcount] package:
    [contraction_handler.py] (contraction expansion and the contraction-aware
    tokenizer), [verify.py] (the three counting methods, their comparison,
    the selection of the final statistics and the reliability messages) and
    the quick mode of [word_analyzer.py].

    Data model.
    - A Python [str] is a [string]: a sequence of characters, each character
      an [ascii] read as the Unicode code point of the same number
      (U+0000 to U+00FF).  The character classes of Python ([\w], [\d],
      [str.isalpha], [str.isspace], [str.lower]) are written out for this
      range.
    - A Python [int] is a [Z]; a [dict] from words to counts is a
      [gmap string Z]; a [list] is a [list].
    - A raised exception is the [Raise] case of [res].
    - The module-level dictionary [STANDARD_CONTRACTIONS] lives in an explicit
      [module_state] that every function reading it receives and hands back. *)

From Stdlib Require Import ZArith QArith Ascii String List Bool Lia.
From stdpp Require Import base gmap strings list fin_maps sorting.

Local Open Scope string_scope.
Local Open Scope Z_scope.

(** ** Characters *)

Module Char.

Definition code (c : ascii) : N := N_of_ascii c.

Definition in_range (lo hi : N) (c : ascii) : bool :=
  ((lo <=? code c) && (code c <=? hi))%N.

Definition is_code (n : N) (c : ascii) : bool := (code c =? n)%N.

(** [A-Z] and [a-z] *)
Definition is_upper_az (c : ascii) : bool := in_range 65 90 c.
Definition is_lower_az (c : ascii) : bool := in_range 97 122 c.

(** The class [[a-zA-Z]] of the regular expressions. *)
Definition is_letter (c : ascii) : bool := is_lower_az c || is_upper_az c.

(** [\d] on [str] patterns: the decimal digits; below U+0100 these are
    [0-9]. *)
Definition is_digit (c : ascii) : bool := in_range 48 57 c.

(** [str.isalpha] for one character: the letters below U+0100. *)
Definition isalpha (c : ascii) : bool :=
  is_letter c
  || is_code 170 c || is_code 181 c || is_code 186 c
  || in_range 192 214 c || in_range 216 246 c || in_range 248 255 c.

(** [\w] on [str] patterns: alphanumeric characters and the underscore.
    Below U+0100 the numeric characters that are not decimal digits are
    the superscripts U+00B2, U+00B3, U+00B9 and the fractions
    U+00BC to U+00BE. *)
Definition is_word (c : ascii) : bool :=
  isalpha c || is_digit c || is_code 95 c
  || is_code 178 c || is_code 179 c || is_code 185 c || in_range 188 190 c.

(** [str.isspace] for one character, the separator of [str.split()]. *)
Definition isspace (c : ascii) : bool :=
  in_range 9 13 c || in_range 28 32 c || is_code 133 c || is_code 160 c.

(** [str.lower] for one character. *)
Definition lower (c : ascii) : ascii :=
  if is_upper_az c || in_range 192 214 c || in_range 216 222 c
  then ascii_of_N (code c + 32)
  else c.

End Char.

Definition chars (s : string) : list ascii := list_ascii_of_string s.
Definition str (l : list ascii) : string := string_of_list_ascii l.

(** [s.lower()] *)
Definition str_lower (s : string) : string := str (map Char.lower (chars s)).

(** ** The regular expressions of the program

    The patterns of the program are sequences of literal characters,
    greedy repetitions [[...]+] of a character class (one of them a capture
    group) and word boundaries [\b].  [match_here] is the backtracking
    matcher of [re] on such a sequence, anchored at the current position;
    [prev] is the character before the position, if there is one. *)

Module Re.

Inductive atom : Type :=
| Lit (c : ascii)                 (* a literal character *)
| Plus (cls : ascii -> bool)      (* [cls]+ *)
| Group (cls : ascii -> bool)     (* ([cls]+), capture group 1 *)
| Bnd.                            (* \b *)

Definition regex := list atom.

Record found : Type := Found {
  matched : list ascii;   (* group 0 *)
  group1 : list ascii;    (* group 1, empty when the pattern has none *)
  rest : list ascii       (* the text after the match *)
}.

Definition consume (cap : bool) (x : ascii) (r : found) : found :=
  {| matched := x :: matched r;
     group1 := if cap then x :: group1 r else group1 r;
     rest := rest r |}.

Definition word_at (o : option ascii) : bool :=
  match o with Some c => Char.is_word c | None => false end.

(** [\b]: exactly one side of the position is a word character. *)
Definition boundary (prev : option ascii) (s : list ascii) : bool :=
  xorb (word_at prev) (word_at (head s)).

(** A literal against a character of the text; with [re.IGNORECASE] both
    are compared in lower case. *)
Definition lit_match (ignorecase : bool) (c x : ascii) : bool :=
  if ignorecase
  then Ascii.eqb (Char.lower x) (Char.lower c)
  else Ascii.eqb x c.

(** The greedy loop of [[cls]+] after its first character [x]: take as
    many characters as possible, then give them back one at a time until
    the continuation [k] matches. *)
Fixpoint more (cap : bool) (cls : ascii -> bool)
    (k : option ascii -> list ascii -> option found)
    (x : ascii) (s : list ascii) : option found :=
  match s with
  | y :: s' =>
      if cls y then
        match more cap cls k y s' with
        | Some r => Some (consume cap y r)
        | None => k (Some x) s
        end
      else k (Some x) s
  | [] => k (Some x) s
  end.

Fixpoint match_here (ignorecase : bool) (re : regex)
    (prev : option ascii) (s : list ascii) : option found :=
  match re with
  | [] => Some (Found [] [] s)
  | Bnd :: re' =>
      if boundary prev s then match_here ignorecase re' prev s else None
  | Lit c :: re' =>
      match s with
      | x :: s' =>
          if lit_match ignorecase c x
          then consume false x <$> match_here ignorecase re' (Some x) s'
          else None
      | [] => None
      end
  | Plus cls :: re' =>
      match s with
      | x :: s' =>
          if cls x
          then consume false x <$> more false cls (match_here ignorecase re') x s'
          else None
      | [] => None
      end
  | Group cls :: re' =>
      match s with
      | x :: s' =>
          if cls x
          then consume true x <$> more true cls (match_here ignorecase re') x s'
          else None
      | [] => None
      end
  end.

(** The replacement templates of the program: literal text and [\1]. *)
Inductive repl_item : Type :=
| Text (t : list ascii)
| Ref1.

Definition expand_repl (tpl : list repl_item) (r : found) : list ascii :=
  flat_map (fun i => match i with Text t => t | Ref1 => group1 r end) tpl.

(** [re.sub]: scan from left to right; at a match write the replacement
    and go on after the match, otherwise copy one character.  [skip]
    counts the characters of the current match still to be passed over.
    An empty match writes the replacement and copies the next character
    (Python 3.7 and later). *)
Fixpoint sub_scan (ignorecase : bool) (re : regex) (tpl : list repl_item)
    (skip : nat) (prev : option ascii) (s : list ascii) : list ascii :=
  match skip with
  | S n =>
      match s with
      | x :: s' => sub_scan ignorecase re tpl n (Some x) s'
      | [] => []
      end
  | O =>
      match match_here ignorecase re prev s with
      | Some r =>
          expand_repl tpl r ++
          match s with
          | x :: s' =>
              match matched r with
              | _ :: m => sub_scan ignorecase re tpl (length m) (Some x) s'
              | [] => x :: sub_scan ignorecase re tpl O (Some x) s'
              end
          | [] => []
          end
      | None =>
          match s with
          | x :: s' => x :: sub_scan ignorecase re tpl O (Some x) s'
          | [] => []
          end
      end
  end.

Definition sub (ignorecase : bool) (re : regex) (tpl : list repl_item)
    (text : string) : string :=
  str (sub_scan ignorecase re tpl O None (chars text)).

Definition has_group (re : regex) : bool :=
  existsb (fun a => match a with Group _ => true | _ => false end) re.

(** [re.findall]: the same scan, collecting the matches (group 1 when
    the pattern has a group). *)
Fixpoint findall_scan (re : regex) (skip : nat) (prev : option ascii)
    (s : list ascii) : list (list ascii) :=
  match skip with
  | S n =>
      match s with
      | x :: s' => findall_scan re n (Some x) s'
      | [] => []
      end
  | O =>
      match match_here false re prev s with
      | Some r =>
          (if has_group re then group1 r else matched r) ::
          match s with
          | x :: s' =>
              match matched r with
              | _ :: m => findall_scan re (length m) (Some x) s'
              | [] => findall_scan re O (Some x) s'
              end
          | [] => []
          end
      | None =>
          match s with
          | x :: s' => findall_scan re O (Some x) s'
          | [] => []
          end
      end
  end.

Definition findall (re : regex) (text : string) : list string :=
  map str (findall_scan re O None (chars text)).

(** [re.escape(word)] followed by compilation: every character of
    [word] becomes a literal (the words of this program contain letters
    and apostrophes only). *)
Definition literal (word : string) : regex := map Lit (chars word).

End Re.

(** ** contraction_handler.py *)

(** The module-level state of the package: the contraction table, in the
    order in which the dictionary literal lists its entries. *)
Record module_state : Type := ModuleState {
  STANDARD_CONTRACTIONS : list (string * list string)
}.

Definition initial_state : module_state :=
  {| STANDARD_CONTRACTIONS := [
       ("i'm", ["i"; "am"]);
       ("you're", ["you"; "are"]);
       ("he's", ["he"; "is"]);
       ("she's", ["she"; "is"]);
       ("it's", ["it"; "is"]);
       ("we're", ["we"; "are"]);
       ("they're", ["they"; "are"]);
       ("i've", ["i"; "have"]);
       ("you've", ["you"; "have"]);
       ("we've", ["we"; "have"]);
       ("they've", ["they"; "have"]);
       ("i'll", ["i"; "will"]);
       ("you'll", ["you"; "will"]);
       ("he'll", ["he"; "will"]);
       ("she'll", ["she"; "will"]);
       ("it'll", ["it"; "will"]);
       ("we'll", ["we"; "will"]);
       ("they'll", ["they"; "will"]);
       ("i'd", ["i"; "would"]);
       ("you'd", ["you"; "would"]);
       ("he'd", ["he"; "would"]);
       ("she'd", ["she"; "would"]);
       ("it'd", ["it"; "would"]);
       ("we'd", ["we"; "would"]);
       ("they'd", ["they"; "would"]);
       ("who's", ["who"; "is"]);
       ("what's", ["what"; "is"]);
       ("where's", ["where"; "is"]);
       ("when's", ["when"; "is"]);
       ("why's", ["why"; "is"]);
       ("how's", ["how"; "is"]);
       ("there's", ["there"; "is"]);
       ("that's", ["that"; "is"]);
       ("here's", ["here"; "is"]);
       ("don't", ["do"; "not"]);
       ("doesn't", ["does"; "not"]);
       ("didn't", ["did"; "not"]);
       ("can't", ["can"; "not"]);
       ("cannot", ["can"; "not"]);
       ("couldn't", ["could"; "not"]);
       ("won't", ["will"; "not"]);
       ("wouldn't", ["would"; "not"]);
       ("shouldn't", ["should"; "not"]);
       ("mustn't", ["must"; "not"]);
       ("isn't", ["is"; "not"]);
       ("aren't", ["are"; "not"]);
       ("wasn't", ["was"; "not"]);
       ("weren't", ["were"; "not"]);
       ("hasn't", ["has"; "not"]);
       ("haven't", ["have"; "not"]);
       ("hadn't", ["had"; "not"]);
       ("needn't", ["need"; "not"]);
       ("daren't", ["dare"; "not"]);
       ("shan't", ["shall"; "not"]);
       ("let's", ["let"; "us"]);
       ("ma'am", ["madam"]);
       ("o'clock", ["of"; "the"; "clock"])
     ] |}.

(** [sep.join(words)] *)
Definition join (sep : string) (words : list string) : string :=
  String.concat sep words.

(** [r'\b' + re.escape(contraction) + r'\b'] *)
Definition contraction_pattern (contraction : string) : Re.regex :=
  ([Re.Bnd] ++ Re.literal contraction ++ [Re.Bnd])%list.

(** One turn of the loop of step 1: replace every match of one contraction,
    ignoring case, by its expansion joined with spaces. *)
Definition expand_one (text : string) (entry : string * list string) : string :=
  let pattern := contraction_pattern entry.1 in
  let replacement := join " " entry.2 in
  Re.sub true pattern [Re.Text (chars replacement)] text.

(** Step 1 of [expand_contractions]: the loop over the table. *)
Definition expand_standard (table : list (string * list string))
    (text : string) : string :=
  foldl expand_one text table.

(** [r"\b([a-zA-Z]+)'s\b"] *)
Definition possessive_pattern : Re.regex :=
  [Re.Bnd; Re.Group Char.is_letter; Re.Lit "'"; Re.Lit "s"; Re.Bnd].

(** Step 2 of [expand_contractions]: drop the ['s] of a possessive. *)
Definition strip_possessive (text : string) : string :=
  Re.sub false possessive_pattern [Re.Ref1] text.

Definition expand_contractions (text : string) (st : module_state)
    : string * module_state :=
  let text := expand_standard (STANDARD_CONTRACTIONS st) text in
  let text := strip_possessive text in
  (text, st).

(** [r'\b[a-zA-Z]+\b'] *)
Definition bounded_word_pattern : Re.regex :=
  [Re.Bnd; Re.Plus Char.is_letter; Re.Bnd].

Definition extract_words_with_smart_contractions (text : string)
    (st : module_state) : list string * module_state :=
  let '(expanded_text, st) := expand_contractions text st in
  let words := Re.findall bounded_word_pattern expanded_text in
  let words_lower := map str_lower words in
  (words_lower, st).

(** ** Python built-ins used by verify.py *)

Inductive exception : Type :=
| KeyError (key : string)
| ValueError (what : string)
| ZeroDivisionError.

(** The outcome of a computation that may raise. *)
Inductive res (A : Type) : Type :=
| Ok (a : A)
| Raise (e : exception).
Arguments Ok {A} a.
Arguments Raise {A} e.

#[global] Instance res_ret : MRet res := fun A a => Ok a.
#[global] Instance res_bind : MBind res := fun A B f m =>
  match m with
  | Ok a => f a
  | Raise e => Raise e
  end.

(** [max(xs)] and [min(xs)] on integers; both raise on an empty list. *)
Definition py_max (xs : list Z) : res Z :=
  match xs with
  | [] => Raise (ValueError "max() arg is an empty sequence")
  | x :: xs' => Ok (foldl (fun m y => if m <? y then y else m) x xs')
  end.

Definition py_min (xs : list Z) : res Z :=
  match xs with
  | [] => Raise (ValueError "min() arg is an empty sequence")
  | x :: xs' => Ok (foldl (fun m y => if y <? m then y else m) x xs')
  end.

(** [max(xs, key=key)]: the first element whose key is maximal. *)
Definition py_max_by {A : Type} (key : A -> Z) (xs : list A) : res A :=
  match xs with
  | [] => Raise (ValueError "max() arg is an empty sequence")
  | x :: xs' => Ok (foldl (fun m y => if key m <? key y then y else m) x xs')
  end.

(** [a / b] on integers.  Python returns the binary64 number nearest to
    the quotient; the model keeps the quotient itself.  In [verify_text]
    the quotient is only compared with [0.1], and for totals below 2^52
    the two comparisons agree (lemma [gt_tenth_binary64]). *)
Definition true_div (a b : Z) : res Q :=
  if b =? 0 then Raise ZeroDivisionError
  else Ok (inject_Z a / inject_Z b)%Q.

(** [q > 0.1] *)
Definition gt_tenth (q : Q) : bool := negb (Qle_bool q (1 # 10)).

(** The same comparison on binary64 numbers.  The literal [0.1] is the
    number 7205759403792794 / 2^56, and the division rounds to the nearest
    number, a tie going to the even significand; so the rounded quotient
    of [a] by [b > 0] exceeds [0.1] exactly when the quotient lies above
    the midpoint to the next number, 14411518807585589 / 2^57. *)
Definition binary64_gt_tenth (a b : Z) : bool :=
  14411518807585589 * b <? a * 2 ^ 57.

(** [s.split()]: the maximal runs of characters that are not whitespace.
    [cur] is the run being read. *)
Fixpoint split_scan (cur : list ascii) (s : list ascii) : list (list ascii) :=
  match s with
  | [] => match cur with [] => [] | _ => [cur] end
  | x :: s' =>
      if Char.isspace x
      then match cur with
           | [] => split_scan [] s'
           | _ => cur :: split_scan [] s'
           end
      else split_scan (cur ++ [x])%list s'
  end.

Definition split (text : string) : list string :=
  map str (split_scan [] (chars text)).

Fixpoint lstrip_chars (set : list ascii) (s : list ascii) : list ascii :=
  match s with
  | x :: s' => if existsb (Ascii.eqb x) set then lstrip_chars set s' else s
  | [] => []
  end.

(** [s.strip(set)]: drop the characters of [set] at both ends. *)
Definition strip (set : string) (s : string) : string :=
  str (rev (lstrip_chars (chars set) (rev (lstrip_chars (chars set) (chars s))))).

(** The truth value of a string: it is not empty. *)
Definition truthy (s : string) : bool :=
  match s with
  | EmptyString => false
  | String _ _ => true
  end.

(** [Counter(words)], and [dict(counter)], which has the same entries. *)
Definition Counter (words : list string) : gmap string Z :=
  foldl (fun counts w => <[w := default 0 (counts !! w) + 1]> counts) ∅ words.

(** [d.keys()] and [d.values()].  The program only sorts, counts or sums
    them, so the order in which a dictionary lists them plays no role. *)
Definition keys (d : gmap string Z) : list string := (map_to_list d).*1.
Definition values (d : gmap string Z) : list Z := (map_to_list d).*2.

(** [len(d)] *)
Definition dict_len (d : gmap string Z) : Z := Z.of_nat (size d).

(** [sum(xs)] *)
Definition py_sum (xs : list Z) : Z := foldl Z.add 0 xs.

(** The order of [str]: lexicographic on code points. *)
Definition str_le (a b : string) : Prop := String.leb a b = true.

#[global] Instance str_le_dec : RelDecision str_le.
Proof. intros a b. unfold str_le. apply _. Defined.

(** [sorted(xs)] on strings. *)
Definition sorted (xs : list string) : list string := merge_sort str_le xs.

(** ** verify.py *)

(** The dictionary returned by each counting method. *)
Module Result.
Record t : Type := Make {
  method : string;
  total_words : Z;
  unique_words : Z;
  word_list : list string;
  word_freq : gmap string Z
}.
End Result.

(** The statements shared by the three methods after tokenization. *)
Definition tally (method : string) (words : list string) : Result.t :=
  let total_words := Z.of_nat (length words) in
  let word_freq := Counter words in
  let unique_words := dict_len word_freq in
  {| Result.method := method;
     Result.total_words := total_words;
     Result.unique_words := unique_words;
     Result.word_list := words;
     Result.word_freq := word_freq |}.

Definition METHOD1 : string := "方法1 (智能缩写)".
Definition METHOD2 : string := "方法2 (分割过滤)".
Definition METHOD3 : string := "方法3 (多重模式)".

Definition count_words_method1 (text : string) (st : module_state)
    : Result.t * module_state :=
  let '(words, st) := extract_words_with_smart_contractions text st in
  (tally METHOD1 words, st).

(** The argument of [token.strip]; its two dashes U+2013 and U+2014 lie
    outside the code points of the model and are left out. *)
Definition STRIP_CHARS : string :=
  ".,!?;:" ++ String "034" "()[]{}0123456789-'".

(** The body of the loop of method 2: the words one token contributes. *)
Definition method2_token (token : string) : list string :=
  let cleaned := strip STRIP_CHARS token in
  if truthy cleaned && existsb Char.isalpha (chars cleaned) then
    let alpha_only := str (filter (fun c => Char.isalpha c = true) (chars cleaned)) in
    if truthy alpha_only then [str_lower alpha_only] else []
  else [].

Definition count_words_method2 (text : string) : Result.t :=
  let tokens := split text in
  let words := flat_map method2_token tokens in
  tally METHOD2 words.

(** [r'\d+'] and [r'[a-zA-Z]+'] *)
Definition digits_pattern : Re.regex := [Re.Plus Char.is_digit].
Definition letters_pattern : Re.regex := [Re.Plus Char.is_letter].

Definition count_words_method3 (text : string) : Result.t :=
  let text_no_numbers := Re.sub false digits_pattern [Re.Text []] text in
  let words := Re.findall letters_pattern text_no_numbers in
  let words :=
    map str_lower (filter (fun word => (0 < String.length word)%nat) words) in
  tally METHOD3 words.

(** One metric of the comparison report. *)
Module Metric.
Record t : Type := Make {
  consistent : bool;
  values : gmap string Z;
  min : Z;
  max : Z;
  difference : Z
}.
End Metric.

(** The dictionary returned by [compare_results]: the error dictionary has
    the keys [status] and [message] only. *)
Module Comparison.
Inductive t : Type :=
| Error (status : string) (message : string)
| Report (status : string) (consistent : bool)
    (total_words unique_words : Metric.t).

(** [comparison['status']] and the other subscriptions. *)
Definition status (c : t) : res string :=
  match c with
  | Error s _ => Ok s
  | Report s _ _ _ => Ok s
  end.

Definition consistent (c : t) : res bool :=
  match c with
  | Error _ _ => Raise (KeyError "consistent")
  | Report _ b _ _ => Ok b
  end.

Definition total_words (c : t) : res Metric.t :=
  match c with
  | Error _ _ => Raise (KeyError "total_words")
  | Report _ _ m _ => Ok m
  end.

Definition unique_words (c : t) : res Metric.t :=
  match c with
  | Error _ _ => Raise (KeyError "unique_words")
  | Report _ _ _ m => Ok m
  end.
End Comparison.

(** [len(set(xs)) == 1] *)
Definition all_equal (xs : list Z) : bool :=
  (size (list_to_set xs : gset Z) =? 1)%nat.

(** [{r['method']: f(r) for r in results}] *)
Definition values_by_method (f : Result.t -> Z) (results : list Result.t)
    : gmap string Z :=
  foldl (fun d r => <[Result.method r := f r]> d) ∅ results.

Definition compare_results (results : list Result.t) : res Comparison.t :=
  if (length results <? 2)%nat then
    Ok (Comparison.Error "error" "至少需要2种方法进行对比")
  else
    let total_words := map Result.total_words results in
    let unique_words := map Result.unique_words results in
    let total_consistent := all_equal total_words in
    let unique_consistent := all_equal unique_words in
    total_min ← py_min total_words;
    total_max ← py_max total_words;
    unique_min ← py_min unique_words;
    unique_max ← py_max unique_words;
    mret (Comparison.Report
      (if total_consistent && unique_consistent then "pass" else "warning")
      (total_consistent && unique_consistent)
      {| Metric.consistent := total_consistent;
         Metric.values := values_by_method Result.total_words results;
         Metric.min := total_min;
         Metric.max := total_max;
         Metric.difference := total_max - total_min |}
      {| Metric.consistent := unique_consistent;
         Metric.values := values_by_method Result.unique_words results;
         Metric.min := unique_min;
         Metric.max := unique_max;
         Metric.difference := unique_max - unique_min |}).

Definition get_recommendation (comparison : Comparison.t) : res string :=
  status ← Comparison.status comparison;
  if String.eqb status "pass" then
    mret "✅ 三种方法结果完全一致，统计结果可靠"
  else
    total ← Comparison.total_words comparison;
    let total_diff := Metric.difference total in
    unique ← Comparison.unique_words comparison;
    let unique_diff := Metric.difference unique in
    if (total_diff <=? 2) && (unique_diff <=? 2) then
      mret "✅ 检测到轻微差异（≤2个词），结果可靠"
    else if (total_diff <=? 10) && (unique_diff <=? 5) then
      mret "✅ 检测到小幅差异（≤10个词），结果可靠"
    else if total_diff <=? 50 then
      mret "✅ 检测到差异（≤50个词），结果正常"
    else
      mret "⚠️ 检测到较大差异（>50个词），建议检查文本内容".

Definition get_verification_summary (comparison : Comparison.t) : res string :=
  consistent ← Comparison.consistent comparison;
  if (consistent : bool) then
    mret "验证通过 ✅"
  else
    total ← Comparison.total_words comparison;
    let total_diff := Metric.difference total in
    unique ← Comparison.unique_words comparison;
    let unique_diff := Metric.difference unique in
    if (total_diff <=? 2) && (unique_diff <=? 2) then
      mret "验证通过 ✅"
    else if (total_diff <=? 10) && (unique_diff <=? 5) then
      mret "验证通过 ✅"
    else if total_diff <=? 50 then
      mret "验证通过 ✅"
    else
      mret "需要检查 ⚠️".

(** The [final_stats] dictionary of a verification report. *)
Module Final.
Record t : Type := Make {
  total_words : Z;
  unique_words : Z;
  word_freq : gmap string Z;
  unique_word_list : list string;
  selected_method : string
}.
End Final.

(** The dictionary returned by [verify_text]. *)
Module Verification.
Record t : Type := Make {
  results : list Result.t;
  comparison : Comparison.t;
  recommendation : string;
  final_stats : Final.t;
  verified : bool
}.
End Verification.

(** The choice of [best_result] in [verify_text]. *)
Definition select_best (consistent : bool) (result1 : Result.t)
    (results : list Result.t) : res Result.t :=
  if negb consistent then
    max_total ← py_max (map Result.total_words results);
    let method1_total := Result.total_words result1 in
    low ← (if 0 <? max_total
           then q ← true_div (max_total - method1_total) max_total;
                mret (gt_tenth q)
           else mret false);
    if (low : bool)
    then py_max_by Result.total_words results
    else mret result1
  else mret result1.

Definition verify_text (text : string) (st : module_state)
    : res Verification.t * module_state :=
  let '(result1, st) := count_words_method1 text st in
  let result2 := count_words_method2 text in
  let result3 := count_words_method3 text in
  let results := [result1; result2; result3] in
  (comparison ← compare_results results;
   recommendation ← get_recommendation comparison;
   consistent ← Comparison.consistent comparison;
   best_result ← select_best consistent result1 results;
   let final_stats :=
     {| Final.total_words := Result.total_words best_result;
        Final.unique_words := Result.unique_words best_result;
        Final.word_freq := Result.word_freq best_result;
        Final.unique_word_list := sorted (keys (Result.word_freq best_result));
        Final.selected_method := Result.method best_result |} in
   verified ← Comparison.consistent comparison;
   mret {| Verification.results := results;
           Verification.comparison := comparison;
           Verification.recommendation := recommendation;
           Verification.final_stats := final_stats;
           Verification.verified := verified |},
   st).

(** ** word_analyzer.py *)

(** The dictionary returned by [analyze_text].  The keys [selected_method]
    and [verification_comparison] exist only after a verification; in quick
    mode [verified] is [None]. *)
Module Stats.
Record t : Type := Make {
  total_words : Z;
  unique_words : Z;
  unique_word_list : list string;
  word_freq : gmap string Z;
  selected_method : option string;
  verified : option bool;
  verification_status : string;
  verification_detail : string;
  verification_comparison : option Comparison.t
}.
End Stats.

Definition analyze_text (text : string) (enable_verification : bool)
    (st : module_state) : res Stats.t * module_state :=
  if enable_verification then
    let '(report, st) := verify_text text st in
    (verification_report ← report;
     let stats := Verification.final_stats verification_report in
     status ← get_verification_summary
                (Verification.comparison verification_report);
     mret {| Stats.total_words := Final.total_words stats;
             Stats.unique_words := Final.unique_words stats;
             Stats.unique_word_list := Final.unique_word_list stats;
             Stats.word_freq := Final.word_freq stats;
             Stats.selected_method := Some (Final.selected_method stats);
             Stats.verified := Some (Verification.verified verification_report);
             Stats.verification_status := status;
             Stats.verification_detail :=
               Verification.recommendation verification_report;
             Stats.verification_comparison :=
               Some (Verification.comparison verification_report) |},
     st)
  else
    let words := Re.findall bounded_word_pattern text in
    let words_lower := map str_lower words in
    let total_words := Z.of_nat (length words_lower) in
    let word_freq := Counter words_lower in
    let unique_words := dict_len word_freq in
    let unique_word_list := sorted (keys word_freq) in
    (Ok {| Stats.total_words := total_words;
           Stats.unique_words := unique_words;
           Stats.unique_word_list := unique_word_list;
           Stats.word_freq := word_freq;
           Stats.selected_method := None;
           Stats.verified := None;
           Stats.verification_status := "未验证（快速模式）";
           Stats.verification_detail := "未启用验证";
           Stats.verification_comparison := None |},
     st).

(** ** book_processor.py

    File names and file types are compared and searched only; they are
    strings given by their UTF-8 encoding, on which equality, prefix and
    substring tests agree with those on code points. *)

(** [sub in s] *)
Definition contains (sub s : string) : bool :=
  match String.index 0 sub s with
  | Some _ => true
  | None => false
  end.

(** [s.startswith(prefix)] *)
Definition startswith (prefix s : string) : bool := String.prefix prefix s.

(** The value of [filename.lower()] is not used by the function. *)
Definition identify_file_type (filename : string) : option string :=
  if startswith "1双语-" filename || contains "双语" filename then
    Some "1双语"
  else if startswith "2原文-" filename || contains "原文" filename then
    Some "2原文"
  else if startswith "3外教-" filename || contains "外教" filename then
    Some "3外教"
  else None.

(** The class [[\u4e00-\u9fff\u3000-\u303f\uff00-\uffef]]: the code points
    of Chinese characters, CJK punctuation and full-width forms. *)
Definition is_cjk (c : ascii) : bool :=
  Char.in_range 19968 40959 c || Char.in_range 12288 12351 c
  || Char.in_range 65280 65519 c.

(** [r'[\u4e00-\u9fff\u3000-\u303f\uff00-\uffef]+'], [r'\*\*[A-Za-z]+:'],
    [r'\*\*'] and [r'\s+'] *)
Definition cjk_pattern : Re.regex := [Re.Plus is_cjk].
Definition speaker_pattern : Re.regex :=
  [Re.Lit "*"; Re.Lit "*"; Re.Plus Char.is_letter; Re.Lit ":"].
Definition bold_pattern : Re.regex := [Re.Lit "*"; Re.Lit "*"].
Definition whitespace_pattern : Re.regex := [Re.Plus Char.isspace].

(** [s.lstrip()] and [s.strip()]: drop the whitespace at the ends. *)
Fixpoint lstrip_space (s : list ascii) : list ascii :=
  match s with
  | x :: s' => if Char.isspace x then lstrip_space s' else s
  | [] => []
  end.

Definition strip_space (s : string) : string :=
  str (rev (lstrip_space (rev (lstrip_space (chars s))))).

Definition preprocess_text (text : string) (file_type : string) : string :=
  let text :=
    if String.eqb file_type "1双语" then
      Re.sub false cjk_pattern [Re.Text [" "%char]] text
    else if String.eqb file_type "2原文" then
      text
    else if String.eqb file_type "3外教" then
      let text := Re.sub false speaker_pattern [Re.Text []] text in
      let text := Re.sub false bold_pattern [Re.Text []] text in
      Re.sub false cjk_pattern [Re.Text [" "%char]] text
    else text in
  strip_space (Re.sub false whitespace_pattern [Re.Text [" "%char]] text).

(** [s[:n]] *)
Definition str_take (n : nat) (s : string) : string := str (take n (chars s)).

(** The dictionary returned by [analyze_book_file]: the statistics of
    [analyze_text], their total overwritten for the type 2原文, and the
    keys added for the file.  The keys [original_total_words] and
    [multiplier] exist for that type only. *)
Module BookStats.
Record t : Type := Make {
  stats : Stats.t;
  original_total_words : option Z;
  multiplier : option Z;
  file_type : string;
  filename : string;
  cleaned_text : string;
  cleaned_text_preview : string
}.
End BookStats.

(** [stats['total_words'] = n] *)
Definition set_total_words (n : Z) (s : Stats.t) : Stats.t :=
  {| Stats.total_words := n;
     Stats.unique_words := Stats.unique_words s;
     Stats.unique_word_list := Stats.unique_word_list s;
     Stats.word_freq := Stats.word_freq s;
     Stats.selected_method := Stats.selected_method s;
     Stats.verified := Stats.verified s;
     Stats.verification_status := Stats.verification_status s;
     Stats.verification_detail := Stats.verification_detail s;
     Stats.verification_comparison := Stats.verification_comparison s |}.

Definition analyze_book_file (text file_type filename : string)
    (enable_verification : bool) (st : module_state)
    : res BookStats.t * module_state :=
  let cleaned_text := preprocess_text text file_type in
  let '(analysis, st) := analyze_text cleaned_text enable_verification st in
  (stats ← analysis;
   let '(stats, original, multiplier) :=
     if String.eqb file_type "2原文" then
       let original_total := Stats.total_words stats in
       (set_total_words (original_total * 3) stats,
        Some original_total, Some 3)
     else (stats, None, None) in
   mret {| BookStats.stats := stats;
           BookStats.original_total_words := original;
           BookStats.multiplier := multiplier;
           BookStats.file_type := file_type;
           BookStats.filename := filename;
           BookStats.cleaned_text := cleaned_text;
           BookStats.cleaned_text_preview :=
             if (300 <? String.length cleaned_text)%nat
             then str_take 300 cleaned_text ++ "..."
             else cleaned_text |},
   st).

(** An uploaded file: its name and [file.read().decode('utf-8')]. *)
Module File.
Record t : Type := Make {
  name : string;
  content : string
}.
End File.

Definition REQUIRED : list string := ["1双语"; "2原文"; "3外教"].

(** The tuple returned by [validate_uploaded_files]. *)
Definition validate_uploaded_files (files : list File.t)
    : bool * list string * gmap string File.t :=
  let file_types :=
    foldl (fun file_types file =>
             match identify_file_type (File.name file) with
             | Some file_type => <[file_type := file]> file_types
             | None => file_types
             end) ∅ files in
  let missing :=
    List.filter (fun t => negb (bool_decide (is_Some (file_types !! t))))
                REQUIRED in
  ((length missing =? 0)%nat, missing, file_types).

(** The dictionary returned by [generate_summary]. *)
Module Summary.
Record t : Type := Make {
  total_files : Z;
  all_verified : bool;
  total_words_comparison : list (string * Z);
  unique_words_comparison : list (string * Z)
}.
End Summary.

(** The inner function of [generate_summary]. *)
Definition is_verified (result : BookStats.t) : bool :=
  let status := Stats.verification_status (BookStats.stats result) in
  contains "✅" status || contains "验证通过" status.

(** [results] is the dictionary from file types to statistics, its
    entries in the order of their insertion. *)
Definition generate_summary (results : list (string * BookStats.t))
    : Summary.t :=
  {| Summary.total_files := Z.of_nat (length results);
     Summary.all_verified := forallb is_verified results.*2;
     Summary.total_words_comparison :=
       map (fun kv => (kv.1, Stats.total_words (BookStats.stats kv.2)))
           results;
     Summary.unique_words_comparison :=
       map (fun kv => (kv.1, Stats.unique_words (BookStats.stats kv.2)))
           results |}.

(** The loop of [process_book_files] over the three file types. *)
Fixpoint process_each (file_types : list string)
    (uploaded_files : gmap string File.t) (enable_verification : bool)
    (st : module_state) : res (list (string * BookStats.t)) * module_state :=
  match file_types with
  | [] => (Ok [], st)
  | file_type :: file_types' =>
      match uploaded_files !! file_type with
      | Some file =>
          let text := File.content file in
          let '(analysis, st) :=
            analyze_book_file text file_type (File.name file)
                              enable_verification st in
          match analysis with
          | Ok stats =>
              let '(others, st) :=
                process_each file_types' uploaded_files
                             enable_verification st in
              (results ← others; mret ((file_type, stats) :: results), st)
          | Raise e => (Raise e, st)
          end
      | None =>
          process_each file_types' uploaded_files enable_verification st
      end
  end.

(** The dictionary returned by [process_book_files]. *)
Module Processed.
Record t : Type := Make {
  individual_results : list (string * BookStats.t);
  summary : Summary.t
}.
End Processed.

Definition process_book_files (uploaded_files : gmap string File.t)
    (enable_verification : bool) (st : module_state)
    : res Processed.t * module_state :=
  let '(processed, st) :=
    process_each REQUIRED uploaded_files enable_verification st in
  (results ← processed;
   let summary := generate_summary results in
   mret {| Processed.individual_results := results;
           Processed.summary := summary |},
   st).

(** ** txt_exporter.py *)

(** [s.replace(old, new)] for one-character strings. *)
Definition replace_char (old new : ascii) (s : string) : string :=
  str (map (fun c => if Ascii.eqb c old then new else c) (chars s)).

(** [timestamp] is [datetime.now().strftime('%Y%m%d_%H%M%S')], which the
    function reads from the clock. *)
Definition get_download_filename (book_name : string) (timestamp : string)
    : string :=
  let clean_name := replace_char "/" "_" (replace_char " " "_" book_name) in
  "词汇统计报告_" ++ clean_name ++ "_" ++ timestamp ++ ".txt".

(** ** text_cleaner.py *)

(** The classes [[^\x00-\x7F]] and [[^a-zA-Z0-9\s]]. *)
Definition non_ascii (c : ascii) : bool := negb (Char.in_range 0 127 c).
Definition not_alnum_space (c : ascii) : bool :=
  negb (Char.is_letter c || Char.is_digit c || Char.isspace c).

(** [r'[^\x00-\x7F]+'] *)
Definition non_ascii_pattern : Re.regex := [Re.Plus non_ascii].

(** [re.sub] of a class of one character by the character [new]: every
    character of the class is a match of its own. *)
Definition sub_each (cls : ascii -> bool) (new : ascii) (text : string)
    : string :=
  str (map (fun c => if cls c then new else c) (chars text)).

Definition remove_chinese (text : string) (keep_punctuation : bool)
    : string :=
  let cleaned :=
    if keep_punctuation then
      Re.sub false non_ascii_pattern [Re.Text [" "%char]] text
    else
      sub_each not_alnum_space " " text in
  let cleaned :=
    Re.sub false whitespace_pattern [Re.Text [" "%char]] cleaned in
  strip_space cleaned.

(** ** The vocabulary of the specification *)

(** The confidence label of a message is the mark it carries. *)
Inductive confidence : Type := Pass | Warn.

Definition PASS_MARK : string := "✅".

Definition confidence_of (message : string) : confidence :=
  match String.index 0 PASS_MARK message with
  | Some _ => Pass
  | None => Warn
  end.

(** The three results agree: equal totals and equal unique counts. *)
Definition agree (A B C : Result.t) : Prop :=
  (Result.total_words A = Result.total_words B
   /\ Result.total_words B = Result.total_words C)
  /\ (Result.unique_words A = Result.unique_words B
      /\ Result.unique_words B = Result.unique_words C).

(** The largest total of the three results. *)
Definition top_total (A B C : Result.t) : Z :=
  Z.max (Result.total_words A)
        (Z.max (Result.total_words B) (Result.total_words C)).

(** The first of [A], [B], [C], in this order, whose total is the largest. *)
Definition first_top (A B C : Result.t) : Result.t :=
  if Result.total_words A =? top_total A B C then A
  else if Result.total_words B =? top_total A B C then B
  else C.

(** The final statistics are the counts of result [r]. *)
Definition selects (f : Final.t) (r : Result.t) : Prop :=
  Final.selected_method f = Result.method r
  /\ Final.total_words f = Result.total_words r
  /\ Final.unique_words f = Result.unique_words r
  /\ Final.word_freq f = Result.word_freq r.

(** A word count is well formed: the total is the sum of the frequencies,
    the unique count is the number of keys and no frequency is below one. *)
Definition well_formed (total unique : Z) (freq : gmap string Z) : Prop :=
  total = py_sum (values freq)
  /\ unique = Z.of_nat (length (keys freq))
  /\ (forall w n, freq !! w = Some n -> 1 <= n).

(** [l] lists the keys of [freq], each once, in lexicographic order. *)
Definition lists_sorted_keys (l : list string) (freq : gmap string Z) : Prop :=
  StronglySorted str_le l
  /\ NoDup l
  /\ (forall w, w ∈ l <-> is_Some (freq !! w)).

(** The flag [consistent] that [compare_results] computes for three
    results. *)
Definition consistent3 (A B C : Result.t) : bool :=
  all_equal (map Result.total_words [A; B; C])
  && all_equal (map Result.unique_words [A; B; C]).

(** The final statistics that [verify_text] builds from the best result. *)
Definition final_of (best : Result.t) : Final.t :=
  {| Final.total_words := Result.total_words best;
     Final.unique_words := Result.unique_words best;
     Final.word_freq := Result.word_freq best;
     Final.unique_word_list := sorted (keys (Result.word_freq best));
     Final.selected_method := Result.method best |}.

(** The quick mode of [analyze_text] returns the word count of result [r]:
    the same totals, the same frequency table and the sorted list of its
    keys. *)
Definition same_count (s : Stats.t) (r : Result.t) : Prop :=
  Stats.total_words s = Result.total_words r
  /\ Stats.unique_words s = Result.unique_words r
  /\ Stats.word_freq s = Result.word_freq r
  /\ Stats.unique_word_list s = sorted (keys (Result.word_freq r)).

Definition quick_matches_method3 (text : string) : Prop :=
  exists s,
    (analyze_text text false initial_state).1 = Ok s
    /\ same_count s (count_words_method3 text).

(** A plain word: one or more of the letters [a-zA-Z]. *)
Definition plain_word (w : string) : Prop :=
  w <> EmptyString /\ Forall (fun c => Char.is_letter c = true) (chars w).

(** The word spells "cannot", in any mix of upper and lower case. *)
Definition is_cannot (w : string) : bool := String.eqb (str_lower w) "cannot".

(** What the table makes of a plain word: "cannot" is its only entry
    without an apostrophe. *)
Definition expand_word (w : string) : list string :=
  if is_cannot w then ["can"; "not"] else [w].

(** What the substitution of the key [k] by [repl] makes of a word. *)
Definition replaced (k repl w : list ascii) : list ascii :=
  if decide (map Char.lower w = k) then repl else w.

(** The key of a table entry contains an apostrophe. *)
Definition has_apostrophe (entry : string * list string) : bool :=
  existsb (Ascii.eqb "'"%char) (chars entry.1).

(** The number of words that spell "cannot". *)
Definition count_cannot (ws : list string) : nat :=
  length (List.filter is_cannot ws).

(** A token of a text of plain words and possessives. *)
Inductive token : Type :=
| Plain (w : string)
| Possessive (w : string).

(** The word of a token, and the token as it is written in the text. *)
Definition base (t : token) : string :=
  match t with
  | Plain w => w
  | Possessive w => w
  end.

Definition written (t : token) : string :=
  match t with
  | Plain w => w
  | Possessive w => w ++ "'s"
  end.

(** [s] is a key of the contraction table as the module defines it. *)
Definition is_key (s : string) : bool :=
  existsb (fun entry => String.eqb s entry.1)
          (STANDARD_CONTRACTIONS initial_state).

(** The token is a plain word, alone or with ['s], and in lower case
    neither the word nor the token as written is a key of the table. *)
Definition not_a_contraction (t : token) : Prop :=
  plain_word (base t)
  /\ is_key (str_lower (base t)) = false
  /\ is_key (str_lower (written t)) = false.

(** The characters of keys and of tokens. *)
Definition key_char (c : ascii) : bool :=
  Char.is_lower_az c || Ascii.eqb c "'".

Definition token_char (c : ascii) : bool :=
  Char.is_letter c || Ascii.eqb c "'".

(** The shape shared by the keys of the table: lower-case letters and
    apostrophes, two characters or more, a letter at both ends. *)
Definition well_shaped_key (k : list ascii) : bool :=
  forallb key_char k
  && (2 <=? length k)%nat
  && match head k with Some c => Char.is_lower_az c | None => false end
  && match last k with Some c => Char.is_lower_az c | None => false end.

(** The characters a token adds to its word. *)
Definition suffix (tok : token) : list ascii :=
  match tok with
  | Plain _ => []
  | Possessive _ => ["'"; "s"]%char
  end.

(** The key [k] spells neither the word of the token nor the token as
    written, whatever the case of their letters. *)
Definition spells_no_token (k : list ascii) (tok : token) : Prop :=
  plain_word (base tok)
  /\ map Char.lower (chars (base tok)) <> k
  /\ map Char.lower (chars (written tok)) <> k.

(** ** Notions used to reason about the scans *)

(** The character before the position reached after reading [m] from a
    position preceded by [prev]. *)
Definition pass (prev : option ascii) (m : list ascii) : option ascii :=
  match last m with
  | Some x => Some x
  | None => prev
  end.

(** The effect on a match of reading a whole run of a class. *)
Definition consume_all (cap : bool) (run : list ascii) (r : Re.found)
    : Re.found :=
  {| Re.matched := (run ++ Re.matched r)%list;
     Re.group1 := if cap then (run ++ Re.group1 r)%list else Re.group1 r;
     Re.rest := Re.rest r |}.

(** The text [s] is the match [r] followed by its rest. *)
Definition splits (s : list ascii) (r : Re.found) : Prop :=
  s = (Re.matched r ++ Re.rest r)%list.

(** The atom reads at least one character. *)
Definition consumes (a : Re.atom) : bool :=
  match a with
  | Re.Bnd => false
  | _ => true
  end.

(** The text [s] does not go on with a character of the class. *)
Definition stops (cls : ascii -> bool) (s : list ascii) : Prop :=
  forall y, head s = Some y -> cls y = false.

(** The characters of [s] are letters [a-zA-Z]; are characters of
    tokens. *)
Abbreviation letters := (Forall (fun c => Char.is_letter c = true)).
Abbreviation token_chars := (Forall (fun c => token_char c = true)).

(** A fact about one character, settled on each of the 256 characters. *)
Ltac by_cases c :=
  destruct c as [[] [] [] [] [] [] [] []]; vm_compute; congruence.

(** ** Notions used in the further properties *)

(** The metric [m] of a comparison report describes the values that [f]
    takes on the results: it is consistent exactly when they are all
    equal, its bounds are the least and the largest of them, and its
    difference, the largest minus the least, is zero exactly when it is
    consistent. *)
Definition metric_sound (f : Result.t -> Z) (results : list Result.t)
    (m : Metric.t) : Prop :=
  (Metric.consistent m = true <->
   forall r1 r2, r1 ∈ results -> r2 ∈ results -> f r1 = f r2)
  /\ (forall r, r ∈ results -> Metric.min m <= f r <= Metric.max m)
  /\ (exists r, r ∈ results /\ f r = Metric.min m)
  /\ (exists r, r ∈ results /\ f r = Metric.max m)
  /\ Metric.difference m = Metric.max m - Metric.min m
  /\ (Metric.difference m = 0 <-> Metric.consistent m = true).

(** A word of one or more lower-case letters [a-z]. *)
Definition lowercase_word (w : string) : Prop :=
  w <> EmptyString
  /\ Forall (fun c => Char.is_lower_az c = true) (chars w).

(** A word of one or more alphabetic characters that [lower] leaves
    unchanged. *)
Definition alphabetic_lower_word (w : string) : Prop :=
  w <> EmptyString
  /\ Forall (fun c => Char.isalpha c = true) (chars w)
  /\ str_lower w = w.

(** The text [s] with every maximal run of characters of the class [cls]
    replaced by [t]; [in_run] tells that the character before [s] belongs
    to a run. *)
Fixpoint collapse (cls : ascii -> bool) (t : list ascii) (in_run : bool)
    (s : list ascii) : list ascii :=
  match s with
  | [] => []
  | x :: s' =>
      if cls x
      then ((if in_run then [] else t) ++ collapse cls t true s')%list
      else x :: collapse cls t false s'
  end.

(** The characters [p] occur in [s], one after the other. *)
Definition has_infix (p s : list ascii) : Prop :=
  exists s1 s2, s = (s1 ++ p ++ s2)%list.

(** The character [c] occurs twice in a row in [s]. *)
Fixpoint twice (c : ascii) (s : list ascii) : bool :=
  match s with
  | x :: s' =>
      (Ascii.eqb x c
       && match s' with y :: _ => Ascii.eqb y c | [] => false end)
      || twice c s'
  | [] => false
  end.

(** The text without its digits. *)
Definition without_digits (text : string) : string :=
  str (filter (fun c => Char.is_digit c = false) (chars text)).

(** The difference between the largest and the smallest total of the
    three results. *)
Definition spread (A B C : Result.t) : Z :=
  top_total A B C
  - Z.min (Result.total_words A)
          (Z.min (Result.total_words B) (Result.total_words C)).

(** The factor that [analyze_book_file] applies to the total of a file
    type. *)
Definition factor (file_type : string) : Z :=
  if String.eqb file_type "2原文" then 3 else 1.

(** The string [kw] occurs in [s]. *)
Definition occurs (kw s : string) : Prop :=
  exists a b, s = a ++ kw ++ b.

(** The files of the list whose name has the file type [t]. *)
Definition files_of_type (t : string) (files : list File.t) : list File.t :=
  filter (fun f => identify_file_type (File.name f) = Some t) files.

(** The file types of [REQUIRED] for which a file is given. *)
Definition given_types (uploaded_files : gmap string File.t) : list string :=
  filter (fun t => is_Some (uploaded_files !! t)) REQUIRED.

(** The character is neither a space nor a slash. *)
Definition safe_char (c : ascii) : Prop := c <> " "%char /\ c <> "/"%char.

(** What [remove_chinese] keeps: the characters U+0000 to U+007F when the
    punctuation is kept, and letters, digits and spaces when it is not. *)
Definition kept_char (keep_punctuation : bool) (c : ascii) : Prop :=
  if keep_punctuation then Char.in_range 0 127 c = true
  else Char.is_letter c || Char.is_digit c = true \/ c = " "%char.

(** Two adjacent characters clash: one is a letter [a-zA-Z] and the other
    a word character that is not such a letter (a digit, the underscore,
    another alphanumeric character). *)
Definition clash (x y : ascii) : bool :=
  (Char.is_letter x && Char.is_word y && negb (Char.is_letter y))
  || (Char.is_letter y && Char.is_word x && negb (Char.is_letter x)).

(** No two adjacent characters of [s] clash. *)
Fixpoint apart (s : list ascii) : bool :=
  match s with
  | [] => true
  | x :: s' =>
      match s' with
      | y :: _ => negb (clash x y)
      | [] => true
      end && apart s'
  end.

(** No letter of the text stands next to a word character that is not a
    letter. *)
Definition letters_apart (text : string) : Prop := apart (chars text) = true.

(** A filler character: any character but an alphabetic one and the
    apostrophe (white space, punctuation marks, digits, symbols). *)
Definition filler (c : ascii) : bool :=
  negb (Char.isalpha c) && negb (Ascii.eqb c "'").

(** A separator: filler characters, of which neither the first nor the
    last is a word character, so that no digit and no underscore touches
    a word. *)
Definition gap (g : list ascii) : Prop :=
  Forall (fun c => filler c = true) g
  /\ Re.word_at (head g) = false
  /\ Re.word_at (last g) = false.

(** A text given by its layout: the separator at its start, then every
    token as it is written, each with the separator after it. *)
Definition layout (lead : list ascii) (parts : list (string * list ascii))
    : string :=
  str (lead ++ flat_map (fun p => chars p.1 ++ p.2) parts)%list.

(** The separators of a layout are separators. *)
Definition gaps {A : Type} (lead : list ascii) (parts : list (A * list ascii))
    : Prop :=
  gap lead /\ Forall (fun p => gap p.2) parts.

(** [P] holds of the separator after every token but the last. *)
Fixpoint between {A : Type} (P : list ascii -> Prop)
    (parts : list (A * list ascii)) : Prop :=
  match parts with
  | [] => True
  | p :: parts' =>
      match parts' with
      | [] => True
      | _ :: _ => P p.2
      end /\ between P parts'
  end.

(** Every two tokens are separated; they are separated by white space. *)
Definition separated {A : Type} (parts : list (A * list ascii)) : Prop :=
  between (fun g => g <> []) parts.

Definition spaced {A : Type} (parts : list (A * list ascii)) : Prop :=
  between (fun g => existsb Char.isspace g = true) parts.

(** The layout after the entry "cannot" is applied: "can not" for every
    word that spells "cannot". *)
Definition respell (parts : list (string * list ascii))
    : list (string * list ascii) :=
  flat_map (fun p => if is_cannot p.1
                     then [("can", [" "%char]); ("not", p.2)]
                     else [p]) parts.

(** The layout without the digits of its separators. *)
Definition without_gap_digits (parts : list (string * list ascii))
    : list (string * list ascii) :=
  map (fun p => (p.1, filter (fun c => Char.is_digit c = false) p.2)) parts.

(** The words that method 2 makes of the tokens that [split] finds in
    [s], [cur] being the token in progress. *)
Definition method2_scan (cur s : list ascii) : list string :=
  flat_map method2_token (map str (split_scan cur s)).

(** The layout of the tokens as they are written, and of their words. *)
Definition as_written (parts : list (token * list ascii))
    : list (string * list ascii) :=
  map (fun p => (written p.1, p.2)) parts.

Definition as_words (parts : list (token * list ascii))
    : list (string * list ascii) :=
  map (fun p => (base p.1, p.2)) parts.

(** * Properties *)

(** ** The exception monad *)

Lemma bind_Ok {A B : Type} (f : A -> res B) (a : A) : Ok a ≫= f = f a.
Proof. reflexivity. Qed.

(** ** Counting *)

Section counting.
Implicit Types (words : list string) (d : gmap string Z) (xs : list Z).

Lemma Counter_nil : Counter [] = ∅.
Proof. reflexivity. Qed.

Lemma Counter_snoc words w :
  Counter (words ++ [w])
  = <[w := default 0 (Counter words !! w) + 1]> (Counter words).
Proof. unfold Counter. by rewrite foldl_snoc. Qed.

Lemma foldl_add_shift xs a : foldl Z.add a xs = a + foldr Z.add 0 xs.
Proof.
  revert a. induction xs as [|x xs IH]; intros a; simpl.
  - lia.
  - rewrite IH. lia.
Qed.

Lemma py_sum_cons x xs : py_sum (x :: xs) = x + py_sum xs.
Proof. unfold py_sum. simpl. rewrite !foldl_add_shift. lia. Qed.

Lemma py_sum_perm xs ys : xs ≡ₚ ys -> py_sum xs = py_sum ys.
Proof.
  induction 1 as [|x xs ys _ IH|x y xs|xs ys zs _ IH1 _ IH2].
  - reflexivity.
  - rewrite !py_sum_cons. lia.
  - rewrite !py_sum_cons. lia.
  - congruence.
Qed.

Lemma values_insert_fresh d k v :
  d !! k = None -> values (<[k := v]> d) ≡ₚ v :: values d.
Proof.
  intros Hk. unfold values.
  rewrite (map_to_list_insert d k v Hk). reflexivity.
Qed.

Lemma values_delete d k v :
  d !! k = Some v -> v :: values (delete k d) ≡ₚ values d.
Proof.
  intros Hk. unfold values.
  rewrite <- (map_to_list_delete d k v Hk). reflexivity.
Qed.

Lemma sum_values_insert d k v :
  py_sum (values (<[k := v]> d))
  = py_sum (values d) - default 0 (d !! k) + v.
Proof.
  destruct (d !! k) as [old|] eqn:Hk; simpl.
  - rewrite <- insert_delete_eq.
    rewrite (py_sum_perm _ _ (values_insert_fresh (delete k d) k v
                                (lookup_delete_eq d k))).
    rewrite <- (py_sum_perm _ _ (values_delete d k old Hk)).
    rewrite !py_sum_cons. lia.
  - rewrite (py_sum_perm _ _ (values_insert_fresh d k v Hk)).
    rewrite py_sum_cons. lia.
Qed.

(** The values of a counter add up to the number of words counted. *)
Lemma Counter_sum words :
  py_sum (values (Counter words)) = Z.of_nat (length words).
Proof.
  induction words as [|w words IH] using rev_ind.
  - reflexivity.
  - rewrite Counter_snoc, sum_values_insert, IH, length_app. simpl. lia.
Qed.

(** Every count is at least one. *)
Lemma Counter_positive words w n : Counter words !! w = Some n -> 1 <= n.
Proof.
  revert w n. induction words as [|w' words IH] using rev_ind; intros w n.
  - rewrite Counter_nil, lookup_empty. discriminate.
  - rewrite Counter_snoc. destruct (decide (w' = w)) as [->|Hne].
    + rewrite lookup_insert_eq. intros [= <-].
      destruct (Counter words !! w) as [m|] eqn:Hm; simpl.
      * specialize (IH w m Hm). lia.
      * lia.
    + rewrite lookup_insert_ne by done. apply IH.
Qed.

(** The keys of a counter are the words counted. *)
Lemma Counter_keys words w : is_Some (Counter words !! w) <-> w ∈ words.
Proof.
  induction words as [|w' words IH] using rev_ind.
  - rewrite Counter_nil, lookup_empty. split.
    + intros [? ?]. discriminate.
    + intros H. by apply not_elem_of_nil in H.
  - rewrite Counter_snoc, elem_of_app, list_elem_of_singleton.
    destruct (decide (w' = w)) as [->|Hne].
    + rewrite lookup_insert_eq. split; eauto.
    + rewrite lookup_insert_ne by done. rewrite IH. split.
      * auto.
      * intros [?|?]; [done|congruence].
Qed.

Lemma keys_spec d w : w ∈ keys d <-> is_Some (d !! w).
Proof.
  unfold keys. rewrite list_elem_of_fmap. split.
  - intros [[k v] [-> Hin]]. apply elem_of_map_to_list in Hin. eauto.
  - intros [v Hv]. exists (w, v). split; [done|].
    by apply elem_of_map_to_list.
Qed.

Lemma keys_NoDup d : NoDup (keys d).
Proof. apply NoDup_fst_map_to_list. Qed.

Lemma keys_length d : Z.of_nat (length (keys d)) = dict_len d.
Proof.
  unfold keys, dict_len. by rewrite length_fmap, length_map_to_list.
Qed.

End counting.

(** ** Sorting *)

Section sorting.

Lemma ascii_compare_trans_lt (a b c : ascii) :
  Ascii.compare a b = Lt -> Ascii.compare b c = Lt -> Ascii.compare a c = Lt.
Proof.
  unfold Ascii.compare. rewrite !N.compare_lt_iff. lia.
Qed.

Lemma ascii_compare_refl (a : ascii) : Ascii.compare a a = Eq.
Proof. apply N.compare_refl. Qed.

Lemma str_compare_refl (s : string) : String.compare s s = Eq.
Proof.
  induction s as [|a s IH]; simpl; [done|].
  by rewrite ascii_compare_refl.
Qed.

Lemma str_compare_lt_trans (s1 s2 s3 : string) :
  String.compare s1 s2 = Lt -> String.compare s2 s3 = Lt ->
  String.compare s1 s3 = Lt.
Proof.
  revert s2 s3. induction s1 as [|a s1 IH]; intros [|b s2] [|c s3];
    simpl; try congruence.
  destruct (Ascii.compare a b) eqn:Hab; try congruence;
    destruct (Ascii.compare b c) eqn:Hbc; try congruence; intros H12 H23.
  - apply Ascii.compare_eq_iff in Hab, Hbc. subst.
    rewrite ascii_compare_refl. eauto.
  - apply Ascii.compare_eq_iff in Hab. subst. by rewrite Hbc.
  - apply Ascii.compare_eq_iff in Hbc. subst. by rewrite Hab.
  - by rewrite (ascii_compare_trans_lt a b c).
Qed.

Lemma str_le_alt (a b : string) :
  str_le a b <-> a = b \/ String.compare a b = Lt.
Proof.
  unfold str_le, String.leb.
  destruct (String.compare a b) eqn:Hc.
  - apply String.compare_eq_iff in Hc. intuition.
  - intuition.
  - split; [discriminate|]. intros [->|?]; [|discriminate].
    rewrite str_compare_refl in Hc. discriminate.
Qed.

#[global] Instance str_le_total : Total str_le.
Proof. intros a b. apply String.leb_total. Qed.

#[global] Instance str_le_antisym : AntiSymm (=) str_le.
Proof. intros a b. apply String.leb_antisym. Qed.

#[global] Instance str_le_trans : Transitive str_le.
Proof.
  intros a b c. rewrite !str_le_alt.
  intros [->|Hab] [->|Hbc]; eauto using str_compare_lt_trans.
Qed.

Lemma sorted_Sorted (xs : list string) : StronglySorted str_le (sorted xs).
Proof. apply StronglySorted_merge_sort; apply _. Qed.

Lemma sorted_Permutation (xs : list string) : sorted xs ≡ₚ xs.
Proof. apply merge_sort_Permutation. Qed.

(** The result of [sorted] does not depend on the order of its input. *)
Lemma sorted_order_irrelevant (xs ys : list string) :
  xs ≡ₚ ys -> sorted xs = sorted ys.
Proof.
  intros Hp. apply (StronglySorted_unique str_le); auto using sorted_Sorted.
  by rewrite !sorted_Permutation.
Qed.

End sorting.

(** ** Comparison of the three results *)

Section comparison.
Implicit Types (a b c : Z) (r : Result.t).

Lemma all_equal_three a b c : all_equal [a; b; c] = true <-> a = b /\ b = c.
Proof.
  unfold all_equal. rewrite Nat.eqb_eq.
  rewrite !list_to_set_cons, list_to_set_nil. split.
  - intros Hsize. split.
    + apply (size_singleton_inv _ a b Hsize); set_solver.
    + apply (size_singleton_inv _ b c Hsize); set_solver.
  - intros [-> ->].
    rewrite (right_id_L ∅ (∪)), !(idemp_L (∪)).
    apply size_singleton.
Qed.

Lemma py_max_three a b c : py_max [a; b; c] = Ok (Z.max a (Z.max b c)).
Proof.
  unfold py_max. simpl. f_equal.
  destruct (Z.ltb_spec a b) as [H1|H1];
    [destruct (Z.ltb_spec b c)|destruct (Z.ltb_spec a c)]; lia.
Qed.

Lemma py_min_three a b c : py_min [a; b; c] = Ok (Z.min a (Z.min b c)).
Proof.
  unfold py_min. simpl. f_equal.
  destruct (Z.ltb_spec b a) as [H1|H1];
    [destruct (Z.ltb_spec c b)|destruct (Z.ltb_spec c a)]; lia.
Qed.

(** [max(results, key=...)] on three results: the first of them whose
    key is the largest. *)
Lemma py_max_by_three (key : Result.t -> Z) r1 r2 r3 :
  py_max_by key [r1; r2; r3]
  = Ok (if key r1 =? Z.max (key r1) (Z.max (key r2) (key r3)) then r1
        else if key r2 =? Z.max (key r1) (Z.max (key r2) (key r3)) then r2
        else r3).
Proof.
  unfold py_max_by. simpl. f_equal.
  destruct (Z.ltb_spec (key r1) (key r2)) as [H1|H1];
    [destruct (Z.ltb_spec (key r2) (key r3))
    |destruct (Z.ltb_spec (key r1) (key r3))];
    repeat match goal with
           | |- context [?x =? ?y] => destruct (Z.eqb_spec x y)
           end; try reflexivity; lia.
Qed.

(** The quotient exceeds [0.1] exactly when ten times the numerator
    exceeds the denominator. *)
Lemma gt_tenth_quotient a b :
  0 < b -> gt_tenth (inject_Z a / inject_Z b) = true <-> b < 10 * a.
Proof.
  intros Hb. unfold gt_tenth. rewrite negb_true_iff.
  rewrite <- not_true_iff_false, Qle_bool_iff.
  destruct b as [|p|p]; try lia.
  unfold Qle, Qdiv, Qmult, Qinv, inject_Z. simpl. lia.
Qed.

(** Below 2^52 the comparison of the model and the comparison on
    binary64 numbers agree. *)
Lemma gt_tenth_binary64 a b :
  0 < b < 2 ^ 52 ->
  gt_tenth (inject_Z a / inject_Z b) = binary64_gt_tenth a b.
Proof.
  intros Hb. unfold binary64_gt_tenth.
  destruct (gt_tenth (inject_Z a / inject_Z b)) eqn:Hq; symmetry.
  - apply gt_tenth_quotient in Hq; [|lia]. apply Z.ltb_lt. lia.
  - apply Z.ltb_ge. apply not_true_iff_false in Hq.
    rewrite gt_tenth_quotient in Hq by lia. lia.
Qed.

End comparison.

(** ** The verification report *)

Section report.
Implicit Types (text : string) (st : module_state) (A B C : Result.t).

Lemma expand_contractions_state text st : (expand_contractions text st).2 = st.
Proof. reflexivity. Qed.

Lemma extract_words_state text st :
  (extract_words_with_smart_contractions text st).2 = st.
Proof. reflexivity. Qed.

Lemma count_words_method1_state text st : (count_words_method1 text st).2 = st.
Proof. reflexivity. Qed.

Lemma count_words_method1_tally text st :
  (count_words_method1 text st).1
  = tally METHOD1 (extract_words_with_smart_contractions text st).1.
Proof. reflexivity. Qed.

Lemma tally_total_nonneg m words : 0 <= Result.total_words (tally m words).
Proof. simpl. lia. Qed.

Lemma consistent3_agree A B C : consistent3 A B C = true <-> agree A B C.
Proof.
  unfold consistent3, agree. simpl.
  by rewrite andb_true_iff, !all_equal_three.
Qed.

Lemma compare_results_three A B C :
  exists tw uw,
    compare_results [A; B; C]
    = Ok (Comparison.Report
            (if consistent3 A B C then "pass" else "warning")
            (consistent3 A B C) tw uw)
    /\ Metric.difference tw
       = top_total A B C
         - Z.min (Result.total_words A)
                 (Z.min (Result.total_words B) (Result.total_words C))
    /\ Metric.difference uw
       = Z.max (Result.unique_words A)
               (Z.max (Result.unique_words B) (Result.unique_words C))
         - Z.min (Result.unique_words A)
                 (Z.min (Result.unique_words B) (Result.unique_words C)).
Proof.
  unfold compare_results.
  change (length [A; B; C] <? 2)%nat with false. cbv iota.
  cbn [map]. rewrite !py_max_three, !py_min_three. cbn [mbind res_bind mret res_ret].
  eexists _, _. split; [reflexivity|]. split; reflexivity.
Qed.

Lemma get_recommendation_total status consistent tw uw :
  exists msg,
    get_recommendation (Comparison.Report status consistent tw uw) = Ok msg.
Proof.
  unfold get_recommendation. simpl.
  repeat match goal with
         | |- context [if ?b then _ else _] => destruct b
         end; eauto.
Qed.

Lemma get_verification_summary_total status consistent tw uw :
  exists msg,
    get_verification_summary (Comparison.Report status consistent tw uw)
    = Ok msg.
Proof.
  unfold get_verification_summary. simpl.
  repeat match goal with
         | |- context [if ?b then _ else _] => destruct b
         end; eauto.
Qed.

(** The choice of the best result among three, the first of which has a
    total that is not negative. *)
Lemma select_best_three (consistent : bool) A B C :
  0 <= Result.total_words A ->
  select_best consistent A [A; B; C]
  = Ok (if negb consistent
           && (10 * Result.total_words A <? 9 * top_total A B C)
        then first_top A B C else A).
Proof.
  intros HA. unfold select_best.
  destruct consistent; simpl negb; cbv iota; [reflexivity|].
  cbn [map]. rewrite py_max_three. fold (top_total A B C).
  cbn [mbind res_bind mret res_ret andb].
  destruct (Z.ltb_spec 0 (top_total A B C)) as [Htop|Htop].
  - unfold true_div.
    destruct (Z.eqb_spec (top_total A B C) 0) as [?|_]; [lia|].
    cbn [mbind res_bind mret res_ret].
    destruct (gt_tenth _) eqn:Hq.
    + apply gt_tenth_quotient in Hq; [|done].
      destruct (Z.ltb_spec (10 * Result.total_words A) (9 * top_total A B C));
        [|lia].
      apply py_max_by_three.
    + destruct (Z.ltb_spec (10 * Result.total_words A) (9 * top_total A B C))
        as [Hlt|]; [|reflexivity].
      assert (gt_tenth (inject_Z (top_total A B C - Result.total_words A)
                        / inject_Z (top_total A B C)) = true) as Hq'
        by (apply gt_tenth_quotient; lia).
      congruence.
  - destruct (Z.ltb_spec (10 * Result.total_words A) (9 * top_total A B C));
      [lia|reflexivity].
Qed.

(** [verify_text] never raises; its report has the following shape. *)
Lemma verify_text_report text st :
  let A := (count_words_method1 text st).1 in
  let B := count_words_method2 text in
  let C := count_words_method3 text in
  exists cmp msg,
    compare_results [A; B; C] = Ok cmp
    /\ Comparison.consistent cmp = Ok (consistent3 A B C)
    /\ get_recommendation cmp = Ok msg
    /\ verify_text text st
       = (Ok {| Verification.results := [A; B; C];
                Verification.comparison := cmp;
                Verification.recommendation := msg;
                Verification.final_stats :=
                  final_of
                    (if negb (consistent3 A B C)
                        && (10 * Result.total_words A <? 9 * top_total A B C)
                     then first_top A B C else A);
                Verification.verified := consistent3 A B C |},
          st).
Proof.
  intros A B C.
  destruct (compare_results_three A B C) as (tw & uw & Hcmp & _ & _).
  destruct (get_recommendation_total
              (if consistent3 A B C then "pass" else "warning")
              (consistent3 A B C) tw uw) as [msg Hmsg].
  eexists _, msg. split; [exact Hcmp|]. split; [reflexivity|].
  split; [exact Hmsg|].
  unfold verify_text.
  rewrite (surjective_pairing (count_words_method1 text st)).
  rewrite count_words_method1_state. fold A B C.
  rewrite Hcmp. cbn [mbind res_bind]. rewrite Hmsg. cbn [mbind res_bind].
  cbn [Comparison.consistent].
  rewrite bind_Ok.
  rewrite (select_best_three _ A B C) by apply tally_total_nonneg.
  reflexivity.
Qed.

End report.

(** ** Selection of the final statistics *)

(** C1.  [verify_text] returns the counts of method 1 unless the three
    results disagree and the total of method 1 is more than 10% below the
    largest of the three totals; in that case it returns the counts of the
    first method, in the order 1, 2, 3, whose total is the largest. *)
Theorem verify_text_selection (text : string) :
  let A := (count_words_method1 text initial_state).1 in
  let B := count_words_method2 text in
  let C := count_words_method3 text in
  exists v,
    (verify_text text initial_state).1 = Ok v
    /\ Verification.results v = [A; B; C]
    /\ (Verification.verified v = true <-> agree A B C)
    /\ (agree A B C \/ 9 * top_total A B C <= 10 * Result.total_words A ->
        selects (Verification.final_stats v) A)
    /\ (~ agree A B C /\ 10 * Result.total_words A < 9 * top_total A B C ->
        selects (Verification.final_stats v) (first_top A B C)
        /\ Result.total_words (first_top A B C) = top_total A B C
        /\ first_top A B C
           = if Result.total_words C <=? Result.total_words B then B else C).
Proof.
  intros A B C.
  destruct (verify_text_report text initial_state)
    as (cmp & msg & _ & _ & _ & Hrun).
  fold A B C in Hrun. rewrite Hrun. cbn [fst].
  eexists. split; [reflexivity|]. cbn [Verification.results
    Verification.verified Verification.final_stats].
  split; [reflexivity|]. split; [apply consistent3_agree|].
  pose proof (consistent3_agree A B C) as Hagree.
  assert (0 <= Result.total_words A) as HA by apply tally_total_nonneg.
  split.
  - intros Hkeep.
    assert (negb (consistent3 A B C)
            && (10 * Result.total_words A <? 9 * top_total A B C) = false)
      as ->; [|by repeat split].
    apply andb_false_iff. destruct Hkeep as [Hag|Hnear].
    + left. apply negb_false_iff. by apply Hagree.
    + right. apply Z.ltb_ge. lia.
  - intros [Hdis Hlow].
    assert (negb (consistent3 A B C)
            && (10 * Result.total_words A <? 9 * top_total A B C) = true)
      as ->.
    { apply andb_true_iff. split.
      - apply negb_true_iff, not_true_iff_false. by rewrite Hagree.
      - apply Z.ltb_lt. lia. }
    split; [by repeat split|].
    unfold first_top, top_total in *.
    repeat match goal with
           | |- context [?x =? ?y] => destruct (Z.eqb_spec x y)
           | |- context [?x <=? ?y] => destruct (Z.leb_spec x y)
           end; try (split; [lia|reflexivity]); lia.
Qed.

(** The theorem on a text that defeats method 1: with a digit glued to
    every word it finds none, methods 2 and 3 find three each, and the
    counts of method 2, the first of the two, are selected. *)
Lemma verify_text_selection_example :
  exists v,
    (verify_text "a1 b2 c3" initial_state).1 = Ok v
    /\ map Result.total_words (Verification.results v) = [0; 3; 3]
    /\ Final.selected_method (Verification.final_stats v) = METHOD2
    /\ Final.total_words (Verification.final_stats v) = 3.
Proof.
  destruct (verify_text_selection "a1 b2 c3")
    as (v & Hv & Hres & _ & _ & Hover).
  exists v. split; [exact Hv|]. split; [by rewrite Hres|].
  destruct Hover as [(Hmethod & Htotal & _) _].
  - split.
    + intros [[Hab _] _]. vm_compute in Hab. discriminate.
    + vm_compute. reflexivity.
  - rewrite Hmethod, Htotal. split; vm_compute; reflexivity.
Defined.

(** ** The confidence classifier *)

(** C3.  On a comparison report whose status is [pass] exactly when it is
    consistent, the recommendation and the summary are decided by the
    first matching row of the table: consistent; else total spread at
    most 2 and unique spread at most 2; else total spread at most 10 and
    unique spread at most 5; else total spread at most 50; else the
    warning.  All rows but the last carry the pass mark, so a warning
    implies a total spread above 50. *)
Theorem confidence_classifier
    (status : string) (consistent : bool) (tw uw : Metric.t) :
  (status = "pass" <-> consistent = true) ->
  let report := Comparison.Report status consistent tw uw in
  let T := Metric.difference tw in
  let U := Metric.difference uw in
  exists msg summary,
    get_recommendation report = Ok msg
    /\ get_verification_summary report = Ok summary
    /\ confidence_of summary = confidence_of msg
    /\ (consistent = true ->
        msg = "✅ 三种方法结果完全一致，统计结果可靠" /\ confidence_of msg = Pass)
    /\ (consistent = false -> T <= 2 /\ U <= 2 ->
        msg = "✅ 检测到轻微差异（≤2个词），结果可靠" /\ confidence_of msg = Pass)
    /\ (consistent = false -> ~ (T <= 2 /\ U <= 2) -> T <= 10 /\ U <= 5 ->
        msg = "✅ 检测到小幅差异（≤10个词），结果可靠" /\ confidence_of msg = Pass)
    /\ (consistent = false -> ~ (T <= 2 /\ U <= 2) -> ~ (T <= 10 /\ U <= 5) ->
        T <= 50 ->
        msg = "✅ 检测到差异（≤50个词），结果正常" /\ confidence_of msg = Pass)
    /\ (consistent = false -> 50 < T ->
        msg = "⚠️ 检测到较大差异（>50个词），建议检查文本内容"
        /\ confidence_of msg = Warn)
    /\ (confidence_of msg = Warn -> consistent = false /\ 50 < T).
Proof.
  intros Hstatus report T U.
  unfold get_recommendation, get_verification_summary, report.
  cbn [Comparison.status Comparison.consistent Comparison.total_words
       Comparison.unique_words mbind res_bind mret res_ret].
  fold T U.
  destruct consistent.
  - rewrite (proj2 (String.eqb_eq status "pass")) by by apply Hstatus.
    eexists _, _. split; [reflexivity|]. split; [reflexivity|].
    repeat split; try discriminate; try (intros; discriminate).
  - assert (String.eqb status "pass" = false) as ->.
    { apply String.eqb_neq. intros Hs. apply Hstatus in Hs. discriminate. }
    destruct (Z.leb_spec T 2); destruct (Z.leb_spec U 2);
      destruct (Z.leb_spec T 10); destruct (Z.leb_spec U 5);
      destruct (Z.leb_spec T 50);
      cbn [andb]; eexists _, _;
      (split; [reflexivity|]); (split; [reflexivity|]);
      (split; [reflexivity|]);
      repeat split; intros; try lia; try discriminate; try reflexivity.
Qed.

(** The classifier on a report with a total spread of 57. *)
Lemma confidence_classifier_example :
  exists msg summary,
    get_recommendation
      (Comparison.Report "warning" false
         (Metric.Make false ∅ 3 60 57) (Metric.Make false ∅ 3 4 1)) = Ok msg
    /\ get_verification_summary
      (Comparison.Report "warning" false
         (Metric.Make false ∅ 3 60 57) (Metric.Make false ∅ 3 4 1)) = Ok summary
    /\ confidence_of msg = Warn /\ confidence_of summary = Warn.
Proof.
  destruct (confidence_classifier "warning" false
              (Metric.Make false ∅ 3 60 57) (Metric.Make false ∅ 3 4 1))
    as (msg & summary & Hm & Hs & Heq & _ & _ & _ & _ & Hwarn & _).
  - split; discriminate.
  - exists msg, summary. repeat split; try assumption.
    + apply Hwarn; [reflexivity|simpl; lia].
    + rewrite Heq. apply Hwarn; [reflexivity|simpl; lia].
Defined.

(** ** Totality and the empty text *)

Lemma verify_text_total (text : string) (st : module_state) :
  exists v, (verify_text text st).1 = Ok v.
Proof.
  destruct (verify_text_report text st) as (cmp & msg & _ & _ & _ & Hrun).
  rewrite Hrun. eauto.
Qed.

Lemma analyze_text_total (text : string) (verify : bool) (st : module_state) :
  exists s, (analyze_text text verify st).1 = Ok s.
Proof.
  destruct verify; [|simpl; eauto].
  unfold analyze_text.
  destruct (verify_text_report text st) as (cmp & msg & Hcmp & _ & _ & Hrun).
  rewrite Hrun.
  destruct (compare_results_three (count_words_method1 text st).1
              (count_words_method2 text) (count_words_method3 text))
    as (tw & uw & Hcmp' & _).
  rewrite Hcmp' in Hcmp. injection Hcmp as <-.
  rewrite bind_Ok. cbn [Verification.comparison].
  match goal with
  | |- context [get_verification_summary (Comparison.Report ?s ?c ?t ?u)] =>
      destruct (get_verification_summary_total s c t u) as [summary ->]
  end.
  rewrite bind_Ok. cbn [fst mret res_ret]. eauto.
Qed.

(** C4.  On the empty text [verify_text] reports zero words, zero unique
    words and an empty frequency table, a consistent comparison and a
    recommendation with the pass mark; and on every text it returns a
    report instead of raising. *)
Theorem verify_text_empty_and_total :
  (exists v,
      (verify_text EmptyString initial_state).1 = Ok v
      /\ Final.total_words (Verification.final_stats v) = 0
      /\ Final.unique_words (Verification.final_stats v) = 0
      /\ Final.word_freq (Verification.final_stats v) = ∅
      /\ Final.unique_word_list (Verification.final_stats v) = []
      /\ map Result.total_words (Verification.results v) = [0; 0; 0]
      /\ map Result.unique_words (Verification.results v) = [0; 0; 0]
      /\ Comparison.consistent (Verification.comparison v) = Ok true
      /\ Verification.verified v = true
      /\ confidence_of (Verification.recommendation v) = Pass)
  /\ (forall text, exists v, (verify_text text initial_state).1 = Ok v)
  /\ (forall text verify,
        exists s, (analyze_text text verify initial_state).1 = Ok s).
Proof.
  split; [|split].
  - eexists. split; [vm_compute; reflexivity|].
    repeat split; reflexivity.
  - intros text. apply verify_text_total.
  - intros text verify. apply analyze_text_total.
Qed.

(** ** Well-formed word counts *)

Lemma tally_well_formed (m : string) (words : list string) :
  well_formed (Result.total_words (tally m words))
              (Result.unique_words (tally m words))
              (Result.word_freq (tally m words)).
Proof.
  unfold well_formed. cbn [tally Result.total_words Result.unique_words
                            Result.word_freq].
  split; [by rewrite Counter_sum|]. split; [by rewrite keys_length|].
  apply Counter_positive.
Qed.

Lemma sorted_keys_listed (freq : gmap string Z) :
  lists_sorted_keys (sorted (keys freq)) freq.
Proof.
  unfold lists_sorted_keys. split; [apply sorted_Sorted|]. split.
  - rewrite sorted_Permutation. apply keys_NoDup.
  - intros w. rewrite sorted_Permutation. apply keys_spec.
Qed.

Lemma first_top_cases (A B C : Result.t) :
  first_top A B C = A \/ first_top A B C = B \/ first_top A B C = C.
Proof.
  unfold first_top. repeat case_match; auto.
Qed.

(** C5.  The result of each of the three methods is well formed, and so
    are the final statistics of a verification and the statistics of the
    quick mode, whose unique word list is in addition the sorted list of
    the keys of the frequency table. *)
Theorem word_counts_well_formed (text : string) :
  let A := (count_words_method1 text initial_state).1 in
  let B := count_words_method2 text in
  let C := count_words_method3 text in
  (forall r, r ∈ [A; B; C] ->
     well_formed (Result.total_words r) (Result.unique_words r)
                 (Result.word_freq r)
     /\ (forall w, is_Some (Result.word_freq r !! w) <-> w ∈ Result.word_list r))
  /\ (exists v,
        (verify_text text initial_state).1 = Ok v
        /\ well_formed (Final.total_words (Verification.final_stats v))
                       (Final.unique_words (Verification.final_stats v))
                       (Final.word_freq (Verification.final_stats v))
        /\ lists_sorted_keys
             (Final.unique_word_list (Verification.final_stats v))
             (Final.word_freq (Verification.final_stats v)))
  /\ (exists s,
        (analyze_text text false initial_state).1 = Ok s
        /\ well_formed (Stats.total_words s) (Stats.unique_words s)
                       (Stats.word_freq s)
        /\ lists_sorted_keys (Stats.unique_word_list s) (Stats.word_freq s)).
Proof.
  intros A B C.
  assert (forall r, r ∈ [A; B; C] ->
            exists m words, r = tally m words) as Htally.
  { intros r Hr. repeat (apply elem_of_cons in Hr as [->|Hr]);
      [| | |by apply not_elem_of_nil in Hr]; eexists _, _; reflexivity. }
  split; [|split].
  - intros r Hr. destruct (Htally r Hr) as (m & words & ->).
    split; [apply tally_well_formed|]. intros w. apply Counter_keys.
  - destruct (verify_text_report text initial_state)
      as (cmp & msg & _ & _ & _ & Hrun).
    fold A B C in Hrun. rewrite Hrun. eexists. split; [reflexivity|].
    cbn [Verification.final_stats].
    match goal with
    | |- context [final_of ?b] => set (best := b)
    end.
    assert (best ∈ [A; B; C]) as Hbest.
    { subst best. destruct (_ && _); [|by left].
      destruct (first_top_cases A B C) as [->|[->| ->]];
        repeat constructor. }
    destruct (Htally best Hbest) as (m & words & ->).
    split; [apply tally_well_formed|apply sorted_keys_listed].
  - eexists. split; [reflexivity|].
    cbn [Stats.total_words Stats.unique_words Stats.word_freq
         Stats.unique_word_list].
    split; [|apply sorted_keys_listed].
    apply (tally_well_formed EmptyString).
Qed.

(** ** Repeated runs *)

(** C9.  A run of [verify_text] leaves the module state as it found it,
    and a second run on the same text, started in the state the first run
    left, returns the same report. *)
Theorem verify_text_deterministic (text : string) (st : module_state) :
  let first := verify_text text st in
  let second := verify_text text first.2 in
  first.2 = st
  /\ second.2 = st
  /\ second.1 = first.1
  /\ exists v, first.1 = Ok v.
Proof.
  intros first second.
  destruct (verify_text_report text st) as (cmp & msg & _ & _ & _ & Hrun).
  assert (first.2 = st) as Hst by (subst first; by rewrite Hrun).
  split; [exact Hst|]. subst second. rewrite Hst. fold first.
  split; [exact Hst|]. split; [reflexivity|].
  apply verify_text_total.
Qed.

(** ** Contractions and possessives on examples *)

(** C6.  [expand_contractions] applies the table before it strips
    possessives.  On "It's a cat" the table turns "It's" into "it is",
    although the possessive pattern alone would have matched it, and
    method 1 counts the four words it, is, a, cat. *)
Theorem contraction_before_possessive :
  (forall text st,
      (expand_contractions text st).1
      = strip_possessive (expand_standard (STANDARD_CONTRACTIONS st) text))
  /\ expand_standard (STANDARD_CONTRACTIONS initial_state) "It's a cat"
     = "it is a cat"
  /\ strip_possessive "It's a cat" = "It a cat"
  /\ (extract_words_with_smart_contractions "It's a cat" initial_state).1
     = ["it"; "is"; "a"; "cat"]
  /\ Result.word_list (count_words_method1 "It's a cat" initial_state).1
     <> ["its"; "a"; "cat"]
  /\ Result.total_words (count_words_method1 "It's a cat" initial_state).1 = 4.
Proof.
  split; [reflexivity|].
  repeat split; try (vm_compute; reflexivity).
  vm_compute. discriminate.
Qed.

(** C8.  Method 2 does not expand contractions: on "don't" it counts the
    single word dont, where method 1 counts the two words do and not. *)
Theorem method2_keeps_contraction :
  Result.word_list (count_words_method2 "don't") = ["dont"]
  /\ Result.total_words (count_words_method2 "don't") = 1
  /\ Result.word_list (count_words_method1 "don't" initial_state).1
     = ["do"; "not"]
  /\ Result.total_words (count_words_method1 "don't" initial_state).1 = 2.
Proof. repeat split; vm_compute; reflexivity. Qed.

(** ** Quick mode against method 3 *)

(** C2, as stated, fails on the text "a1": the quick mode finds no word,
    since no word boundary follows the letter, and method 3, which
    deletes the digit first, finds the word a. *)
Lemma quick_differs_on_a1 : ~ quick_matches_method3 "a1".
Proof.
  intros (s & Hs & Htotal & _).
  vm_compute in Hs. injection Hs as <-.
  vm_compute in Htotal. discriminate.
Qed.

(** ** Characters and strings *)

Section characters.

Lemma letter_is_word c : Char.is_letter c = true -> Char.is_word c = true.
Proof. by_cases c. Qed.

Lemma letter_isalpha c : Char.is_letter c = true -> Char.isalpha c = true.
Proof. by_cases c. Qed.

Lemma letter_not_digit c : Char.is_letter c = true -> Char.is_digit c = false.
Proof. by_cases c. Qed.

Lemma digit_is_word c : Char.is_digit c = true -> Char.is_word c = true.
Proof. by_cases c. Qed.

Lemma letter_not_space c : Char.is_letter c = true -> Char.isspace c = false.
Proof. by_cases c. Qed.

Lemma chars_str l : chars (str l) = l.
Proof. apply list_ascii_of_string_of_list_ascii. Qed.

Lemma str_chars s : str (chars s) = s.
Proof. apply string_of_list_ascii_of_string. Qed.

Lemma str_length l : String.length (str l) = length l.
Proof. induction l as [|x l IH]; simpl; congruence. Qed.

Lemma chars_app s1 s2 : chars (s1 ++ s2) = (chars s1 ++ chars s2)%list.
Proof. induction s1 as [|x s1 IH]; simpl; [done|]. by rewrite <- IH. Qed.

Lemma str_inj l1 l2 : str l1 = str l2 -> l1 = l2.
Proof. intros H. by rewrite <- (chars_str l1), H, chars_str. Qed.

End characters.

(** ** Scanning with the patterns of the program *)

Section scanning.
Import Re.
Local Open Scope list_scope.
Implicit Types (s m run : list ascii) (prev : option ascii) (re : regex).

Lemma pass_nil prev : pass prev [] = prev.
Proof. reflexivity. Qed.

Lemma pass_cons prev x m : pass prev (x :: m) = pass (Some x) m.
Proof.
  unfold pass. destruct m as [|y m]; [reflexivity|].
  rewrite last_cons. by destruct (last (y :: m)).
Qed.

Lemma findall_scan_skip re m prev s :
  findall_scan re (length m) prev (m ++ s) = findall_scan re 0 (pass prev m) s.
Proof.
  revert prev. induction m as [|x m IH]; intros prev.
  - reflexivity.
  - rewrite pass_cons. simpl. apply IH.
Qed.

Lemma sub_scan_skip ic re tpl m prev s :
  sub_scan ic re tpl (length m) prev (m ++ s)
  = sub_scan ic re tpl 0 (pass prev m) s.
Proof.
  revert prev. induction m as [|x m IH]; intros prev.
  - reflexivity.
  - rewrite pass_cons. simpl. apply IH.
Qed.

Lemma consume_consume_all cap x run r :
  consume cap x (consume_all cap run r) = consume_all cap (x :: run) r.
Proof. unfold consume, consume_all. simpl. by destruct cap. Qed.

Lemma run_split (cls : ascii -> bool) s :
  exists run rest,
    s = run ++ rest /\ Forall (fun c => cls c = true) run /\ stops cls rest.
Proof.
  induction s as [|x s (run & rest & -> & Hrun & Hrest)].
  - exists [], []. repeat split; [constructor|]. intros y. discriminate.
  - destruct (cls x) eqn:Hx.
    + exists (x :: run), rest. repeat split; [by constructor|done].
    + exists [], (x :: run ++ rest). repeat split; [constructor|].
      intros y [= <-]. done.
Qed.

(** The greedy loop stops at the end of the run when the rest of the
    pattern matches there. *)
Lemma more_run cap cls k x run s r :
  Forall (fun c => cls c = true) run -> stops cls s ->
  k (pass (Some x) run) s = Some r ->
  more cap cls k x (run ++ s) = Some (consume_all cap run r).
Proof.
  intros Hrun Hs. revert x. induction Hrun as [|y run Hy _ IH]; intros x Hk.
  - rewrite pass_nil in Hk. simpl.
    destruct s as [|y s]; simpl.
    + rewrite Hk. by destruct r, cap.
    + rewrite (Hs y eq_refl), Hk. by destruct r, cap.
  - rewrite pass_cons in Hk. simpl. rewrite Hy, (IH y Hk).
    by rewrite consume_consume_all.
Qed.

(** The greedy loop fails when the rest of the pattern matches at no
    point of the run. *)
Lemma more_fail cap cls k x run s :
  Forall (fun c => cls c = true) run -> stops cls s ->
  (forall run1 run2, run = run1 ++ run2 ->
                     k (pass (Some x) run1) (run2 ++ s) = None) ->
  more cap cls k x (run ++ s) = None.
Proof.
  intros Hrun Hs. revert x. induction Hrun as [|y run Hy _ IH]; intros x Hk.
  - pose proof (Hk [] [] eq_refl) as Hk0. simpl in Hk0. simpl.
    destruct s as [|y s]; simpl; [done|]. by rewrite (Hs y eq_refl).
  - simpl. rewrite Hy, IH.
    + apply (Hk [] (y :: run) eq_refl).
    + intros run1 run2 ->. specialize (Hk (y :: run1) run2 eq_refl).
      by rewrite pass_cons in Hk.
Qed.

End scanning.

(** ** Runs of letters *)

Section letter_runs.
Import Re.
Local Open Scope list_scope.
Implicit Types (s m run : list ascii) (prev : option ascii).

Lemma pass_letters x run :
  letters run -> Char.is_letter x = true ->
  exists z, pass (Some x) run = Some z /\ Char.is_letter z = true.
Proof.
  intros Hrun. revert x. induction Hrun as [|y run Hy _ IH]; intros x Hx.
  - by exists x.
  - rewrite pass_cons. by apply IH.
Qed.

Lemma match_here_Bnd ic (re : regex) prev s :
  match_here ic (Bnd :: re) prev s
  = if boundary prev s then match_here ic re prev s else None.
Proof. reflexivity. Qed.

Lemma match_here_Plus ic cls (re : regex) prev x s :
  match_here ic (Plus cls :: re) prev (x :: s)
  = if cls x
    then consume false x <$> more false cls (match_here ic re) x s
    else None.
Proof. reflexivity. Qed.

Lemma match_no_letter ic prev s (re : regex) :
  stops Char.is_letter s ->
  match_here ic (Plus Char.is_letter :: re) prev s = None.
Proof.
  intros Hs. destruct s as [|y s]; simpl; [done|].
  by rewrite (Hs y eq_refl).
Qed.

Lemma match_letters_no_letter prev s :
  stops Char.is_letter s -> match_here false letters_pattern prev s = None.
Proof. apply match_no_letter. Qed.

Lemma match_bounded_no_letter prev s :
  stops Char.is_letter s -> match_here false bounded_word_pattern prev s = None.
Proof.
  intros Hs. unfold bounded_word_pattern.
  rewrite match_here_Bnd. destruct (boundary prev s); [|done].
  by apply match_no_letter.
Qed.

(** [[a-zA-Z]+] matches the whole run of letters at the position. *)
Lemma match_letters_run prev x run s :
  Char.is_letter x = true -> letters run -> stops Char.is_letter s ->
  match_here false letters_pattern prev (x :: run ++ s)
  = Some (Found (x :: run) [] s).
Proof.
  intros Hx Hrun Hs. unfold letters_pattern.
  rewrite match_here_Plus, Hx.
  rewrite (more_run false _ _ x run s (Found [] [] s) Hrun Hs eq_refl).
  cbn [fmap option_fmap option_map].
  by rewrite consume_consume_all; unfold consume_all; cbn; rewrite app_nil_r.
Qed.

(** [\b[a-zA-Z]+\b] matches the whole run of letters when no word
    character stands before or after the run. *)
Lemma match_bounded_run prev x run s :
  Char.is_letter x = true -> letters run -> stops Char.is_word s ->
  word_at prev = false ->
  match_here false bounded_word_pattern prev (x :: run ++ s)
  = Some (Found (x :: run) [] s).
Proof.
  intros Hx Hrun Hs Hprev. unfold bounded_word_pattern.
  rewrite match_here_Bnd.
  unfold boundary at 1. rewrite Hprev. cbn [head word_at].
  rewrite (letter_is_word x Hx). cbn [xorb].
  rewrite match_here_Plus, Hx.
  assert (stops Char.is_letter s) as Hs'.
  { intros y Hy. specialize (Hs y Hy).
    destruct (Char.is_letter y) eqn:Hl; [|done].
    apply letter_is_word in Hl. congruence. }
  rewrite (more_run false _ _ x run s (Found [] [] s) Hrun Hs').
  - cbn [fmap option_fmap option_map].
    by rewrite consume_consume_all; unfold consume_all; cbn;
      rewrite app_nil_r.
  - destruct (pass_letters x run Hrun Hx) as (z & -> & Hz).
    rewrite match_here_Bnd.
    unfold boundary. cbn [word_at]. rewrite (letter_is_word z Hz).
    destruct s as [|y s]; cbn [head word_at]; [done|].
    by rewrite (Hs y eq_refl).
Qed.

(** The words found by [[a-zA-Z]+] are not empty. *)
Lemma findall_letters_nonempty s : forall skip prev,
  Forall (fun m => m <> []) (findall_scan letters_pattern skip prev s).
Proof.
  induction s as [|x s IH]; intros skip prev.
  - destruct skip; cbn [findall_scan]; [|constructor].
    rewrite match_letters_no_letter by done. constructor.
  - destruct skip as [|skip]; cbn [findall_scan]; [|apply IH].
    destruct (match_here false letters_pattern prev (x :: s)) as [r|] eqn:Hr;
      [|apply IH].
    unfold letters_pattern in Hr. cbn [match_here] in Hr.
    destruct (Char.is_letter x); [|done].
    destruct (more _ _ _ _ _) as [r'|]; [|done].
    injection Hr as <-. cbn [has_group existsb orb consume matched].
    constructor; [done|apply IH].
Qed.

End letter_runs.

(** ** Substitution of the runs of a class *)

Section class_runs.
Import Re.
Local Open Scope list_scope.
Implicit Types (s m t : list ascii) (prev : option ascii).
Variable cls : ascii -> bool.

Lemma match_class_none ic prev s :
  stops cls s -> match_here ic [Plus cls] prev s = None.
Proof.
  intros Hs. destruct s as [|x s]; [done|].
  rewrite match_here_Plus. by rewrite (Hs x eq_refl).
Qed.

Lemma match_class_run ic prev x run s :
  cls x = true -> Forall (fun c => cls c = true) run -> stops cls s ->
  match_here ic [Plus cls] prev (x :: run ++ s) = Some (Found (x :: run) [] s).
Proof.
  intros Hx Hrun Hs. rewrite match_here_Plus, Hx.
  rewrite (more_run false _ _ x run s (Found [] [] s) Hrun Hs eq_refl).
  cbn [fmap option_fmap option_map].
  by rewrite consume_consume_all; unfold consume_all; cbn; rewrite app_nil_r.
Qed.

Lemma collapse_run t run s :
  Forall (fun c => cls c = true) run -> stops cls s ->
  collapse cls t true (run ++ s) = collapse cls t false s.
Proof.
  intros Hrun Hs. induction Hrun as [|y run Hy _ IH].
  - destruct s as [|y s]; [done|]. simpl. by rewrite (Hs y eq_refl).
  - simpl. by rewrite Hy, IH.
Qed.

(** [re.sub] of [[cls]+] replaces every maximal run of the class. *)
Lemma sub_class_collapse ic t (n : nat) : forall s prev,
  (length s <= n)%nat ->
  sub_scan ic [Plus cls] [Text t] 0 prev s = collapse cls t false s.
Proof.
  induction n as [|n IH]; intros s prev Hlen.
  - destruct s; [|simpl in Hlen; lia]. cbn [sub_scan].
    by rewrite match_class_none.
  - destruct s as [|x s']; [cbn [sub_scan]; by rewrite match_class_none|].
    destruct (cls x) eqn:Hx.
    + destruct (run_split cls s') as (run & rest & -> & Hrun & Hrest).
      cbn [sub_scan]. rewrite (match_class_run ic prev x run rest Hx Hrun Hrest).
      cbn [matched expand_repl flat_map]. rewrite app_nil_r.
      rewrite sub_scan_skip. cbn [collapse]. rewrite Hx.
      rewrite (collapse_run t run rest Hrun Hrest). f_equal.
      apply IH. simpl in Hlen. rewrite length_app in Hlen. lia.
    + cbn [sub_scan]. rewrite match_class_none by (by intros y [= <-]).
      cbn [collapse]. rewrite Hx. f_equal. apply IH. simpl in Hlen. lia.
Qed.

Lemma sub_class_text ic t text :
  sub ic [Plus cls] [Text t] text = str (collapse cls t false (chars text)).
Proof.
  unfold sub. f_equal. by apply (sub_class_collapse ic t (length (chars text))).
Qed.

(** Replacing the runs by nothing removes the characters of the class. *)
Lemma collapse_nil b s :
  collapse cls [] b s = filter (fun c => cls c = false) s.
Proof.
  revert b. induction s as [|x s IH]; intros b; [done|].
  cbn [collapse]. destruct (cls x) eqn:Hx.
  - rewrite filter_cons_False by congruence. destruct b; apply IH.
  - rewrite filter_cons_True by done. f_equal. apply IH.
Qed.

End class_runs.

Lemma sub_digits_filter (text : string) :
  Re.sub false digits_pattern [Re.Text []] text
  = str (filter (fun c => Char.is_digit c = false) (chars text)).
Proof.
  unfold digits_pattern. by rewrite sub_class_text, collapse_nil.
Qed.

(** ** Letters apart from the other word characters *)

Section letters_apart.
Import Re.
Local Open Scope list_scope.
Implicit Types (s m run : list ascii) (prev : option ascii).

Lemma apart_cons x s : apart (x :: s) = true -> apart s = true.
Proof. cbn [apart]. by intros [_ ?]%andb_true_iff. Qed.

Lemma apart_head x y s : apart (x :: y :: s) = true -> clash x y = false.
Proof. cbn [apart]. by intros [?%negb_true_iff _]%andb_true_iff. Qed.

Lemma apart_app_r s1 s2 : apart (s1 ++ s2) = true -> apart s2 = true.
Proof.
  induction s1 as [|x s1 IH]; [done|]. intros H. by apply IH, (apart_cons x).
Qed.

(** No word character follows a run of letters, and no letter follows a
    word character that is not a letter. *)
Lemma apart_after_run run : forall x y rest,
  Char.is_letter x = true -> letters run ->
  apart (x :: run ++ y :: rest) = true ->
  Char.is_letter y = false -> Char.is_word y = false.
Proof.
  induction run as [|z run IH]; intros x y rest Hx Hrun Hapart Hy.
  - apply apart_head in Hapart. unfold clash in Hapart.
    rewrite Hx, Hy in Hapart. cbn in Hapart.
    by destruct (Char.is_word y).
  - apply Forall_cons in Hrun as [Hz Hrun].
    apply (IH z y rest Hz Hrun); [|done]. by apply (apart_cons x).
Qed.

Lemma apart_after_other x y s :
  apart (x :: y :: s) = true -> Char.is_letter x = false ->
  Char.is_word x = true -> Char.is_letter y = false.
Proof.
  intros Hapart Hx Hw. apply apart_head in Hapart. unfold clash in Hapart.
  rewrite Hx, Hw in Hapart.
  destruct (Char.is_letter y); [by cbn in Hapart|done].
Qed.

(** On such a text [\b[a-zA-Z]+\b] and [[a-zA-Z]+] find the same words. *)
Lemma findall_bounded_apart (n : nat) : forall s prev,
  (length s <= n)%nat -> apart s = true ->
  (word_at prev = true -> stops Char.is_letter s) ->
  findall_scan bounded_word_pattern 0 prev s
  = findall_scan letters_pattern 0 prev s.
Proof.
  induction n as [|n IH]; intros s prev Hlen Hapart Hprev.
  - destruct s; [|simpl in Hlen; lia].
    cbn [findall_scan].
    by rewrite match_bounded_no_letter, match_letters_no_letter by done.
  - destruct s as [|x s'].
    { cbn [findall_scan].
      by rewrite match_bounded_no_letter, match_letters_no_letter by done. }
    destruct (Char.is_letter x) eqn:Hl.
    + destruct (run_split Char.is_letter s') as (run & rest & -> & Hrun & Hrest).
      assert (word_at prev = false) as Hnw.
      { destruct (word_at prev); [|done].
        specialize (Hprev eq_refl x eq_refl). congruence. }
      assert (stops Char.is_word rest) as Hrest'.
      { intros y Hy. destruct rest as [|y' rest']; [done|].
        injection Hy as ->.
        by apply (apart_after_run run x y rest' Hl Hrun Hapart), Hrest. }
      cbn [findall_scan].
      rewrite match_letters_run, match_bounded_run by done.
      cbn [has_group existsb bounded_word_pattern letters_pattern orb
           matched].
      rewrite !findall_scan_skip. f_equal.
      apply IH; [simpl in Hlen; rewrite length_app in Hlen; lia| |done].
      by apply (apart_app_r (x :: run)).
    + assert (stops Char.is_letter (x :: s')) as Hstop
        by (intros y [= <-]; done).
      cbn [findall_scan].
      rewrite match_bounded_no_letter, match_letters_no_letter by done.
      apply IH; [simpl in Hlen; lia|by apply (apart_cons x)|].
      cbn [word_at]. intros Hw y Hy. destruct s' as [|y' s'']; [done|].
      injection Hy as ->. by apply (apart_after_other x y s'').
Qed.

Lemma filter_letters run :
  letters run -> filter (fun c => Char.is_digit c = false) run = run.
Proof.
  induction 1 as [|x run Hx _ IH]; [done|].
  rewrite filter_cons_True by by apply letter_not_digit. by rewrite IH.
Qed.

(** On such a text, removing the digits joins no two runs of letters. *)
Lemma findall_letters_without_digits (n : nat) : forall s prev prev',
  (length s <= n)%nat -> apart s = true ->
  findall_scan letters_pattern 0 prev
    (filter (fun c => Char.is_digit c = false) s)
  = findall_scan letters_pattern 0 prev' s.
Proof.
  induction n as [|n IH]; intros s prev prev' Hlen Hapart.
  - destruct s; [|simpl in Hlen; lia]. cbn [findall_scan].
    by rewrite !match_letters_no_letter by done.
  - destruct s as [|x s'].
    { cbn [findall_scan]. by rewrite !match_letters_no_letter by done. }
    destruct (Char.is_letter x) eqn:Hl.
    + destruct (run_split Char.is_letter s') as (run & rest & -> & Hrun & Hrest).
      rewrite filter_cons_True by by apply letter_not_digit.
      rewrite filter_app, (filter_letters run Hrun).
      assert (stops Char.is_letter
                (filter (fun c => Char.is_digit c = false) rest)) as Hstop.
      { destruct rest as [|y rest']; [done|].
        pose proof (Hrest y eq_refl) as Hy.
        pose proof (apart_after_run run x y rest' Hl Hrun Hapart Hy) as Hw.
        assert (Char.is_digit y = false) as Hd.
        { destruct (Char.is_digit y) eqn:Hd; [|done].
          apply digit_is_word in Hd. congruence. }
        rewrite filter_cons_True by done. by intros ? [= <-]. }
      cbn [findall_scan]. rewrite !match_letters_run by done.
      cbn [has_group existsb letters_pattern orb matched].
      rewrite !findall_scan_skip. f_equal.
      apply IH; [simpl in Hlen; rewrite length_app in Hlen; lia|].
      by apply (apart_app_r (x :: run)).
    + assert (stops Char.is_letter (x :: s')) as Hstop
        by (intros y [= <-]; done).
      cbn [findall_scan]. rewrite (match_letters_no_letter prev') by done.
      destruct (Char.is_digit x) eqn:Hd.
      * rewrite filter_cons_False by congruence.
        apply IH; [simpl in Hlen; lia|by apply (apart_cons x)].
      * rewrite filter_cons_True by done. cbn [findall_scan].
        rewrite match_letters_no_letter by (by intros y [= <-]).
        apply IH; [simpl in Hlen; lia|by apply (apart_cons x)].
Qed.

(** The words of method 3 are the runs of letters of the text without
    its digits, in lower case. *)
Lemma method3_words (text : string) :
  Result.word_list (count_words_method3 text)
  = map str_lower
        (findall letters_pattern
           (str (filter (fun c => Char.is_digit c = false) (chars text)))).
Proof.
  unfold count_words_method3. cbn [tally Result.word_list].
  rewrite sub_digits_filter. f_equal. unfold findall.
  match goal with
  | |- context [findall_scan letters_pattern 0 None ?s] =>
      generalize (findall_letters_nonempty s 0%nat None);
      induction (findall_scan letters_pattern 0 None s) as [|m l IH]
  end; intros Hne; [done|].
  apply Forall_cons in Hne as [Hm Hne].
  cbn [map filter list_filter]. rewrite str_length.
  destruct m; [done|]. cbn [length]. rewrite decide_True by lia.
  f_equal. by apply IH.
Qed.

End letters_apart.

(** ** Literal patterns *)

Section literal_patterns.
Import Re.
Local Open Scope list_scope.
Implicit Types (s m t k : list ascii) (prev : option ascii) (re : regex).

Lemma match_here_Lit ic c re prev x s :
  match_here ic (Lit c :: re) prev (x :: s)
  = if lit_match ic c x
    then consume false x <$> match_here ic re (Some x) s
    else None.
Proof. reflexivity. Qed.

Lemma match_here_Group ic cls re prev x s :
  match_here ic (Group cls :: re) prev (x :: s)
  = if cls x
    then consume true x <$> more true cls (match_here ic re) x s
    else None.
Proof. reflexivity. Qed.

Lemma consume_all_nil cap (o : option found) : consume_all cap [] <$> o = o.
Proof. destruct o as [[? ? ?]|]; [|done]. by destruct cap. Qed.

Lemma consume_all_cons cap x m (o : option found) :
  consume cap x <$> (consume_all cap m <$> o) = consume_all cap (x :: m) <$> o.
Proof. destruct o as [r|]; [|done]. simpl. by rewrite consume_consume_all. Qed.

(** A sequence of literals matches the characters it spells. *)
Lemma match_lits ic k m re prev t :
  Forall2 (fun c x => lit_match ic c x = true) k m ->
  match_here ic (map Lit k ++ re) prev (m ++ t)
  = consume_all false m <$> match_here ic re (pass prev m) t.
Proof.
  intros Hkm. revert prev. induction Hkm as [|c x k m Hcx _ IH]; intros prev.
  - simpl. by rewrite pass_nil, consume_all_nil.
  - cbn [map app]. rewrite match_here_Lit, Hcx, IH, pass_cons.
    apply consume_all_cons.
Qed.

(** A match of a sequence of literals spells it. *)
Lemma match_lits_inv ic k re : forall prev s r,
  match_here ic (map Lit k ++ re) prev s = Some r ->
  exists m t r',
    s = m ++ t
    /\ Forall2 (fun c x => lit_match ic c x = true) k m
    /\ match_here ic re (pass prev m) t = Some r'
    /\ r = consume_all false m r'.
Proof.
  induction k as [|c k IH]; intros prev s r Hr.
  - exists [], s, r.
    split; [done|]. split; [constructor|]. split; [done|by destruct r].
  - cbn [map app] in Hr. destruct s as [|x s]; [done|].
    rewrite match_here_Lit in Hr.
    destruct (lit_match ic c x) eqn:Hcx; [|done].
    destruct (match_here ic (map Lit k ++ re) (Some x) s) as [r1|] eqn:Hr1;
      [|done].
    injection Hr as <-.
    destruct (IH _ _ _ Hr1) as (m & t & r' & -> & Hkm & Hre & ->).
    exists (x :: m), t, r'. rewrite pass_cons.
    split; [done|]. split; [by constructor|].
    split; [done|by rewrite consume_consume_all].
Qed.

(** The greedy loop fails when the rest of the pattern matches nowhere. *)
Lemma more_none cap cls (cont : option ascii -> list ascii -> option found)
    (P : ascii -> Prop) x s :
  (forall p t, Forall P t -> cont p t = None) -> Forall P s ->
  more cap cls cont x s = None.
Proof.
  intros Hk Hs. revert x. induction Hs as [|y s Hy Hs IH]; intros x.
  - simpl. apply Hk. constructor.
  - simpl. rewrite IH. destruct (cls y); apply Hk; by constructor.
Qed.

(** A pattern with a literal that no character of the text matches does
    not match. *)
Lemma match_missing_lit ic c re : forall prev s,
  In (Lit c) re -> Forall (fun x => lit_match ic c x = false) s ->
  match_here ic re prev s = None.
Proof.
  induction re as [|a re IH]; intros prev s Hin Hs; [done|].
  destruct Hin as [->|Hin].
  - destruct s as [|x s]; [done|]. rewrite match_here_Lit.
    apply Forall_cons in Hs as [-> _]. done.
  - destruct a as [c'|cls|cls|].
    + destruct s as [|x s]; [done|]. rewrite match_here_Lit.
      apply Forall_cons in Hs as [_ Hs]. rewrite (IH _ _ Hin Hs).
      by destruct (lit_match ic c' x).
    + destruct s as [|x s]; [done|]. rewrite match_here_Plus.
      apply Forall_cons in Hs as [_ Hs].
      rewrite (more_none false cls _ _ x s (fun p t => IH p t Hin) Hs).
      by destruct (cls x).
    + destruct s as [|x s]; [done|]. rewrite match_here_Group.
      apply Forall_cons in Hs as [_ Hs].
      rewrite (more_none true cls _ _ x s (fun p t => IH p t Hin) Hs).
      by destruct (cls x).
    + rewrite match_here_Bnd, (IH _ _ Hin Hs). by destruct (boundary prev s).
Qed.

(** The scan of [re.sub] copies a segment in which the pattern matches at
    no position. *)
Lemma sub_scan_copy ic re tpl seg : forall prev rest,
  (forall s1 x s2, seg = s1 ++ x :: s2 ->
     match_here ic re (pass prev s1) (x :: s2 ++ rest) = None) ->
  sub_scan ic re tpl 0 prev (seg ++ rest)
  = seg ++ sub_scan ic re tpl 0 (pass prev seg) rest.
Proof.
  induction seg as [|x seg IH]; intros prev rest Hno; [done|].
  pose proof (Hno [] x seg eq_refl) as H0. rewrite pass_nil in H0.
  cbn [app sub_scan]. rewrite H0. f_equal.
  rewrite pass_cons. apply IH. intros s1 y s2 ->.
  rewrite <- (pass_cons prev x s1). by apply (Hno (x :: s1) y s2).
Qed.


(** [re.sub] changes nothing when a literal of the pattern matches no
    character of the text. *)
Lemma sub_missing_lit ic c re tpl (text : string) :
  In (Lit c) re -> Forall (fun x => lit_match ic c x = false) (chars text) ->
  sub ic re tpl text = text.
Proof.
  intros Hin Hs. unfold sub.
  rewrite <- (app_nil_r (chars text)) at 1.
  rewrite sub_scan_copy.
  - cbn [sub_scan]. rewrite (match_missing_lit ic c re _ [] Hin) by constructor.
    by rewrite app_nil_r, str_chars.
  - intros s1 x s2 Heq. apply (match_missing_lit ic c re _ _ Hin).
    rewrite app_nil_r. rewrite Heq in Hs.
    by apply Forall_app in Hs as [_ Hs].
Qed.

End literal_patterns.

(** ** Matches are prefixes of the text *)

Section match_shape.
Import Re.
Local Open Scope list_scope.
Implicit Types (s : list ascii) (prev : option ascii) (re : regex) (r : found).

Lemma splits_consume cap x s r : splits s r -> splits (x :: s) (consume cap x r).
Proof. unfold splits. simpl. by intros ->. Qed.

Lemma more_splits cap cls
    (cont : option ascii -> list ascii -> option found) :
  (forall p t r, cont p t = Some r -> splits t r) ->
  forall s x r, more cap cls cont x s = Some r -> splits s r.
Proof.
  intros Hcont. induction s as [|y s IH]; intros x r; simpl.
  - apply Hcont.
  - destruct (cls y); [|apply Hcont].
    destruct (more cap cls cont y s) as [r'|] eqn:Hr'; [|apply Hcont].
    intros [= <-]. apply splits_consume. by apply (IH y).
Qed.

(** The text is the match followed by the rest: the scans, which pass
    over as many characters as the match has, go on at the rest. *)
Lemma match_here_splits ic re : forall prev s r,
  match_here ic re prev s = Some r -> splits s r.
Proof.
  induction re as [|a re IH]; intros prev s r.
  - intros [= <-]. reflexivity.
  - destruct a as [c|cls|cls|].
    + destruct s as [|x s]; [done|]. rewrite match_here_Lit.
      destruct (lit_match ic c x); [|done].
      destruct (match_here ic re (Some x) s) as [r'|] eqn:Hr'; [|done].
      intros [= <-]. apply splits_consume. by apply (IH (Some x)).
    + destruct s as [|x s]; [done|]. rewrite match_here_Plus.
      destruct (cls x); [|done].
      destruct (more false cls (match_here ic re) x s) as [r'|] eqn:Hr';
        [|done].
      intros [= <-]. apply splits_consume.
      by apply (more_splits false cls (match_here ic re) IH s x).
    + destruct s as [|x s]; [done|]. rewrite match_here_Group.
      destruct (cls x); [|done].
      destruct (more true cls (match_here ic re) x s) as [r'|] eqn:Hr';
        [|done].
      intros [= <-]. apply splits_consume.
      by apply (more_splits true cls (match_here ic re) IH s x).
    + rewrite match_here_Bnd. destruct (boundary prev s); [|done]. apply IH.
Qed.

(** A pattern with a literal or a repetition has no empty match. *)
Lemma match_here_nonempty ic re : forall prev s r,
  existsb consumes re = true ->
  match_here ic re prev s = Some r -> matched r <> [].
Proof.
  induction re as [|a re IH]; intros prev s r Hre; [done|].
  destruct a as [c|cls|cls|].
  - destruct s as [|x s]; [done|]. rewrite match_here_Lit.
    destruct (lit_match ic c x); [|done].
    destruct (match_here ic re (Some x) s); [|done]. by intros [= <-].
  - destruct s as [|x s]; [done|]. rewrite match_here_Plus.
    destruct (cls x); [|done].
    destruct (more false cls (match_here ic re) x s); [|done].
    by intros [= <-].
  - destruct s as [|x s]; [done|]. rewrite match_here_Group.
    destruct (cls x); [|done].
    destruct (more true cls (match_here ic re) x s); [|done].
    by intros [= <-].
  - rewrite match_here_Bnd. destruct (boundary prev s); [|done].
    by apply IH.
Qed.

End match_shape.

(** ** Plain words *)

Section plain_words.
Import Re.
Local Open Scope list_scope.
Implicit Types (s m t w : list ascii) (prev : option ascii).

Lemma lower_letter_inv x :
  Char.is_lower_az (Char.lower x) = true -> Char.is_letter x = true.
Proof. by_cases x. Qed.

Lemma lower_idem x : Char.lower (Char.lower x) = Char.lower x.
Proof. by_cases x. Qed.

Lemma lower_apostrophe_inv x : Char.lower x = "'"%char -> x = "'"%char.
Proof. by_cases x. Qed.

Lemma letter_not_stripped x :
  Char.is_letter x = true ->
  existsb (Ascii.eqb x) (chars STRIP_CHARS) = false.
Proof. by_cases x. Qed.

Lemma lit_match_lower c x :
  lit_match true c x = true <-> Char.lower x = Char.lower c.
Proof. unfold lit_match. apply Ascii.eqb_eq. Qed.

(** The character after a nonempty run of letters is preceded by a
    letter. *)
Lemma pass_word prev w :
  letters w -> w <> [] -> word_at (pass prev w) = true.
Proof.
  intros Hw Hne. destruct w as [|x w]; [done|].
  apply Forall_cons in Hw as [Hx Hw]. rewrite pass_cons.
  destruct (pass_letters x w Hw Hx) as (z & -> & Hz).
  by apply letter_is_word.
Qed.

(** A prefix of letters of a text that begins with a run of letters
    lies within the run. *)
Lemma letters_prefix m t w rest :
  m ++ t = w ++ rest -> letters m -> stops Char.is_letter rest ->
  exists u, w = m ++ u /\ t = u ++ rest.
Proof.
  revert w. induction m as [|x m IH]; intros w Heq Hm Hrest.
  - exists w. by simpl in *.
  - apply Forall_cons in Hm as [Hx Hm]. destruct w as [|y w].
    + simpl in Heq. subst rest. specialize (Hrest x eq_refl). congruence.
    + injection Heq as -> Heq. destruct (IH w Heq Hm Hrest) as (u & -> & ->).
      by exists u.
Qed.

End plain_words.

(** ** A contraction without apostrophe on plain words *)

Section letter_key.
Import Re.
Local Open Scope list_scope.
Implicit Types (s m t w : list ascii) (prev : option ascii).

(** The key: one or more lower-case letters; the replacement text. *)
Variables (k repl : list ascii).
Hypothesis k_lower : Forall (fun c => Char.is_lower_az c = true) k.
Hypothesis k_nonempty : k <> [].

Let pattern : regex := Bnd :: map Lit k ++ [Bnd].
Let tpl : list repl_item := [Text repl].

Lemma lower_of_lower_az c : Char.is_lower_az c = true -> Char.lower c = c.
Proof. destruct c as [[] [] [] [] [] [] [] []]; vm_compute; congruence. Qed.

Lemma lits_spell m :
  Forall2 (fun c x => lit_match true c x = true) k m ->
  letters m /\ map Char.lower m = k.
Proof.
  clear k_nonempty pattern. intros Hkm.
  induction Hkm as [|c x k' m Hcx _ IH]; [by split|].
  apply Forall_cons in k_lower as [Hc Hk'].
  destruct (IH Hk') as [Hm Hmap].
  apply lit_match_lower in Hcx. rewrite (lower_of_lower_az c Hc) in Hcx.
  split.
  - constructor; [|done]. apply lower_letter_inv. by rewrite Hcx.
  - simpl. by rewrite Hcx, Hmap.
Qed.

Lemma spelled_lits w :
  map Char.lower w = k -> Forall2 (fun c x => lit_match true c x = true) k w.
Proof.
  intros <-. clear. induction w as [|x w IH]; constructor; [|done].
  apply lit_match_lower. by rewrite lower_idem.
Qed.

(** The pattern matches a whole word that spells the key. *)
Lemma match_key_word prev w rest :
  map Char.lower w = k -> letters w -> word_at prev = false ->
  stops Char.is_word rest ->
  match_here true pattern prev (w ++ rest) = Some (Found w [] rest).
Proof.
  intros Hspell Hw Hprev Hrest.
  assert (w <> []) as Hne by (intros ->; by subst k).
  unfold pattern. rewrite match_here_Bnd.
  assert (boundary prev (w ++ rest) = true) as ->.
  { destruct w as [|x w]; [done|]. apply Forall_cons in Hw as [Hx _].
    unfold boundary. rewrite Hprev. simpl. by rewrite (letter_is_word x Hx). }
  rewrite (match_lits true k w [Bnd] prev rest (spelled_lits w Hspell)).
  rewrite match_here_Bnd.
  assert (boundary (pass prev w) rest = true) as ->.
  { unfold boundary. rewrite (pass_word prev w Hw Hne).
    destruct rest as [|y rest]; [done|]. simpl. by rewrite (Hrest y eq_refl). }
  simpl. unfold consume_all. simpl. by rewrite app_nil_r.
Qed.

(** It does not match at the start of a word that spells something else. *)
Lemma no_match_other_word prev w rest :
  map Char.lower w <> k -> letters w -> stops Char.is_letter rest ->
  match_here true pattern prev (w ++ rest) = None.
Proof.
  intros Hspell Hw Hrest.
  destruct (match_here true pattern prev (w ++ rest)) as [r|] eqn:Hr; [|done].
  exfalso. unfold pattern in Hr. rewrite match_here_Bnd in Hr.
  destruct (boundary prev (w ++ rest)); [|done].
  apply match_lits_inv in Hr as (m & t & r' & Heq & Hkm & Hend & _).
  destruct (lits_spell m Hkm) as [Hm Hmk].
  destruct (letters_prefix m t w rest (eq_sym Heq) Hm Hrest) as (u & -> & ->).
  assert (m <> []) as Hne by (intros ->; by subst k).
  destruct u as [|y u].
  - rewrite app_nil_r in Hspell. done.
  - rewrite match_here_Bnd in Hend.
    apply Forall_app in Hw as [_ Hu]. apply Forall_cons in Hu as [Hy _].
    unfold boundary in Hend. rewrite (pass_word prev m Hm Hne) in Hend.
    simpl in Hend. by rewrite (letter_is_word y Hy) in Hend.
Qed.

(** It does not match inside a word. *)
Lemma no_match_inside prev w1 y s :
  letters w1 -> w1 <> [] -> Char.is_letter y = true ->
  match_here true pattern (pass prev w1) (y :: s) = None.
Proof.
  intros Hw1 Hne Hy. unfold pattern. rewrite match_here_Bnd.
  unfold boundary. rewrite (pass_word prev w1 Hw1 Hne). simpl.
  by rewrite (letter_is_word y Hy).
Qed.

(** It does not match at a character that is not a letter, nor at the
    end of the text. *)
Lemma no_match_at_other prev x s :
  Char.is_letter x = false -> match_here true pattern prev (x :: s) = None.
Proof.
  intros Hx. unfold pattern. rewrite match_here_Bnd.
  destruct (boundary prev (x :: s)); [|done].
  destruct k as [|c k'] eqn:Hk; [done|]. cbn [map app].
  rewrite match_here_Lit.
  destruct (lit_match true c x) eqn:Hcx; [|done].
  apply lit_match_lower in Hcx. apply Forall_cons in k_lower as [Hc _].
  rewrite (lower_of_lower_az c Hc) in Hcx.
  rewrite <- Hcx in Hc. apply lower_letter_inv in Hc. congruence.
Qed.

Lemma no_match_at_end prev : match_here true pattern prev [] = None.
Proof.
  unfold pattern. rewrite match_here_Bnd. destruct (boundary prev []); [|done].
  by destruct k.
Qed.

Lemma sub_key_word prev w rest :
  letters w -> w <> [] -> word_at prev = false -> stops Char.is_word rest ->
  sub_scan true pattern tpl 0 prev (w ++ rest)
  = replaced k repl w ++ sub_scan true pattern tpl 0 (pass prev w) rest.
Proof.
  intros Hw Hne Hprev Hrest. unfold replaced.
  assert (stops Char.is_letter rest) as Hrest'.
  { intros y Hy. specialize (Hrest y Hy).
    destruct (Char.is_letter y) eqn:Hl; [|done].
    apply letter_is_word in Hl. congruence. }
  destruct (decide (map Char.lower w = k)) as [Hspell|Hspell].
  - pose proof (match_key_word prev w rest Hspell Hw Hprev Hrest) as Hmatch.
    destruct w as [|x w]; [done|].
    cbn [app sub_scan] in *. rewrite Hmatch.
    cbn [matched tpl expand_repl flat_map]. rewrite app_nil_r. f_equal.
    by rewrite sub_scan_skip, pass_cons.
  - apply sub_scan_copy. intros s1 x s2 ->.
    apply Forall_app in Hw as [Hs1 Hs2].
    destruct s1 as [|z s1].
    + rewrite pass_nil.
      by apply (no_match_other_word prev (x :: s2) rest).
    + apply Forall_cons in Hs2 as [Hx _]. by apply no_match_inside.
Qed.

End letter_key.

(** ** Words that spell "cannot" *)

Section spelling_cannot.
Import Re.
Local Open Scope list_scope.
Implicit Types (s m t : list ascii) (prev : option ascii)
  (w : string) (ws : list string).

Lemma is_cannot_spec w :
  is_cannot w = true <-> map Char.lower (chars w) = chars "cannot".
Proof.
  unfold is_cannot, str_lower. rewrite String.eqb_eq. split.
  - intros H. apply str_inj. by rewrite H.
  - intros ->. reflexivity.
Qed.

Lemma replaced_cannot w :
  str (replaced (chars "cannot") (chars "can not") (chars w))
  = if is_cannot w then "can not"%string else w.
Proof.
  unfold replaced. destruct (is_cannot w) eqn:Hc.
  - apply is_cannot_spec in Hc. by rewrite decide_True.
  - rewrite decide_False; [apply str_chars|].
    intros H. apply is_cannot_spec in H. congruence.
Qed.

End spelling_cannot.

(** ** One word under the scans, and the entries with an apostrophe *)

Section word_scans.
Import Re.
Local Open Scope list_scope.
Implicit Types (s m t cur : list ascii) (prev : option ascii)
  (w : string) (ws : list string).

Lemma findall_letters_word prev m rest :
  letters m -> m <> [] -> stops Char.is_letter rest ->
  findall_scan letters_pattern 0 prev (m ++ rest)
  = m :: findall_scan letters_pattern 0 (pass prev m) rest.
Proof.
  intros Hm Hne Hrest. destruct m as [|x run]; [done|].
  apply Forall_cons in Hm as [Hx Hrun].
  cbn [app findall_scan]. rewrite match_letters_run by done.
  cbn [has_group existsb letters_pattern orb matched]. f_equal.
  by rewrite findall_scan_skip, pass_cons.
Qed.

Lemma expand_one_apostrophe text entry :
  has_apostrophe entry = true ->
  Forall (fun x => lit_match true "'"%char x = false) (chars text) ->
  expand_one text entry = text.
Proof.
  intros Hkey Htext. unfold expand_one.
  apply (sub_missing_lit true "'"%char); [|done].
  unfold contraction_pattern, literal. apply in_or_app. right.
  apply in_or_app. left. apply in_map.
  unfold has_apostrophe in Hkey. apply existsb_exists in Hkey as (c & Hc & Heq).
  apply Ascii.eqb_eq in Heq. by subst c.
Qed.

Lemma expand_standard_apostrophe table text :
  forallb has_apostrophe table = true ->
  Forall (fun x => lit_match true "'"%char x = false) (chars text) ->
  expand_standard table text = text.
Proof.
  intros Htable Htext. unfold expand_standard.
  induction table as [|entry table IH]; [done|].
  cbn [forallb] in Htable. apply andb_true_iff in Htable as [Hentry Htable].
  cbn [foldl]. rewrite expand_one_apostrophe by done. by apply IH.
Qed.

Lemma split_scan_word cur m s :
  letters m -> split_scan cur (m ++ s) = split_scan (cur ++ m) s.
Proof.
  intros Hm. revert cur. induction Hm as [|x m Hx _ IH]; intros cur.
  - by rewrite app_nil_r.
  - cbn [app split_scan]. rewrite (letter_not_space x Hx), IH.
    by rewrite <- app_assoc.
Qed.

End word_scans.

(** ** Totals and the words that spell "cannot" *)

Lemma compare_results_totals (A B C : Result.t) :
  exists cmp tw,
    compare_results [A; B; C] = Ok cmp
    /\ Comparison.total_words cmp = Ok tw
    /\ Metric.consistent tw
       = all_equal [Result.total_words A; Result.total_words B;
                    Result.total_words C]
    /\ Metric.difference tw
       = top_total A B C
         - Z.min (Result.total_words A)
                 (Z.min (Result.total_words B) (Result.total_words C)).
Proof.
  unfold compare_results.
  change (length [A; B; C] <? 2)%nat with false. cbv iota.
  cbn [map]. rewrite !py_max_three, !py_min_three.
  cbn [mbind res_bind mret res_ret].
  eexists _, _. split; [reflexivity|]. split; [reflexivity|].
  split; reflexivity.
Qed.

Lemma length_expand_word (ws : list string) :
  length (flat_map expand_word ws) = (length ws + count_cannot ws)%nat.
Proof.
  unfold count_cannot. induction ws as [|w ws IH]; [done|].
  cbn [flat_map List.filter]. rewrite length_app, IH. unfold expand_word.
  destruct (is_cannot w); simpl; lia.
Qed.

Lemma count_cannot_positive (ws : list string) :
  Exists (fun w => is_cannot w = true) ws -> (0 < count_cannot ws)%nat.
Proof.
  unfold count_cannot. induction 1 as [w ws Hw|w ws _ IH]; cbn [List.filter].
  - rewrite Hw. simpl. lia.
  - destruct (is_cannot w); simpl; lia.
Qed.

(** ** A key of the table against plain words and possessives *)

Section shaped_key.
Import Re.
Local Open Scope list_scope.
Implicit Types (s m t w suf : list ascii) (prev : option ascii).

Variables (k : list ascii) (tpl : list repl_item).
Hypothesis k_shape : well_shaped_key k = true.

Let pattern : regex := Bnd :: map Lit k ++ [Bnd].

Lemma key_char_lower c : key_char c = true -> Char.lower c = c.
Proof. destruct c as [[] [] [] [] [] [] [] []]; vm_compute; congruence. Qed.

Lemma key_char_matches c x :
  key_char c = true -> Char.lower x = c -> token_char x = true.
Proof.
  unfold key_char, token_char. intros Hc Hx.
  apply orb_true_iff in Hc as [Hc|Hc]; apply orb_true_iff.
  - left. apply lower_letter_inv. by rewrite Hx.
  - right. apply Ascii.eqb_eq in Hc. subst c.
    apply lower_apostrophe_inv in Hx. subst x. reflexivity.
Qed.

Lemma k_chars : Forall (fun c => key_char c = true) k.
Proof.
  pose proof k_shape as Hk. unfold well_shaped_key in Hk.
  repeat (apply andb_true_iff in Hk as [Hk ?]).
  apply Forall_forall. intros c Hc.
  rewrite forallb_forall in Hk. apply Hk.
  by apply list_elem_of_In.
Qed.

Lemma k_long : (2 <= length k)%nat.
Proof.
  pose proof k_shape as Hk. unfold well_shaped_key in Hk.
  repeat (apply andb_true_iff in Hk as [Hk ?]).
  by apply Nat.leb_le.
Qed.

Lemma k_head : exists c, head k = Some c /\ Char.is_lower_az c = true.
Proof.
  pose proof k_shape as Hk. unfold well_shaped_key in Hk.
  repeat (apply andb_true_iff in Hk as [Hk ?]).
  destruct (head k) as [c|]; [eauto|done].
Qed.

Lemma k_last : exists c, last k = Some c /\ Char.is_lower_az c = true.
Proof.
  pose proof k_shape as Hk. unfold well_shaped_key in Hk.
  repeat (apply andb_true_iff in Hk as [Hk ?]).
  destruct (last k) as [c|]; [eauto|done].
Qed.

Lemma lits_token_chars m :
  Forall2 (fun c x => lit_match true c x = true) k m ->
  token_chars m /\ map Char.lower m = k.
Proof.
  pose proof k_chars as Hk. clear k_shape pattern. intros Hkm.
  induction Hkm as [|c x k' m Hcx _ IH]; [by split|].
  apply Forall_cons in Hk as [Hc Hk'].
  destruct (IH Hk') as [Hm Hmap].
  apply lit_match_lower in Hcx. rewrite (key_char_lower c Hc) in Hcx.
  split.
  - constructor; [|done]. by apply (key_char_matches c).
  - simpl. by rewrite Hcx, Hmap.
Qed.

Lemma token_chars_prefix m t a rest :
  m ++ t = a ++ rest -> token_chars m -> stops token_char rest ->
  exists u, a = m ++ u /\ t = u ++ rest.
Proof.
  revert a. induction m as [|x m IH]; intros a Heq Hm Hrest.
  - exists a. by simpl in *.
  - apply Forall_cons in Hm as [Hx Hm]. destruct a as [|y a].
    + simpl in Heq. subst rest. specialize (Hrest x eq_refl). congruence.
    + injection Heq as -> Heq. destruct (IH a Heq Hm Hrest) as (u & -> & ->).
      by exists u.
Qed.

(** The suffix of a possessive does not spell a key, and a key does not
    end in an apostrophe. *)
Lemma suffix_is_no_key : map Char.lower ["'"; "s"]%char <> k.
Proof.
  destruct k_head as (c & Hc & Hl). intros Heq. rewrite <- Heq in Hc.
  vm_compute in Hc. injection Hc as <-. done.
Qed.

Lemma no_key_ends_in_apostrophe w : map Char.lower (w ++ ["'"%char]) <> k.
Proof.
  destruct k_last as (c & Hc & Hl). intros Heq. rewrite <- Heq in Hc.
  rewrite map_app in Hc. cbn [map] in Hc. rewrite last_snoc in Hc.
  injection Hc as <-. done.
Qed.

(** The key matches at no position of a word, alone or with ['s], that
    it does not spell. *)
Lemma no_match_in_token prev w suf rest s1 x s2 :
  letters w -> w <> [] -> suf = [] \/ suf = ["'"; "s"]%char ->
  stops token_char rest ->
  map Char.lower w <> k -> map Char.lower (w ++ suf) <> k ->
  w ++ suf = s1 ++ x :: s2 ->
  match_here true pattern (pass prev s1) (x :: s2 ++ rest) = None.
Proof.
  intros Hw Hne Hsuf Hrest Hnw Hnws Hsplit.
  destruct (match_here true pattern (pass prev s1) (x :: s2 ++ rest))
    as [r|] eqn:Hr; [|done].
  exfalso. unfold pattern in Hr. rewrite match_here_Bnd in Hr.
  destruct (boundary (pass prev s1) (x :: s2 ++ rest)) eqn:Hstart; [|done].
  apply match_lits_inv in Hr as (m & t & r' & Heq & Hkm & Hend & _).
  rewrite match_here_Bnd in Hend.
  destruct (boundary (pass (pass prev s1) m) t) eqn:Hstop; [|done].
  clear Hend r r'.
  destruct (lits_token_chars m Hkm) as [Hm Hmk].
  pose proof k_long as Hlong. rewrite <- Hmk, length_map in Hlong.
  change (x :: s2 ++ rest) with ((x :: s2) ++ rest) in Heq.
  destruct (token_chars_prefix m t (x :: s2) rest (eq_sym Heq) Hm Hrest)
    as (u & Hxs & ->).
  rewrite Hxs in Hsplit. clear Heq.
  (* the match [m] lies in the token: [w ++ suf = s1 ++ m ++ u] *)
  assert (forall l, l ++ m ++ u = suf -> False) as Hin_suffix.
  { intros l Hl. destruct Hsuf as [->| ->].
    - destruct l; [destruct m|]; simpl in *; (done || lia).
    - destruct l as [|a l].
      + destruct m as [|a [|b [|c m]]]; simpl in *; try lia.
        * injection Hl as -> -> ->. by apply suffix_is_no_key.
        * by destruct m.
      + destruct m as [|b [|c m]]; simpl in *; try lia.
        injection Hl as _ Hl. destruct l; [done|].
        injection Hl as _ Hl. by destruct l. }
  apply app_eq_app in Hsplit as [l [[-> Hl]|[-> Hl]]].
  2: { by apply (Hin_suffix l). }
  (* [w = s1 ++ l] and [m ++ u = l ++ suf] *)
  apply Forall_app in Hw as [Hs1 Hl'].
  destruct l as [|y l].
  { apply (Hin_suffix []). exact Hl. }
  destruct s1 as [|z s1].
  2: { rewrite Hl in Hxs. injection Hxs as -> _.
       apply Forall_cons in Hl' as [Hy _].
       unfold boundary in Hstart.
       rewrite (pass_word prev (z :: s1) Hs1) in Hstart by done.
       simpl in Hstart. by rewrite (letter_is_word y Hy) in Hstart. }
  rewrite pass_nil in Hstop. cbn [app] in Hnw, Hnws, Hne.
  apply app_eq_app in Hl as [l2 [[Hl2 Hu]|[Hl2 Hu]]].
  - (* [m = (y :: l) ++ l2] and [suf = l2 ++ u] *)
    destruct Hsuf as [->| ->].
    + destruct l2; [|done]. rewrite app_nil_r in Hl2. subst m. done.
    + destruct l2 as [|a [|b [|c l2]]].
      * rewrite app_nil_r in Hl2. subst m. done.
      * injection Hu as <- _. subst m.
        by apply (no_key_ends_in_apostrophe (y :: l)).
      * injection Hu as <- <- _. subst m. done.
      * simpl in Hu. discriminate.
  - (* [y :: l = m ++ l2] and [u = l2 ++ suf] *)
    destruct l2 as [|a l2].
    + rewrite app_nil_r in Hl2. subst m. done.
    + subst u. rewrite Hl2 in Hl'.
      apply Forall_app in Hl' as [Hm' Hl2']. apply Forall_cons in Hl2' as [Ha _].
      unfold boundary in Hstop.
      rewrite (pass_word prev m Hm') in Hstop by (intros ->; simpl in *; lia).
      simpl in Hstop. by rewrite (letter_is_word a Ha) in Hstop.
Qed.

Lemma no_match_at_text_end prev : match_here true pattern prev [] = None.
Proof.
  unfold pattern. rewrite match_here_Bnd. destruct (boundary prev []); [|done].
  pose proof k_long as Hlong. clear k_shape.
  destruct k; [simpl in Hlong; lia|reflexivity].
Qed.

(** The substitution copies a token that the key does not spell. *)
Lemma sub_copies_token prev w suf rest :
  letters w -> w <> [] -> suf = [] \/ suf = ["'"; "s"]%char ->
  stops token_char rest ->
  map Char.lower w <> k -> map Char.lower (w ++ suf) <> k ->
  sub_scan true pattern tpl 0 prev ((w ++ suf) ++ rest)
  = (w ++ suf) ++ sub_scan true pattern tpl 0 (pass prev (w ++ suf)) rest.
Proof.
  intros Hw Hne Hsuf Hrest Hnw Hnws. apply sub_scan_copy.
  intros s1 x s2 Hsplit. by apply (no_match_in_token prev w suf).
Qed.

End shaped_key.

(** ** Tokens that are no keys of the table *)

Section possessives.
Import Re.
Local Open Scope list_scope.
Implicit Types (s m t : list ascii) (prev : option ascii)
  (tok : token) (toks : list token).

Lemma suffix_cases tok : suffix tok = [] \/ suffix tok = ["'"; "s"]%char.
Proof. destruct tok; auto. Qed.

Lemma is_key_false (s : string) entry :
  is_key s = false -> In entry (STANDARD_CONTRACTIONS initial_state) ->
  s <> entry.1.
Proof.
  unfold is_key. intros Hkey Hin ->.
  apply not_true_iff_false in Hkey. apply Hkey.
  apply existsb_exists. exists entry. split; [done|]. apply String.eqb_refl.
Qed.

Lemma not_a_contraction_spells tok entry :
  not_a_contraction tok -> In entry (STANDARD_CONTRACTIONS initial_state) ->
  spells_no_token (chars entry.1) tok.
Proof.
  intros (Hw & Hb & Hwr) Hin. split; [done|].
  split; intros Heq.
  - apply (is_key_false _ entry Hb Hin). unfold str_lower.
    by rewrite Heq, str_chars.
  - apply (is_key_false _ entry Hwr Hin). unfold str_lower.
    by rewrite Heq, str_chars.
Qed.

Lemma table_well_shaped :
  Forall (fun entry => well_shaped_key (chars entry.1) = true)
         (STANDARD_CONTRACTIONS initial_state).
Proof.
  apply Forall_forall. intros entry Hin. apply list_elem_of_In in Hin.
  assert (forallb (fun entry => well_shaped_key (chars entry.1))
            (STANDARD_CONTRACTIONS initial_state) = true) as Hall
    by (vm_compute; reflexivity).
  rewrite forallb_forall in Hall. by apply Hall.
Qed.

End possessives.

(** *** Step 2: the possessive pattern *)

Section possessive_pattern.
Import Re.
Local Open Scope list_scope.
Implicit Types (s m t w : list ascii) (prev : option ascii)
  (tok : token) (toks : list token).

Lemma token_stops_letter rest : stops token_char rest -> stops Char.is_letter rest.
Proof.
  intros H y Hy. specialize (H y Hy). unfold token_char in H.
  by apply orb_false_iff in H as [H _].
Qed.

(** The rest of the pattern after the group: ['s\b]. *)
Let tail_pattern : regex := [Lit "'"; Lit "s"; Bnd].

Lemma tail_no_match prev s :
  (forall y, head s = Some y -> y <> "'"%char) ->
  match_here false tail_pattern prev s = None.
Proof.
  intros Hs. destruct s as [|y s]; [done|].
  unfold tail_pattern. rewrite match_here_Lit. unfold lit_match.
  destruct (Ascii.eqb_spec y "'"%char) as [->|]; [|done].
  by destruct (Hs _ eq_refl).
Qed.

Lemma letter_not_apostrophe y : Char.is_letter y = true -> y <> "'"%char.
Proof. intros Hy ->. done. Qed.

Lemma token_stop_not_apostrophe rest y :
  stops token_char rest -> head rest = Some y -> y <> "'"%char.
Proof.
  intros H Hy ->. specialize (H _ Hy). done.
Qed.

(** The pattern matches a whole possessive. *)
Lemma match_possessive prev x run rest :
  Char.is_letter x = true -> letters run -> word_at prev = false ->
  stops Char.is_word rest ->
  match_here false possessive_pattern prev
    (x :: run ++ ["'"; "s"]%char ++ rest)
  = Some (Found (x :: run ++ ["'"; "s"]%char) (x :: run) rest).
Proof.
  intros Hx Hrun Hprev Hrest. unfold possessive_pattern.
  rewrite match_here_Bnd. unfold boundary at 1. rewrite Hprev.
  cbn [head word_at]. rewrite (letter_is_word x Hx). cbn [xorb].
  rewrite match_here_Group, Hx.
  rewrite (more_run true _ _ x run _
             (Found ["'"; "s"]%char [] rest) Hrun).
  - cbn [fmap option_fmap option_map]. rewrite consume_consume_all.
    unfold consume_all. cbn [matched group1 Re.rest]. by rewrite app_nil_r.
  - intros y [= <-]. done.
  - cbn [app]. rewrite !match_here_Lit.
    change (lit_match false "'" "'") with true.
    change (lit_match false "s" "s") with true. cbv iota.
    rewrite match_here_Bnd. unfold boundary. cbn [word_at].
    change (Char.is_word "s") with true.
    destruct rest as [|y rest]; [done|]. cbn [head word_at].
    by rewrite (Hrest y eq_refl).
Qed.

(** It matches at no position of a plain word. *)
Lemma no_possessive_in_word prev w rest s1 x s2 :
  letters w -> stops token_char rest -> w = s1 ++ x :: s2 ->
  match_here false possessive_pattern (pass prev s1) (x :: s2 ++ rest) = None.
Proof.
  intros Hw Hrest ->. apply Forall_app in Hw as [Hs1 Hw].
  apply Forall_cons in Hw as [Hx Hs2].
  unfold possessive_pattern. rewrite match_here_Bnd.
  destruct (boundary (pass prev s1) (x :: s2 ++ rest)); [|done].
  rewrite match_here_Group, Hx.
  rewrite (more_fail true _ _ x s2 rest Hs2 (token_stops_letter _ Hrest));
    [done|].
  intros run1 run2 ->. apply tail_no_match. intros y Hy.
  destruct run2 as [|z run2].
  - by apply (token_stop_not_apostrophe rest).
  - injection Hy as <-. apply Forall_app in Hs2 as [_ Hs2].
    apply Forall_cons in Hs2 as [Hz _]. by apply letter_not_apostrophe.
Qed.

Lemma no_possessive_at_other prev x s :
  Char.is_letter x = false ->
  match_here false possessive_pattern prev (x :: s) = None.
Proof.
  intros Hx. unfold possessive_pattern. rewrite match_here_Bnd.
  destruct (boundary prev (x :: s)); [|done].
  by rewrite match_here_Group, Hx.
Qed.

Lemma no_possessive_at_end prev :
  match_here false possessive_pattern prev [] = None.
Proof.
  unfold possessive_pattern. rewrite match_here_Bnd.
  by destruct (boundary prev []).
Qed.

(** The scan at a match: the replacement, then the text after it. *)
Lemma sub_scan_match ic (re : regex) tpl prev x m rest r :
  match_here ic re prev (x :: m ++ rest) = Some r -> matched r = x :: m ->
  sub_scan ic re tpl 0 prev (x :: m ++ rest)
  = expand_repl tpl r ++ sub_scan ic re tpl 0 (pass (Some x) m) rest.
Proof.
  intros Hr Hm. cbn [sub_scan]. rewrite Hr, Hm. f_equal.
  apply sub_scan_skip.
Qed.

End possessive_pattern.

(** ** Where the quick mode and method 3 differ *)

Section letters_touching.
Import Re.
Local Open Scope list_scope.
Local Open Scope nat_scope.
Implicit Types (s m run rest : list ascii) (prev : option ascii).

(** [[a-zA-Z]+] does not look at the character before the position. *)
Lemma findall_letters_prev s : forall skip prev prev',
  findall_scan letters_pattern skip prev s
  = findall_scan letters_pattern skip prev' s.
Proof.
  induction s as [|x s IH]; intros skip prev prev'.
  - by destruct skip.
  - destruct skip as [|skip]; [|done]. cbn [findall_scan].
    unfold letters_pattern. rewrite !match_here_Plus. done.
Qed.

(** The scan of [re.findall] passes over a segment in which the pattern
    matches at no position. *)
Lemma findall_scan_pass (re : regex) seg : forall prev rest,
  (forall s1 x s2, seg = s1 ++ x :: s2 ->
     match_here false re (pass prev s1) (x :: s2 ++ rest) = None) ->
  findall_scan re 0 prev (seg ++ rest) = findall_scan re 0 (pass prev seg) rest.
Proof.
  induction seg as [|x seg IH]; intros prev rest Hno; [done|].
  pose proof (Hno [] x seg eq_refl) as H0. rewrite pass_nil in H0.
  cbn [app findall_scan]. rewrite H0.
  rewrite pass_cons. apply IH. intros s1 y s2 ->.
  rewrite <- (pass_cons prev x s1). by apply (Hno (x :: s1) y s2).
Qed.

Lemma pass_class (cls : ascii -> bool) x run :
  Forall (fun c => cls c = true) run -> cls x = true ->
  exists z, pass (Some x) run = Some z /\ cls z = true.
Proof.
  intros Hrun. revert x. induction Hrun as [|y run Hy _ IH]; intros x Hx.
  - by exists x.
  - rewrite pass_cons. by apply IH.
Qed.

(** [\b[a-zA-Z]+\b] finds nothing in a run of letters that a word
    character precedes or follows. *)
Lemma findall_bounded_touched prev x run rest :
  Char.is_letter x = true -> letters run -> stops Char.is_letter rest ->
  word_at prev = true \/ word_at (head rest) = true ->
  findall_scan bounded_word_pattern 0 prev (x :: run ++ rest)
  = findall_scan bounded_word_pattern 0 (pass (Some x) run) rest.
Proof.
  intros Hx Hrun Hrest Htouch.
  change (x :: run ++ rest) with ((x :: run) ++ rest).
  rewrite findall_scan_pass; [by rewrite pass_cons|].
  intros s1 y s2 Hsplit. unfold bounded_word_pattern.
  rewrite match_here_Bnd.
  assert (letters (s1 ++ y :: s2)) as Hall
    by (rewrite <- Hsplit; by constructor).
  apply Forall_app in Hall as [Hs1 Hys2].
  apply Forall_cons in Hys2 as [Hy Hs2].
  destruct s1 as [|z s1].
  - rewrite pass_nil. unfold boundary at 1. cbn [head word_at].
    rewrite (letter_is_word y Hy).
    destruct (word_at prev) eqn:Hprev; [done|]. cbn [xorb].
    destruct Htouch as [?|Htouch]; [done|].
    rewrite match_here_Plus, Hy.
    rewrite (more_fail false _ _ y s2 rest Hs2 Hrest); [done|].
    intros run1 run2 Hruns. rewrite match_here_Bnd.
    destruct (pass_class Char.is_letter y run1) as (z & -> & Hz); [|done|].
    { rewrite Hruns in Hs2. by apply Forall_app in Hs2 as [? _]. }
    unfold boundary. cbn [word_at]. rewrite (letter_is_word z Hz).
    destruct run2 as [|u run2].
    + cbn [app]. by rewrite Htouch.
    + rewrite Hruns in Hs2. apply Forall_app in Hs2 as [_ Hs2].
      apply Forall_cons in Hs2 as [Hu _]. cbn [app head word_at].
      by rewrite (letter_is_word u Hu).
  - unfold boundary. rewrite (pass_word prev (z :: s1)) by done.
    cbn [head word_at]. by rewrite (letter_is_word y Hy).
Qed.

(** It finds the run when no word character touches it. *)
Lemma findall_bounded_free prev x run rest :
  Char.is_letter x = true -> letters run -> stops Char.is_letter rest ->
  word_at prev = false -> word_at (head rest) = false ->
  findall_scan bounded_word_pattern 0 prev (x :: run ++ rest)
  = (x :: run)
    :: findall_scan bounded_word_pattern 0 (pass (Some x) run) rest.
Proof.
  intros Hx Hrun Hrest Hprev Hnext. cbn [findall_scan].
  rewrite match_bounded_run; [|done|done| |done].
  - cbn [has_group existsb bounded_word_pattern orb matched]. f_equal.
    apply findall_scan_skip.
  - intros y Hy. rewrite Hy in Hnext. exact Hnext.
Qed.

Lemma findall_bounded_other prev x s :
  Char.is_letter x = false ->
  findall_scan bounded_word_pattern 0 prev (x :: s)
  = findall_scan bounded_word_pattern 0 (Some x) s.
Proof.
  intros Hx. cbn [findall_scan].
  by rewrite match_bounded_no_letter by (by intros y [= <-]).
Qed.

(** The number of runs of letters. *)
Lemma runs_other x s :
  Char.is_letter x = false ->
  findall_scan letters_pattern 0 None (x :: s)
  = findall_scan letters_pattern 0 None s.
Proof.
  intros Hx. cbn [findall_scan].
  rewrite match_letters_no_letter by (by intros y [= <-]).
  apply findall_letters_prev.
Qed.

Lemma runs_first x run rest :
  Char.is_letter x = true -> letters run -> stops Char.is_letter rest ->
  findall_scan letters_pattern 0 None (x :: run ++ rest)
  = (x :: run) :: findall_scan letters_pattern 0 None rest.
Proof.
  intros Hx Hrun Hrest.
  change (x :: run ++ rest) with ((x :: run) ++ rest).
  rewrite findall_letters_word by (done || by constructor). f_equal.
  apply findall_letters_prev.
Qed.

(** Letters put before a run of letters add no run. *)
Lemma runs_joined x run y rest :
  Char.is_letter x = true -> letters run -> Char.is_letter y = true ->
  length (findall_scan letters_pattern 0 None (x :: run ++ y :: rest))
  = length (findall_scan letters_pattern 0 None (y :: rest)).
Proof.
  intros Hx Hrun Hy.
  destruct (run_split Char.is_letter rest) as (run' & rest' & -> & Hrun' & Hrest').
  rewrite (runs_first y run' rest') by done.
  replace (x :: run ++ y :: run' ++ rest')
    with (x :: (run ++ y :: run') ++ rest')
    by (by rewrite <- app_assoc).
  rewrite runs_first; [done|done| |done].
  apply Forall_app. split; [done|]. by constructor.
Qed.

Lemma clash_letter x y :
  Char.is_letter x = true ->
  clash x y = Char.is_word y && negb (Char.is_letter y).
Proof.
  intros Hx. unfold clash. rewrite Hx. cbn [andb negb].
  rewrite andb_false_r. by rewrite orb_false_r.
Qed.

Lemma apart_letter x z rest :
  Char.is_letter x = true -> Char.is_letter z = true ->
  apart (x :: rest) = apart (z :: rest).
Proof.
  intros Hx Hz. cbn [apart]. destruct rest as [|y rest]; [done|].
  by rewrite !clash_letter.
Qed.

Lemma apart_run run : forall x rest,
  Char.is_letter x = true -> letters run ->
  apart (x :: run ++ rest) = apart (x :: rest).
Proof.
  induction run as [|z run IH]; intros x rest Hx Hrun; [done|].
  apply Forall_cons in Hrun as [Hz Hrun].
  change (apart (x :: (z :: run) ++ rest))
    with (negb (clash x z) && apart (z :: run ++ rest)).
  rewrite (clash_letter x z Hx), Hz, andb_false_r. cbn [negb andb].
  rewrite (IH z rest Hz Hrun). by apply apart_letter.
Qed.

Lemma filter_digits ds :
  Forall (fun c => Char.is_digit c = true) ds ->
  filter (fun c => Char.is_digit c = false) ds = [].
Proof.
  induction 1 as [|d ds Hd _ IH]; [done|].
  by rewrite filter_cons_False by congruence.
Qed.

Lemma digit_not_letter d : Char.is_digit d = true -> Char.is_letter d = false.
Proof. by_cases d. Qed.

Lemma runs_nil : findall_scan letters_pattern 0 None [] = [].
Proof. reflexivity. Qed.

Lemma findall_bounded_nil prev :
  findall_scan bounded_word_pattern 0 prev [] = [].
Proof.
  cbn [findall_scan]. by rewrite match_bounded_no_letter.
Qed.

(** The quick mode never finds more words than method 3, and it finds
    fewer when a letter touches a word character that is not a letter. *)
Lemma quick_count (n : nat) : forall s prev,
  length s <= n ->
  let q := length (findall_scan bounded_word_pattern 0 prev s) in
  let r := length (findall_scan letters_pattern 0 None
                     (filter (fun c => Char.is_digit c = false) s)) in
  q <= r
  /\ (apart s = false
      \/ (word_at prev = true /\ word_at (head s) = true
          /\ exists y, head s = Some y /\ Char.is_letter y = true) ->
      q < r).
Proof.
  induction n as [|n IH]; intros s prev Hlen.
  { destruct s; [|simpl in Hlen; lia]. cbn zeta.
    rewrite filter_nil, runs_nil, findall_bounded_nil.
    split; [done|]. intros [?|(_ & _ & y & ? & _)]; done. }
  destruct s as [|x s'].
  { cbn zeta. rewrite filter_nil, runs_nil, findall_bounded_nil.
    split; [done|]. intros [?|(_ & _ & y & ? & _)]; done. }
  cbn zeta. destruct (Char.is_letter x) eqn:Hl.
  - (* a run of letters *)
    destruct (run_split Char.is_letter s') as (run & rest & -> & Hrun & Hrest).
    destruct (pass_class Char.is_letter x run Hrun Hl) as (z & Hz & Hzl).
    assert (length rest <= n) as Hlen'
      by (simpl in Hlen; rewrite length_app in Hlen; lia).
    rewrite filter_cons_True by by apply letter_not_digit.
    rewrite filter_app, (filter_letters run Hrun).
    rewrite (apart_run run x rest Hl Hrun).
    destruct rest as [|y rest0].
    { (* the run ends the text *)
      rewrite filter_nil, (runs_first x run []), runs_nil by done.
      cbn [length].
      destruct (word_at prev) eqn:Hprev.
      - rewrite findall_bounded_touched by auto.
        rewrite findall_bounded_nil. cbn [length].
        split; [lia|]. intros _. lia.
      - rewrite findall_bounded_free by done.
        rewrite findall_bounded_nil. cbn [length]. split; [lia|].
        intros [?|(? & _)]; done. }
    pose proof (Hrest y eq_refl) as Hyl.
    destruct (Char.is_digit y) eqn:Hyd.
    + (* digits follow the run *)
      destruct (run_split Char.is_digit rest0)
        as (ds & rest' & -> & Hds & Hrest').
      assert (length rest' <= n) as Hlen''
        by (simpl in Hlen'; rewrite length_app in Hlen'; lia).
      rewrite findall_bounded_touched;
        [|done|done|done|right; cbn [head word_at]; by apply digit_is_word].
      rewrite Hz.
      change (y :: ds ++ rest') with ((y :: ds) ++ rest').
      rewrite findall_scan_pass.
      2: { intros s1 u s2 Hsplit. apply match_bounded_no_letter.
           intros ? [= <-]. apply digit_not_letter.
           assert (Forall (fun c => Char.is_digit c = true) (s1 ++ u :: s2))
             as Hall by (rewrite <- Hsplit; by constructor).
           apply Forall_app in Hall as [_ Hall].
           by apply Forall_cons in Hall as [? _]. }
      destruct (pass_class Char.is_digit y ds Hds Hyd) as (d & Hd & Hdd).
      rewrite pass_cons, Hd.
      rewrite filter_app, (filter_digits (y :: ds)) by by constructor.
      cbn [app].
      destruct (IH rest' (Some d) Hlen'') as [Hle Hlt].
      cbn zeta in Hle, Hlt.
      assert (length (findall_scan bounded_word_pattern 0 (Some d) rest')
              < length (findall_scan letters_pattern 0 None
                          (x :: run
                           ++ filter (fun c => Char.is_digit c = false) rest')))
        as Hstrict; [|split; [lia|intros _; lia]].
      destruct rest' as [|u rest''].
      * rewrite filter_nil, (runs_first x run []), runs_nil by done.
        rewrite findall_bounded_nil. cbn [length]. lia.
      * assert (Char.is_digit u = false) as Hud by apply (Hrest' u eq_refl).
        rewrite filter_cons_True in * by done.
        destruct (Char.is_letter u) eqn:Hul.
        -- rewrite runs_joined by done. apply Hlt. right.
           cbn [word_at head]. rewrite (digit_is_word d Hdd).
           rewrite (letter_is_word u Hul). eauto.
        -- rewrite runs_first; [|done|done|by intros ? [= <-]].
           cbn [length]. lia.
    + (* another character follows the run *)
      rewrite filter_cons_True by done.
      rewrite runs_first; [|done|done|by intros ? [= <-]]. cbn [length].
      destruct (IH (y :: rest0) (Some z) Hlen') as [Hle Hlt].
      cbn zeta in Hle, Hlt. rewrite filter_cons_True in Hle, Hlt by done.
      assert (apart (x :: y :: rest0)
              = negb (Char.is_word y) && apart (y :: rest0)) as Hap.
      { change (apart (x :: y :: rest0))
          with (negb (clash x y) && apart (y :: rest0)).
        by rewrite (clash_letter x y Hl), Hyl, andb_true_r. }
      rewrite Hap.
      destruct (word_at prev) eqn:Hprev.
      { rewrite findall_bounded_touched by auto. rewrite Hz.
        split; [lia|]. intros _. lia. }
      destruct (Char.is_word y) eqn:Hyw.
      { rewrite findall_bounded_touched;
          [|done|done|done|right; cbn [head word_at]; exact Hyw].
        rewrite Hz. split; [lia|]. intros _. lia. }
      rewrite findall_bounded_free;
        [|done|done|done|done|cbn [head word_at]; exact Hyw].
      rewrite Hz. cbn [length negb andb]. split; [lia|].
      intros [Hbad|(? & _)]; [|done].
      assert (length (findall_scan bounded_word_pattern 0 (Some z)
                        (y :: rest0))
              < length (findall_scan letters_pattern 0 None
                          (y :: filter (fun c => Char.is_digit c = false)
                                       rest0))) by (apply Hlt; by left).
      lia.
  - (* a character that is not a letter *)
    assert (length s' <= n) as Hlen' by (simpl in Hlen; lia).
    rewrite findall_bounded_other by done.
    destruct (IH s' (Some x) Hlen') as [Hle Hlt]. cbn zeta in Hle, Hlt.
    assert (length (findall_scan letters_pattern 0 None
                      (filter (fun c => Char.is_digit c = false) (x :: s')))
            = length (findall_scan letters_pattern 0 None
                        (filter (fun c => Char.is_digit c = false) s')))
      as ->.
    { destruct (Char.is_digit x) eqn:Hd.
      - by rewrite filter_cons_False by congruence.
      - rewrite filter_cons_True by done. by rewrite runs_other. }
    split; [exact Hle|].
    intros [Hbad|(_ & _ & y & Hy & Hyl)].
    2: { injection Hy as <-. congruence. }
    apply Hlt. cbn [apart] in Hbad.
    destruct s' as [|y s'']; [done|].
    apply andb_false_iff in Hbad as [Hclash|Hrest]; [|by left].
    right. apply negb_false_iff in Hclash. unfold clash in Hclash.
    rewrite Hl in Hclash. cbn [andb negb orb] in Hclash.
    apply andb_true_iff in Hclash as [Hclash _].
    apply andb_true_iff in Hclash as [Hyl Hxw].
    cbn [word_at head]. rewrite Hxw, (letter_is_word y Hyl). eauto.
Qed.

End letters_touching.

(** C2, as amended.  The quick mode of [analyze_text] returns the word
    count of method 3 (the same totals, the same frequency table and the
    sorted list of its keys) exactly on the texts in which no letter
    [a-zA-Z] stands next to a word character that is not such a letter
    (a digit, an underscore, another alphanumeric character).  Digits
    and other word characters that touch no letter do no harm; where a
    letter touches one, the quick mode finds fewer words than method
    3. *)
Theorem quick_mode_is_method3 (text : string) :
  letters_apart text <-> quick_matches_method3 text.
Proof.
  unfold letters_apart, quick_matches_method3. split.
  - intros Hapart. eexists. split; [reflexivity|].
    assert (map str_lower (Re.findall bounded_word_pattern text)
            = Result.word_list (count_words_method3 text)) as Heq.
    { rewrite method3_words. f_equal. unfold Re.findall. f_equal.
      rewrite chars_str.
      rewrite (findall_bounded_apart (length (chars text))) by done.
      symmetry.
      by apply (findall_letters_without_digits (length (chars text))). }
    unfold same_count, count_words_method3 in *.
    cbn [tally Result.word_list Result.total_words Result.unique_words
         Result.word_freq Stats.total_words Stats.unique_words
         Stats.word_freq Stats.unique_word_list] in *.
    rewrite Heq. by repeat split.
  - intros (s & Hs & Htotal & _).
    destruct (apart (chars text)) eqn:Hapart; [done|exfalso].
    destruct (quick_count (length (chars text)) (chars text) None)
      as [_ Hlt]; [done|]. cbn zeta in Hlt.
    specialize (Hlt (or_introl Hapart)).
    injection Hs as <-. cbn [Stats.total_words] in Htotal.
    change (Result.total_words (count_words_method3 text))
      with (Z.of_nat (length (Result.word_list (count_words_method3 text))))
      in Htotal.
    rewrite method3_words in Htotal. unfold Re.findall in Htotal.
    rewrite chars_str, !length_map in Htotal. lia.
Qed.

(** The theorem on a text with punctuation and numbers. *)
Lemma quick_mode_is_method3_example :
  quick_matches_method3 "Chapter 1: I have 3 cats".
Proof.
  apply quick_mode_is_method3. vm_compute. reflexivity.
Defined.


(** ** Texts of tokens and separators *)

Section layouts.
Import Re.
Local Open Scope list_scope.
Implicit Types (s m t g lead : list ascii) (prev : option ascii).

Lemma filler_not_letter c : filler c = true -> Char.is_letter c = false.
Proof. by_cases c. Qed.

Lemma filler_not_alpha c : filler c = true -> Char.isalpha c = false.
Proof. by_cases c. Qed.

Lemma filler_not_apostrophe c : filler c = true -> c <> "'"%char.
Proof. by_cases c. Qed.

Lemma filler_not_token c : filler c = true -> token_char c = false.
Proof. by_cases c. Qed.

Lemma gap_not_letters g :
  gap g -> Forall (fun c => Char.is_letter c = false) g.
Proof.
  intros [Hg _]. eapply Forall_impl; [exact Hg|]. apply filler_not_letter.
Qed.

Lemma gap_not_alpha g : gap g -> Forall (fun c => Char.isalpha c = false) g.
Proof.
  intros [Hg _]. eapply Forall_impl; [exact Hg|]. apply filler_not_alpha.
Qed.

Lemma gap_space : gap [" "%char].
Proof. split; [by repeat constructor|by split]. Qed.

(** No word character stands before the token after a separator. *)
Lemma pass_gap prev g :
  word_at prev = false -> gap g -> word_at (pass prev g) = false.
Proof.
  intros Hprev (_ & _ & Hlast). unfold pass.
  by destruct (last g).
Qed.

(** The text after a token does not go on with a word character, a
    letter or an apostrophe. *)
Lemma gap_stops {A : Type} (cls : ascii -> bool) g
    (parts : list (A * list ascii)) (body : list ascii) :
  (forall c, filler c = true -> Char.is_word c = false -> cls c = false) ->
  gap g ->
  match parts with [] => True | _ :: _ => g <> [] end ->
  (parts = [] -> body = []) ->
  stops cls (g ++ body).
Proof.
  intros Hcls (Hg & Hhead & _) Hsep Hbody. destruct g as [|x g].
  - destruct parts; [|done]. rewrite Hbody by done. intros y. discriminate.
  - apply Forall_cons in Hg as [Hx _]. intros y [= <-]. by apply Hcls.
Qed.

Lemma stops_word c : filler c = true -> Char.is_word c = false ->
  Char.is_word c = false.
Proof. done. Qed.

Lemma stops_token c : filler c = true -> Char.is_word c = false ->
  token_char c = false.
Proof. intros Hc _. by apply filler_not_token. Qed.

Lemma stops_letter c : filler c = true -> Char.is_word c = false ->
  Char.is_letter c = false.
Proof. intros Hc _. by apply filler_not_letter. Qed.

(** A substitution whose pattern begins with a letter copies the
    separators. *)
Lemma sub_scan_gap ic re tpl g prev rest :
  (forall p x s, Char.is_letter x = false ->
                 match_here ic re p (x :: s) = None) ->
  gap g ->
  sub_scan ic re tpl 0 prev (g ++ rest)
  = g ++ sub_scan ic re tpl 0 (pass prev g) rest.
Proof.
  intros Hno Hg. apply gap_not_letters in Hg.
  apply sub_scan_copy. intros s1 x s2 ->. apply Hno.
  apply Forall_app in Hg as [_ Hg]. by apply Forall_cons in Hg as [Hx _].
Qed.

(** A substitution that acts token by token acts on a layout token by
    token. *)
Lemma sub_scan_parts {A : Type} ic re tpl (inp out : A -> list ascii)
    (good : A -> Prop) :
  (forall p x s, Char.is_letter x = false ->
                 match_here ic re p (x :: s) = None) ->
  (forall p, match_here ic re p [] = None) ->
  (forall a prev rest,
     good a -> word_at prev = false ->
     stops Char.is_word rest -> stops token_char rest ->
     sub_scan ic re tpl 0 prev (inp a ++ rest)
     = out a ++ sub_scan ic re tpl 0 (pass prev (inp a)) rest) ->
  forall (parts : list (A * list ascii)) prev,
    Forall (fun p => good p.1) parts ->
    Forall (fun p => gap p.2) parts ->
    separated parts -> word_at prev = false ->
    sub_scan ic re tpl 0 prev (flat_map (fun p => inp p.1 ++ p.2) parts)
    = flat_map (fun p => out p.1 ++ p.2) parts.
Proof.
  intros Hno Hend Htok parts.
  induction parts as [|[a g] parts IH]; intros prev Hgood Hgaps Hsep Hprev.
  - cbn [flat_map sub_scan]. by rewrite Hend.
  - apply Forall_cons in Hgood as [Ha Hgood].
    apply Forall_cons in Hgaps as [Hg Hgaps].
    destruct Hsep as [Hsep1 Hsep]. cbn [fst snd] in *.
    cbn [flat_map fst snd]. rewrite <- !app_assoc.
    set (body := flat_map (fun p => inp p.1 ++ p.2) parts).
    assert (parts = [] -> body = []) as Hbody by (by intros ->).
    rewrite Htok; [|done|done| |].
    2: { by apply (gap_stops Char.is_word g parts body stops_word). }
    2: { by apply (gap_stops token_char g parts body stops_token). }
    f_equal. rewrite sub_scan_gap by done. f_equal.
    destruct parts as [|p parts].
    + subst body. cbn [flat_map sub_scan]. by rewrite Hend.
    + subst body. apply IH; [done|done|done|].
      destruct Hg as (_ & _ & Hlast). unfold pass.
      destruct (last g) eqn:Hl; [done|].
      apply last_None in Hl. by subst g.
Qed.

(** The same with the separator at the start of the text. *)
Lemma sub_layout {A : Type} ic re tpl (inp out : A -> list ascii)
    (good : A -> Prop) :
  (forall p x s, Char.is_letter x = false ->
                 match_here ic re p (x :: s) = None) ->
  (forall p, match_here ic re p [] = None) ->
  (forall a prev rest,
     good a -> word_at prev = false ->
     stops Char.is_word rest -> stops token_char rest ->
     sub_scan ic re tpl 0 prev (inp a ++ rest)
     = out a ++ sub_scan ic re tpl 0 (pass prev (inp a)) rest) ->
  forall lead (parts : list (A * list ascii)),
    Forall (fun p => good p.1) parts -> gaps lead parts -> separated parts ->
    sub_scan ic re tpl 0 None
      (lead ++ flat_map (fun p => inp p.1 ++ p.2) parts)
    = lead ++ flat_map (fun p => out p.1 ++ p.2) parts.
Proof.
  intros Hno Hend Htok lead parts Hgood [Hlead Hgaps] Hsep.
  rewrite sub_scan_gap by done. f_equal.
  apply (sub_scan_parts ic re tpl inp out good); try done.
  by apply pass_gap.
Qed.

(** *** The words found in a layout of plain words *)

Lemma plain_word_letters (w : string) :
  plain_word w ->
  Forall (fun c => Char.is_letter c = true) (chars w) /\ chars w <> [].
Proof.
  intros [Hne Hw]. split; [done|]. intros Hnil. apply Hne.
  by rewrite <- (str_chars w), Hnil.
Qed.

Lemma findall_letters_gap g prev rest :
  Forall (fun c => Char.is_letter c = false) g ->
  findall_scan letters_pattern 0 prev (g ++ rest)
  = findall_scan letters_pattern 0 (pass prev g) rest.
Proof.
  intros Hg. apply findall_scan_pass. intros s1 x s2 ->.
  apply match_letters_no_letter. intros y [= <-].
  apply Forall_app in Hg as [_ Hg]. by apply Forall_cons in Hg as [? _].
Qed.

Lemma findall_bounded_gap g prev rest :
  Forall (fun c => Char.is_letter c = false) g ->
  findall_scan bounded_word_pattern 0 prev (g ++ rest)
  = findall_scan bounded_word_pattern 0 (pass prev g) rest.
Proof.
  intros Hg. apply findall_scan_pass. intros s1 x s2 ->.
  apply match_bounded_no_letter. intros y [= <-].
  apply Forall_app in Hg as [_ Hg]. by apply Forall_cons in Hg as [? _].
Qed.

(** [[a-zA-Z]+] finds the words of a layout whose separators have no
    letter. *)
Lemma findall_letters_parts (parts : list (string * list ascii)) : forall prev,
  Forall (fun p => plain_word p.1) parts ->
  Forall (fun p => Forall (fun c => Char.is_letter c = false) p.2) parts ->
  separated parts ->
  findall_scan letters_pattern 0 prev
    (flat_map (fun p => chars p.1 ++ p.2) parts)
  = map (fun p => chars p.1) parts.
Proof.
  induction parts as [|[w g] parts IH]; intros prev Hwords Hgaps Hsep.
  - cbn [flat_map map findall_scan].
    by rewrite match_letters_no_letter by (intros y; discriminate).
  - apply Forall_cons in Hwords as [Hw Hwords].
    apply Forall_cons in Hgaps as [Hg Hgaps].
    destruct Hsep as [Hsep1 Hsep]. cbn [fst snd] in *.
    destruct (plain_word_letters w Hw) as [Hl Hne].
    cbn [flat_map map fst snd]. rewrite <- app_assoc.
    rewrite findall_letters_word; [|done|done|].
    2: { destruct g as [|x g].
         - destruct parts; [|done]. intros y. discriminate.
         - apply Forall_cons in Hg as [Hx _]. by intros y [= <-]. }
    f_equal. rewrite findall_letters_gap by done. by apply IH.
Qed.

(** [\b[a-zA-Z]+\b] finds the words of a layout. *)
Lemma findall_bounded_parts (parts : list (string * list ascii)) : forall prev,
  Forall (fun p => plain_word p.1) parts ->
  Forall (fun p => gap p.2) parts ->
  separated parts -> word_at prev = false ->
  findall_scan bounded_word_pattern 0 prev
    (flat_map (fun p => chars p.1 ++ p.2) parts)
  = map (fun p => chars p.1) parts.
Proof.
  induction parts as [|[w g] parts IH]; intros prev Hwords Hgaps Hsep Hprev.
  - cbn [flat_map map]. apply findall_bounded_nil.
  - apply Forall_cons in Hwords as [Hw Hwords].
    apply Forall_cons in Hgaps as [Hg Hgaps].
    destruct Hsep as [Hsep1 Hsep]. cbn [fst snd] in *.
    destruct (plain_word_letters w Hw) as [Hl Hne].
    cbn [flat_map map fst snd]. rewrite <- app_assoc.
    set (body := flat_map (fun p => chars p.1 ++ p.2) parts).
    assert (parts = [] -> body = []) as Hbody by (by intros ->).
    destruct (chars w) as [|x run] eqn:Hchars; [done|].
    apply Forall_cons in Hl as [Hx Hrun].
    pose proof (gap_stops Char.is_word g parts body stops_word Hg Hsep1 Hbody)
      as Hsw.
    pose proof (gap_stops Char.is_letter g parts body stops_letter Hg Hsep1
                  Hbody) as Hsl.
    cbn [app]. rewrite findall_bounded_free; [|done|done|done|done|].
    2: { destruct (g ++ body) as [|y rest]; [done|]. cbn [head word_at].
         by apply Hsw. }
    f_equal.
    rewrite findall_bounded_gap by by apply gap_not_letters.
    destruct parts as [|p parts].
    + subst body. cbn [flat_map map]. apply findall_bounded_nil.
    + subst body. apply IH; [done|done|done|].
      destruct Hg as (_ & _ & Hlast). unfold pass at 1.
      destruct (last g) eqn:Hlg; [done|].
      apply last_None in Hlg. by subst g.
Qed.

Lemma layout_no_apostrophe lead (parts : list (string * list ascii)) :
  Forall (fun p => plain_word p.1) parts -> gaps lead parts ->
  Forall (fun c => c <> "'"%char) (chars (layout lead parts)).
Proof.
  intros Hwords [[Hlead _] Hgaps]. unfold layout. rewrite chars_str.
  apply Forall_app. split.
  - eapply Forall_impl; [exact Hlead|]. apply filler_not_apostrophe.
  - induction parts as [|[w g] parts IH]; [constructor|].
    apply Forall_cons in Hwords as [Hw Hwords].
    apply Forall_cons in Hgaps as [[Hg _] Hgaps]. cbn [fst snd] in *.
    cbn [flat_map fst snd]. repeat (apply Forall_app; split).
    + destruct (plain_word_letters w Hw) as [Hl _].
      eapply Forall_impl; [exact Hl|]. apply letter_not_apostrophe.
    + eapply Forall_impl; [exact Hg|]. apply filler_not_apostrophe.
    + by apply IH.
Qed.

Lemma map_chars_str (ws : list string) : map str (map chars ws) = ws.
Proof.
  induction ws as [|w ws IH]; [done|]. simpl. by rewrite str_chars, IH.
Qed.

Lemma words_of_parts (parts : list (string * list ascii)) :
  map str (map (fun p => chars p.1) parts) = parts.*1.
Proof.
  rewrite <- (map_chars_str parts.*1). f_equal.
  induction parts as [|p parts IH]; [done|]. simpl. by rewrite IH.
Qed.

Lemma findall_bounded_layout lead (parts : list (string * list ascii)) :
  Forall (fun p => plain_word p.1) parts -> gaps lead parts ->
  separated parts ->
  findall bounded_word_pattern (layout lead parts) = parts.*1.
Proof.
  intros Hwords [Hlead Hgaps] Hsep. unfold findall, layout.
  rewrite chars_str, findall_bounded_gap by by apply gap_not_letters.
  rewrite findall_bounded_parts; [apply words_of_parts|done|done|done|].
  by apply pass_gap.
Qed.

End layouts.

(** ** The three methods on a layout of plain words *)

Section methods_on_layouts.
Import Re.
Local Open Scope list_scope.
Implicit Types (s m t g lead cur a b : list ascii) (prev : option ascii)
  (w : string) (parts : list (string * list ascii)).

(** *** Method 1 *)

Lemma respell_words parts : (respell parts).*1 = flat_map expand_word parts.*1.
Proof.
  unfold respell. induction parts as [|[w g] parts IH]; [done|].
  cbn [flat_map fmap list_fmap fst]. rewrite fmap_app, IH.
  unfold expand_word. by destruct (is_cannot w).
Qed.

Lemma respell_chars parts :
  flat_map (fun p => replaced (chars "cannot") (chars "can not") (chars p.1)
                     ++ p.2) parts
  = flat_map (fun p => chars p.1 ++ p.2) (respell parts).
Proof.
  unfold respell. induction parts as [|[w g] parts IH]; [done|].
  cbn [flat_map fst snd]. rewrite flat_map_app, IH. f_equal.
  rewrite <- (chars_str (replaced _ _ _)), replaced_cannot.
  destruct (is_cannot w); cbn [flat_map fst snd]; by rewrite app_nil_r.
Qed.

Lemma respell_plain parts :
  Forall (fun p => plain_word p.1) parts ->
  Forall (fun p => plain_word p.1) (respell parts).
Proof.
  unfold respell. induction 1 as [|[w g] parts Hw _ IH]; [constructor|].
  cbn [flat_map fst snd]. apply Forall_app. split; [|done].
  assert (plain_word "can" /\ plain_word "not") as [Hcan Hnot]
    by (split; (split; [done|]); vm_compute; repeat constructor).
  destruct (is_cannot w); [|by constructor].
  constructor; [done|]. by constructor.
Qed.

Lemma respell_gaps lead parts : gaps lead parts -> gaps lead (respell parts).
Proof.
  intros [Hlead Hgaps]. split; [done|]. unfold respell.
  induction Hgaps as [|[w g] parts Hg _ IH]; [constructor|].
  cbn [flat_map fst snd]. apply Forall_app. split; [|done].
  destruct (is_cannot w); [|by constructor].
  constructor; [apply gap_space|]. by constructor.
Qed.

Lemma respell_separated parts : separated parts -> separated (respell parts).
Proof.
  unfold separated, respell.
  induction parts as [|[w g] parts IH]; [done|].
  intros [Hsep1 Hsep]. specialize (IH Hsep). cbn [flat_map fst snd].
  assert (match parts with
          | [] => True
          | _ :: _ => exists q qs, flat_map
              (fun p => if is_cannot p.1
                        then [("can"%string, [" "%char]); ("not"%string, p.2)]
                        else [p]) parts = q :: qs
          end) as Hnext.
  { destruct parts as [|[w2 g2] parts]; [done|]. cbn [flat_map fst snd].
    destruct (is_cannot w2); eexists _, _; reflexivity. }
  destruct parts as [|p parts].
  - cbn [flat_map]. rewrite app_nil_r.
    destruct (is_cannot w); cbn [between snd]; repeat split; done.
  - destruct Hnext as (q & qs & Hq). rewrite Hq in *.
    destruct (is_cannot w); cbn [app between snd].
    + split; [done|]. split; [exact Hsep1|exact IH].
    + split; [exact Hsep1|exact IH].
Qed.

(** The entry "cannot" on a layout. *)
Lemma expand_one_cannot_layout lead parts :
  Forall (fun p => plain_word p.1) parts -> gaps lead parts ->
  separated parts ->
  expand_one (layout lead parts) ("cannot"%string, ["can"; "not"]%string)
  = layout lead (respell parts).
Proof.
  intros Hwords Hgaps Hsep. unfold expand_one, sub, layout.
  rewrite chars_str.
  change (contraction_pattern ("cannot"%string, ["can"; "not"]%string).1)
    with (Bnd :: map Lit (chars "cannot") ++ [Bnd]).
  change (chars (join " " ("cannot"%string, ["can"; "not"]%string).2))
    with (chars "can not").
  assert (Forall (fun c => Char.is_lower_az c = true) (chars "cannot")) as Hk
    by (vm_compute; repeat constructor).
  assert (chars "cannot" <> []) as Hne by done.
  rewrite (sub_layout true _ _ (fun w => chars w)
             (fun w => replaced (chars "cannot") (chars "can not") (chars w))
             plain_word); try done.
  - by rewrite respell_chars.
  - apply (no_match_at_other _ Hk Hne).
  - apply (no_match_at_end _ Hk Hne).
  - intros w prev rest Hw Hprev Hrest _.
    destruct (plain_word_letters w Hw) as [Hl Hwne].
    by apply sub_key_word.
Qed.

Lemma no_apostrophe_layout lead parts :
  Forall (fun p => plain_word p.1) parts -> gaps lead parts ->
  Forall (fun x => lit_match true "'"%char x = false)
         (chars (layout lead parts)).
Proof.
  intros Hwords Hgaps.
  eapply Forall_impl; [exact (layout_no_apostrophe lead parts Hwords Hgaps)|].
  intros c Hc. destruct c as [[] [] [] [] [] [] [] []];
    vm_compute in Hc |- *; congruence.
Qed.

(** Step 1 on a layout of plain words: every word that spells "cannot"
    becomes the two words "can" and "not"; nothing else changes. *)
Lemma expand_standard_layout lead parts :
  Forall (fun p => plain_word p.1) parts -> gaps lead parts ->
  separated parts ->
  expand_standard (STANDARD_CONTRACTIONS initial_state) (layout lead parts)
  = layout lead (respell parts).
Proof.
  intros Hwords Hgaps Hsep.
  change (STANDARD_CONTRACTIONS initial_state)
    with (take 38 (STANDARD_CONTRACTIONS initial_state)
          ++ ("cannot"%string, ["can"; "not"]%string)
             :: drop 39 (STANDARD_CONTRACTIONS initial_state)).
  unfold expand_standard. rewrite foldl_app. cbn [foldl].
  fold (expand_standard (take 38 (STANDARD_CONTRACTIONS initial_state))
          (layout lead parts)).
  rewrite expand_standard_apostrophe;
    [|vm_compute; reflexivity|by apply no_apostrophe_layout].
  rewrite expand_one_cannot_layout by done.
  apply expand_standard_apostrophe; [vm_compute; reflexivity|].
  apply no_apostrophe_layout; [by apply respell_plain|by apply respell_gaps].
Qed.

(** The words of method 1. *)
Lemma method1_words_layout lead parts :
  Forall (fun p => plain_word p.1) parts -> gaps lead parts ->
  separated parts ->
  (extract_words_with_smart_contractions (layout lead parts) initial_state).1
  = map str_lower (flat_map expand_word parts.*1).
Proof.
  intros Hwords Hgaps Hsep.
  unfold extract_words_with_smart_contractions, expand_contractions.
  cbn [fst]. rewrite expand_standard_layout by done.
  pose proof (respell_plain parts Hwords) as Hwords'.
  pose proof (respell_gaps lead parts Hgaps) as Hgaps'.
  pose proof (respell_separated parts Hsep) as Hsep'.
  assert (strip_possessive (layout lead (respell parts))
          = layout lead (respell parts)) as ->.
  { unfold strip_possessive. apply (sub_missing_lit false "'"%char).
    - unfold possessive_pattern. simpl. auto.
    - eapply Forall_impl;
        [exact (layout_no_apostrophe lead _ Hwords' Hgaps')|].
      intros c Hc. unfold lit_match. by apply Ascii.eqb_neq. }
  by rewrite findall_bounded_layout, respell_words.
Qed.

(** *** Method 2 *)

(** [strip] keeps a part of the string. *)
Lemma lstrip_chars_suffix set s : exists p, s = p ++ lstrip_chars set s.
Proof.
  induction s as [|x s [p IH]]; [by exists []|]. cbn [lstrip_chars].
  destruct (existsb (Ascii.eqb x) set); [|by exists []].
  exists (x :: p). simpl. by f_equal.
Qed.

Lemma lstrip_chars_Forall (P : ascii -> Prop) set s :
  Forall P s -> Forall P (lstrip_chars set s).
Proof.
  intros Hs. destruct (lstrip_chars_suffix set s) as [p Hp].
  rewrite Hp in Hs. by apply Forall_app in Hs as [_ ?].
Qed.

Lemma strip_Forall (P : ascii -> Prop) set (s : string) :
  Forall P (chars s) -> Forall P (chars (strip set s)).
Proof.
  intros Hs. unfold strip. rewrite chars_str.
  by apply List.Forall_rev, lstrip_chars_Forall, List.Forall_rev,
    lstrip_chars_Forall.
Qed.

(** Stripping stops at a letter. *)
Lemma lstrip_chars_before a x s :
  Char.is_letter x = true ->
  exists a',
    lstrip_chars (chars STRIP_CHARS) (a ++ x :: s) = a' ++ x :: s
    /\ forall P : ascii -> Prop, Forall P a -> Forall P a'.
Proof.
  intros Hx. induction a as [|y a (a' & Heq & Hsub)].
  - exists []. split; [|done]. cbn [app lstrip_chars].
    by rewrite letter_not_stripped.
  - cbn [app lstrip_chars].
    destruct (existsb (Ascii.eqb y) (chars STRIP_CHARS)).
    + exists a'. split; [done|]. intros P HP.
      apply Forall_cons in HP as [_ HP]. by apply Hsub.
    + by exists (y :: a).
Qed.

Lemma strip_around a m b :
  letters m -> m <> [] ->
  exists a' b',
    chars (strip STRIP_CHARS (str (a ++ m ++ b))) = a' ++ m ++ b'
    /\ (forall P : ascii -> Prop, Forall P a -> Forall P a')
    /\ (forall P : ascii -> Prop, Forall P b -> Forall P b').
Proof.
  intros Hm Hne. unfold strip. rewrite !chars_str.
  destruct m as [|x m]; [done|]. apply Forall_cons in Hm as [Hx Hm].
  change ((x :: m) ++ b) with (x :: m ++ b).
  destruct (lstrip_chars_before a x (m ++ b) Hx) as (a' & -> & Ha').
  destruct (exists_last (l := x :: m)) as (m0 & z & Hlast); [done|].
  assert (Char.is_letter z = true) as Hz.
  { assert (letters (x :: m)) as Hall by by constructor.
    rewrite Hlast in Hall. apply Forall_app in Hall as [_ Hall].
    by apply Forall_cons in Hall as [? _]. }
  change (a' ++ x :: m ++ b) with (a' ++ (x :: m) ++ b).
  rewrite Hlast, !rev_app_distr. cbn [rev app]. rewrite <- !app_assoc.
  cbn [app].
  destruct (lstrip_chars_before (rev b) z (rev m0 ++ rev a') Hz)
    as (b' & -> & Hb').
  exists a', (rev b'). rewrite !rev_app_distr. cbn [rev app].
  rewrite !rev_app_distr, !rev_involutive. cbn [rev app].
  rewrite <- !app_assoc. cbn [app]. split; [done|]. split; [done|].
  intros P HP. apply List.Forall_rev, Hb'. by apply List.Forall_rev.
Qed.

(** A token with one word, and nothing else alphabetic around it, gives
    that word; a token with nothing alphabetic gives nothing. *)
Lemma method2_token_around a m b :
  Forall (fun c => Char.isalpha c = false) a ->
  Forall (fun c => Char.isalpha c = false) b ->
  letters m -> m <> [] ->
  method2_token (str (a ++ m ++ b)) = [str_lower (str m)].
Proof.
  intros Ha Hb Hm Hne. unfold method2_token.
  destruct (strip_around a m b Hm Hne) as (a' & b' & Hc & Ha' & Hb').
  rewrite Hc.
  assert (truthy (strip STRIP_CHARS (str (a ++ m ++ b))) = true) as ->.
  { rewrite <- (str_chars (strip _ _)), Hc.
    destruct a'; [|done]. by destruct m. }
  assert (existsb Char.isalpha (a' ++ m ++ b') = true) as ->.
  { rewrite !existsb_app. destruct m as [|x m]; [done|].
    apply Forall_cons in Hm as [Hx _]. cbn [existsb].
    rewrite (letter_isalpha x Hx). by rewrite orb_true_r. }
  assert (filter (fun c => Char.isalpha c = true) (a' ++ m ++ b') = m) as ->.
  { rewrite !filter_app.
    assert (forall l, Forall (fun c => Char.isalpha c = false) l ->
                      filter (fun c => Char.isalpha c = true) l = []) as Hnone.
    { induction 1 as [|y l Hy _ IH]; [done|].
      by rewrite filter_cons_False by congruence. }
    rewrite (Hnone a') by by apply Ha'.
    rewrite (Hnone b') by by apply Hb'.
    rewrite app_nil_r. cbn [app]. clear Hne Hc.
    induction Hm as [|y l Hy _ IH]; [done|].
    rewrite filter_cons_True by by apply letter_isalpha. by rewrite IH. }
  cbn [andb]. destruct m as [|x m]; [done|]. reflexivity.
Qed.

Lemma method2_token_none a :
  Forall (fun c => Char.isalpha c = false) a -> method2_token (str a) = [].
Proof.
  intros Ha. unfold method2_token.
  assert (existsb Char.isalpha (chars (strip STRIP_CHARS (str a))) = false)
    as ->; [|by rewrite andb_false_r].
  apply not_true_iff_false. intros (c & Hc & Halpha)%existsb_exists.
  assert (Forall (fun c => Char.isalpha c = false)
            (chars (strip STRIP_CHARS (str a)))) as Hall
    by (apply strip_Forall; by rewrite chars_str).
  rewrite Forall_forall in Hall.
  apply list_elem_of_In in Hc. specialize (Hall c Hc). congruence.
Qed.

Lemma method2_scan_end cur :
  Forall (fun c => Char.isalpha c = false) cur -> method2_scan cur [] = [].
Proof.
  intros Hcur. unfold method2_scan. cbn [split_scan].
  destruct cur as [|x cur]; [done|]. cbn [map flat_map].
  by rewrite method2_token_none.
Qed.

(** Separators read while the current token has no word. *)
Lemma method2_scan_gap g : forall cur,
  Forall (fun c => Char.isalpha c = false) cur ->
  Forall (fun c => Char.isalpha c = false) g ->
  exists cur',
    Forall (fun c => Char.isalpha c = false) cur'
    /\ forall rest, method2_scan cur (g ++ rest) = method2_scan cur' rest.
Proof.
  induction g as [|x g IH]; intros cur Hcur Hg.
  - by exists cur.
  - apply Forall_cons in Hg as [Hx Hg]. destruct (Char.isspace x) eqn:Hsp.
    + destruct (IH [] ltac:(constructor) Hg) as (cur' & Hcur' & Heq).
      exists cur'. split; [done|]. intros rest. rewrite <- Heq.
      unfold method2_scan. cbn [app split_scan]. rewrite Hsp.
      destruct cur as [|y cur]; [done|]. cbn [map flat_map].
      by rewrite method2_token_none.
    + destruct (IH (cur ++ [x])) as (cur' & Hcur' & Heq); [|done|].
      { apply Forall_app. split; [done|]. by constructor. }
      exists cur'. split; [done|]. intros rest. rewrite <- Heq.
      unfold method2_scan. cbn [app split_scan]. by rewrite Hsp.
Qed.

(** Separators read after a word, up to the end of the text. *)
Lemma method2_scan_last g : forall a m b,
  Forall (fun c => Char.isalpha c = false) a ->
  Forall (fun c => Char.isalpha c = false) b ->
  letters m -> m <> [] ->
  Forall (fun c => Char.isalpha c = false) g ->
  method2_scan (a ++ m ++ b) g = [str_lower (str m)].
Proof.
  induction g as [|x g IH]; intros a m b Ha Hb Hm Hne Hg.
  - unfold method2_scan. cbn [split_scan].
    destruct (a ++ m ++ b) as [|y l] eqn:Heq.
    { destruct a; [|done]. by destruct m. }
    rewrite <- Heq. cbn [map flat_map]. rewrite method2_token_around by done.
    by rewrite app_nil_r.
  - apply Forall_cons in Hg as [Hx Hg]. destruct (Char.isspace x) eqn:Hsp.
    + destruct (method2_scan_gap g [] ltac:(constructor) Hg)
        as (cur' & Hcur' & Heq).
      specialize (Heq []). rewrite app_nil_r in Heq.
      unfold method2_scan in *. cbn [split_scan]. rewrite Hsp.
      destruct (a ++ m ++ b) as [|y l] eqn:Hcur.
      { destruct a; [|done]. by destruct m. }
      rewrite <- Hcur. cbn [map flat_map].
      rewrite method2_token_around by done. rewrite Heq.
      fold (method2_scan cur' []). by rewrite method2_scan_end.
    + unfold method2_scan. cbn [split_scan]. rewrite Hsp.
      rewrite <- !app_assoc. apply (IH a m (b ++ [x])); try done.
      apply Forall_app. split; [done|]. by constructor.
Qed.

(** Separators with white space read after a word. *)
Lemma method2_scan_break g : forall a m b,
  Forall (fun c => Char.isalpha c = false) a ->
  Forall (fun c => Char.isalpha c = false) b ->
  letters m -> m <> [] ->
  Forall (fun c => Char.isalpha c = false) g ->
  existsb Char.isspace g = true ->
  exists cur',
    Forall (fun c => Char.isalpha c = false) cur'
    /\ forall rest,
         method2_scan (a ++ m ++ b) (g ++ rest)
         = str_lower (str m) :: method2_scan cur' rest.
Proof.
  induction g as [|x g IH]; intros a m b Ha Hb Hm Hne Hg Hbreak; [done|].
  apply Forall_cons in Hg as [Hx Hg]. destruct (Char.isspace x) eqn:Hsp.
  - destruct (method2_scan_gap g [] ltac:(constructor) Hg)
      as (cur' & Hcur' & Heq).
    exists cur'. split; [done|]. intros rest. rewrite <- Heq.
    unfold method2_scan. cbn [app split_scan]. rewrite Hsp.
    destruct (a ++ m ++ b) as [|y l] eqn:Hcur.
    { destruct a; [|done]. by destruct m. }
    rewrite <- Hcur. cbn [map flat_map].
    by rewrite method2_token_around by done.
  - cbn [existsb] in Hbreak. rewrite Hsp in Hbreak. cbn [orb] in Hbreak.
    destruct (IH a m (b ++ [x])) as (cur' & Hcur' & Heq); try done.
    { apply Forall_app. split; [done|]. by constructor. }
    exists cur'. split; [done|]. intros rest. rewrite <- Heq.
    unfold method2_scan. cbn [app split_scan]. rewrite Hsp.
    by rewrite <- !app_assoc.
Qed.

Lemma method2_scan_parts parts : forall cur,
  Forall (fun c => Char.isalpha c = false) cur ->
  Forall (fun p => plain_word p.1) parts ->
  Forall (fun p => Forall (fun c => Char.isalpha c = false) p.2) parts ->
  spaced parts ->
  method2_scan cur (flat_map (fun p => chars p.1 ++ p.2) parts)
  = map str_lower parts.*1.
Proof.
  induction parts as [|[w g] parts IH]; intros cur Hcur Hwords Hgaps Hsp.
  - by apply method2_scan_end.
  - apply Forall_cons in Hwords as [Hw Hwords].
    apply Forall_cons in Hgaps as [Hg Hgaps].
    destruct Hsp as [Hsp1 Hsp]. cbn [fst snd] in *.
    destruct (plain_word_letters w Hw) as [Hl Hne].
    cbn [flat_map fmap list_fmap map fst snd]. rewrite <- app_assoc.
    unfold method2_scan at 1. rewrite split_scan_word by done.
    fold (method2_scan (cur ++ chars w)
            (g ++ flat_map (fun p => chars p.1 ++ p.2) parts)).
    replace (cur ++ chars w) with (cur ++ chars w ++ [])
      by (by rewrite app_nil_r).
    destruct parts as [|p parts].
    + cbn [flat_map map]. rewrite (app_nil_r g).
      rewrite method2_scan_last by (done || constructor).
      by rewrite str_chars.
    + destruct (method2_scan_break g cur (chars w) [] Hcur
                  ltac:(constructor) Hl Hne Hg Hsp1)
        as (cur' & Hcur' & Heq).
      rewrite Heq, str_chars. f_equal. by apply IH.
Qed.

Lemma method2_words_layout lead parts :
  Forall (fun p => plain_word p.1) parts -> gaps lead parts ->
  spaced parts ->
  Result.word_list (count_words_method2 (layout lead parts))
  = map str_lower parts.*1.
Proof.
  intros Hwords [Hlead Hgaps] Hsp.
  unfold count_words_method2. cbn [tally Result.word_list].
  unfold split, layout. rewrite chars_str.
  destruct (method2_scan_gap lead [] ltac:(constructor)
              (gap_not_alpha lead Hlead)) as (cur' & Hcur' & Heq).
  fold (method2_scan [] (lead ++ flat_map (fun p => chars p.1 ++ p.2) parts)).
  rewrite Heq. apply method2_scan_parts; [done|done| |done].
  eapply Forall_impl; [exact Hgaps|]. intros p. apply gap_not_alpha.
Qed.

(** *** Method 3 *)

Lemma space_not_digit c : Char.isspace c = true -> Char.is_digit c = false.
Proof. by_cases c. Qed.

Lemma without_gap_digits_words parts :
  (without_gap_digits parts).*1 = parts.*1.
Proof.
  unfold without_gap_digits. induction parts as [|p parts IH]; [done|].
  cbn [map fmap list_fmap fst]. f_equal. exact IH.
Qed.

Lemma without_gap_digits_separated parts :
  spaced parts -> separated (without_gap_digits parts).
Proof.
  unfold spaced, separated, without_gap_digits.
  induction parts as [|[w g] parts IH]; [done|].
  intros [Hsp1 Hsp]. cbn [map between fst snd]. split; [|by apply IH].
  destruct parts as [|p parts]; [done|]. cbn [map].
  apply existsb_exists in Hsp1 as (c & Hc & Hspace).
  intros Hnil.
  assert (c ∈ filter (fun c => Char.is_digit c = false) g) as Hin.
  { apply list_elem_of_filter. split; [by apply space_not_digit|].
    by apply list_elem_of_In. }
  rewrite Hnil in Hin. by apply not_elem_of_nil in Hin.
Qed.

Lemma filter_digits_parts parts :
  Forall (fun p => plain_word p.1) parts ->
  filter (fun c => Char.is_digit c = false)
         (flat_map (fun p => chars p.1 ++ p.2) parts)
  = flat_map (fun p => chars p.1 ++ p.2) (without_gap_digits parts).
Proof.
  unfold without_gap_digits.
  induction 1 as [|[w g] parts Hw _ IH]; [done|].
  cbn [flat_map map fst snd]. rewrite !filter_app, IH.
  by rewrite (filter_letters (chars w)) by by apply plain_word_letters.
Qed.

Lemma method3_words_layout lead parts :
  Forall (fun p => plain_word p.1) parts -> gaps lead parts ->
  spaced parts ->
  Result.word_list (count_words_method3 (layout lead parts))
  = map str_lower parts.*1.
Proof.
  intros Hwords [Hlead Hgaps] Hsp. rewrite method3_words. f_equal.
  unfold findall, layout. rewrite !chars_str.
  rewrite filter_app, filter_digits_parts by done.
  assert (forall g, gap g ->
            Forall (fun c => Char.is_letter c = false)
                   (filter (fun c => Char.is_digit c = false) g)) as Hfilter.
  { intros g Hg. apply Forall_forall. intros c Hc.
    apply list_elem_of_filter in Hc as [_ Hc].
    pose proof (gap_not_letters g Hg) as Hall.
    rewrite Forall_forall in Hall. by apply Hall. }
  rewrite findall_letters_gap by by apply Hfilter.
  rewrite findall_letters_parts.
  - by rewrite words_of_parts, without_gap_digits_words.
  - unfold without_gap_digits. by apply Forall_fmap.
  - unfold without_gap_digits. apply Forall_fmap.
    eapply Forall_impl; [exact Hgaps|]. intros p Hp. by apply Hfilter.
  - by apply without_gap_digits_separated.
Qed.

Lemma spaced_separated {A : Type} (parts : list (A * list ascii)) :
  spaced parts -> separated parts.
Proof.
  unfold spaced, separated. induction parts as [|p parts IH]; [done|].
  intros [H1 H]. split; [|by apply IH].
  destruct parts; [done|]. intros Heq. by rewrite Heq in H1.
Qed.

End methods_on_layouts.

(** ** The entry "cannot" on a layout *)




(** ** Layouts of plain words and possessives *)

Section token_layouts.
Import Re.
Local Open Scope list_scope.
Implicit Types (s m t g lead : list ascii) (prev : option ascii)
  (tok : token) (parts : list (token * list ascii)).

Lemma written_chars tok : chars (written tok) = chars (base tok) ++ suffix tok.
Proof.
  destruct tok as [w|w]; simpl; [by rewrite app_nil_r|apply chars_app].
Qed.

Lemma as_written_chars lead parts :
  chars (layout lead (as_written parts))
  = lead ++ flat_map (fun p => (chars (base p.1) ++ suffix p.1) ++ p.2) parts.
Proof.
  unfold layout, as_written. rewrite chars_str. f_equal.
  induction parts as [|[tok g] parts IH]; [done|].
  cbn [map flat_map fst snd]. by rewrite IH, written_chars.
Qed.

Lemma as_words_chars lead parts :
  chars (layout lead (as_words parts))
  = lead ++ flat_map (fun p => chars (base p.1) ++ p.2) parts.
Proof.
  unfold layout, as_words. rewrite chars_str. f_equal.
  induction parts as [|[tok g] parts IH]; [done|].
  cbn [map flat_map fst snd]. by rewrite IH.
Qed.

(** *** Step 1: a key that spells no token changes nothing *)

Lemma no_key_at_other (k : list ascii) prev x s :
  well_shaped_key k = true -> Char.is_letter x = false ->
  match_here true (Bnd :: map Lit k ++ [Bnd]) prev (x :: s) = None.
Proof.
  intros Hk Hx. rewrite match_here_Bnd.
  destruct (boundary prev (x :: s)); [|done].
  destruct (k_head k Hk) as (c & Hc & Hl).
  destruct k as [|c' k']; [done|].
  injection Hc as ->. cbn [map app]. rewrite match_here_Lit.
  destruct (lit_match true c x) eqn:Hcx; [|done].
  apply lit_match_lower in Hcx.
  rewrite (lower_of_lower_az c Hl) in Hcx. rewrite <- Hcx in Hl.
  apply lower_letter_inv in Hl. congruence.
Qed.

Lemma sub_key_layout (k : list ascii) (tpl : list repl_item) lead parts :
  well_shaped_key k = true ->
  Forall (fun p => spells_no_token k p.1) parts ->
  gaps lead parts -> separated parts ->
  sub_scan true (Bnd :: map Lit k ++ [Bnd]) tpl 0 None
    (chars (layout lead (as_written parts)))
  = chars (layout lead (as_written parts)).
Proof.
  intros Hk Htoks Hgaps Hsep. rewrite as_written_chars.
  apply (sub_layout true _ tpl
           (fun tok => chars (base tok) ++ suffix tok)
           (fun tok => chars (base tok) ++ suffix tok)
           (spells_no_token k)); try done.
  - intros p x s Hx. by apply no_key_at_other.
  - apply (no_match_at_text_end k Hk).
  - intros tok prev rest (Hw & Hnw & Hnws) _ _ Hrest.
    destruct (plain_word_letters _ Hw) as [Hl Hne].
    rewrite written_chars in Hnws.
    by apply (sub_copies_token k tpl Hk prev _ _ rest Hl Hne
                (suffix_cases tok)).
Qed.

Lemma expand_table_layout (table : list (string * list string)) lead parts :
  (forall entry, In entry table ->
     well_shaped_key (chars entry.1) = true
     /\ Forall (fun p => spells_no_token (chars entry.1) p.1) parts) ->
  gaps lead parts -> separated parts ->
  expand_standard table (layout lead (as_written parts))
  = layout lead (as_written parts).
Proof.
  intros Htable Hgaps Hsep. unfold expand_standard.
  induction table as [|entry table IH]; [done|].
  cbn [foldl].
  assert (expand_one (layout lead (as_written parts)) entry
          = layout lead (as_written parts)) as ->.
  { destruct (Htable entry) as [Hshape Hspell]; [by left|].
    unfold expand_one, sub.
    change (contraction_pattern entry.1)
      with (Bnd :: map Lit (chars entry.1) ++ [Bnd]).
    rewrite sub_key_layout by done. apply str_chars. }
  apply IH. intros e He. apply Htable. by right.
Qed.

(** Step 1 leaves a layout alone when none of its tokens is a key. *)
Lemma expand_standard_tokens_layout lead parts :
  Forall (fun p => not_a_contraction p.1) parts ->
  gaps lead parts -> separated parts ->
  expand_standard (STANDARD_CONTRACTIONS initial_state)
    (layout lead (as_written parts))
  = layout lead (as_written parts).
Proof.
  intros Htoks Hgaps Hsep. apply expand_table_layout; [|done|done].
  intros entry Hin. split.
  - pose proof table_well_shaped as Hshape.
    rewrite Forall_forall in Hshape. apply Hshape. by apply list_elem_of_In.
  - eapply Forall_impl; [exact Htoks|]. intros [tok g] Htok.
    by apply not_a_contraction_spells.
Qed.

(** *** Step 2: the word stays, the ['s] goes *)

Lemma strip_token_rest prev tok rest :
  plain_word (base tok) -> word_at prev = false ->
  stops Char.is_word rest -> stops token_char rest ->
  sub_scan false possessive_pattern [Ref1] 0 prev
    ((chars (base tok) ++ suffix tok) ++ rest)
  = chars (base tok)
    ++ sub_scan false possessive_pattern [Ref1] 0
         (pass prev (chars (base tok) ++ suffix tok)) rest.
Proof.
  intros Hw Hprev Hsw Hst. destruct (plain_word_letters _ Hw) as [Hl Hne].
  destruct tok as [w|w]; cbn [suffix base] in *.
  - rewrite app_nil_r. apply sub_scan_copy. intros s1 x s2 Hsplit.
    by apply (no_possessive_in_word prev (chars w)).
  - destruct (chars w) as [|x run]; [done|].
    apply Forall_cons in Hl as [Hx Hrun].
    change (((x :: run) ++ ["'"; "s"]%char) ++ rest)
      with (x :: (run ++ ["'"; "s"]%char) ++ rest).
    rewrite (sub_scan_match false possessive_pattern [Ref1] prev x
               (run ++ ["'"; "s"]%char) rest
               (Found (x :: run ++ ["'"; "s"]%char) (x :: run) rest)).
    + cbn [expand_repl flat_map group1]. rewrite app_nil_r.
      cbn [app]. by rewrite pass_cons.
    + rewrite <- app_assoc. by apply match_possessive.
    + reflexivity.
Qed.

Lemma strip_possessive_layout lead parts :
  Forall (fun p => plain_word (base p.1)) parts ->
  gaps lead parts -> separated parts ->
  strip_possessive (layout lead (as_written parts))
  = layout lead (as_words parts).
Proof.
  intros Htoks Hgaps Hsep. unfold strip_possessive, sub.
  rewrite <- (str_chars (layout lead (as_words parts))). f_equal.
  rewrite as_written_chars, as_words_chars.
  apply (sub_layout false _ _
           (fun tok => chars (base tok) ++ suffix tok)
           (fun tok => chars (base tok))
           (fun tok => plain_word (base tok))); try done.
  - intros p x s Hx. by apply no_possessive_at_other.
  - apply no_possessive_at_end.
  - intros tok prev rest Hw Hprev Hsw Hst. by apply strip_token_rest.
Qed.

Lemma as_words_plain parts :
  Forall (fun p => plain_word (base p.1)) parts ->
  Forall (fun p => plain_word p.1) (as_words parts).
Proof. intros H. unfold as_words. by apply Forall_fmap. Qed.

Lemma as_words_gaps lead parts : gaps lead parts -> gaps lead (as_words parts).
Proof.
  intros [Hlead Hgaps]. split; [done|]. unfold as_words. by apply Forall_fmap.
Qed.

Lemma as_words_separated parts : separated parts -> separated (as_words parts).
Proof.
  unfold separated, as_words. induction parts as [|p parts IH]; [done|].
  intros [H1 H]. cbn [map between snd]. split; [|by apply IH].
  by destruct parts.
Qed.

(** The words of method 1 on a layout of plain words and possessives
    none of which is a contraction. *)
Lemma method1_words_tokens_layout lead parts :
  Forall (fun p => not_a_contraction p.1) parts ->
  gaps lead parts -> separated parts ->
  (extract_words_with_smart_contractions (layout lead (as_written parts))
     initial_state).1
  = map (fun p => str_lower (base p.1)) parts.
Proof.
  intros Htoks Hgaps Hsep.
  assert (Forall (fun p => plain_word (base p.1)) parts) as Hplain
    by (eapply Forall_impl; [exact Htoks|]; by intros p [? _]).
  unfold extract_words_with_smart_contractions, expand_contractions.
  cbn [fst]. rewrite expand_standard_tokens_layout by done.
  rewrite strip_possessive_layout by done.
  rewrite findall_bounded_layout
    by (by apply as_words_plain || by apply as_words_gaps
        || by apply as_words_separated).
  unfold as_words. rewrite <- list_fmap_compose, map_map.
  apply map_ext. by intros [tok g].
Qed.

End token_layouts.




(** * Further properties *)

(** ** Comparison reports *)

(** X1.  With fewer than two results [compare_results] returns the error
    dictionary, and both message functions raise a [KeyError] on it: the
    recommendation for the key [total_words], the summary for the key
    [consistent]. *)
Theorem compare_results_too_few (results : list Result.t) :
  (length results < 2)%nat ->
  exists message,
    compare_results results = Ok (Comparison.Error "error" message)
    /\ get_recommendation (Comparison.Error "error" message)
       = Raise (KeyError "total_words")
    /\ get_verification_summary (Comparison.Error "error" message)
       = Raise (KeyError "consistent").
Proof.
  intros Hlen. unfold compare_results.
  destruct (Nat.ltb_spec (length results) 2) as [_|Hge]; [|lia].
  eexists. split; [reflexivity|]. split; reflexivity.
Qed.

(** The theorem on a single result. *)
Lemma compare_results_too_few_example :
  exists message,
    compare_results [count_words_method3 "one two"]
    = Ok (Comparison.Error "error" message)
    /\ get_recommendation (Comparison.Error "error" message)
       = Raise (KeyError "total_words").
Proof.
  destruct (compare_results_too_few [count_words_method3 "one two"])
    as (message & Hcmp & Hrec & _).
  - simpl. lia.
  - exists message. by split.
Defined.

Section extrema.
Implicit Types (xs : list Z) (a x : Z).

Lemma foldl_max_spec xs a :
  let m := foldl (fun m y => if m <? y then y else m) a xs in
  (m = a \/ m ∈ xs) /\ a <= m /\ forall x, x ∈ xs -> x <= m.
Proof.
  revert a. induction xs as [|y xs IH]; intros a; simpl.
  - split; [by left|]. split; [lia|]. intros x Hx. by apply not_elem_of_nil in Hx.
  - destruct (IH (if a <? y then y else a)) as (Hin & Hle & Hall).
    destruct (Z.ltb_spec a y).
    + split; [right; destruct Hin as [->|?]; [by left|by right]|].
      split; [lia|]. intros x [->|Hx]%elem_of_cons; [lia|by apply Hall].
    + split; [destruct Hin as [->|?]; [by left|right; by right]|].
      split; [lia|]. intros x [->|Hx]%elem_of_cons; [lia|by apply Hall].
Qed.

Lemma foldl_min_spec xs a :
  let m := foldl (fun m y => if y <? m then y else m) a xs in
  (m = a \/ m ∈ xs) /\ m <= a /\ forall x, x ∈ xs -> m <= x.
Proof.
  revert a. induction xs as [|y xs IH]; intros a; simpl.
  - split; [by left|]. split; [lia|]. intros x Hx. by apply not_elem_of_nil in Hx.
  - destruct (IH (if y <? a then y else a)) as (Hin & Hle & Hall).
    destruct (Z.ltb_spec y a).
    + split; [right; destruct Hin as [->|?]; [by left|by right]|].
      split; [lia|]. intros x [->|Hx]%elem_of_cons; [lia|by apply Hall].
    + split; [destruct Hin as [->|?]; [by left|right; by right]|].
      split; [lia|]. intros x [->|Hx]%elem_of_cons; [lia|by apply Hall].
Qed.

(** [max] and [min] of a list that is not empty. *)
Lemma py_max_spec xs :
  xs <> [] ->
  exists m, py_max xs = Ok m /\ m ∈ xs /\ forall x, x ∈ xs -> x <= m.
Proof.
  destruct xs as [|a xs]; [done|]. intros _. unfold py_max.
  destruct (foldl_max_spec xs a) as (Hin & Hle & Hall).
  eexists. split; [reflexivity|]. split.
  - destruct Hin as [->|?]; [by left|by right].
  - intros x [->|Hx]%elem_of_cons; [done|by apply Hall].
Qed.

Lemma py_min_spec xs :
  xs <> [] ->
  exists m, py_min xs = Ok m /\ m ∈ xs /\ forall x, x ∈ xs -> m <= x.
Proof.
  destruct xs as [|a xs]; [done|]. intros _. unfold py_min.
  destruct (foldl_min_spec xs a) as (Hin & Hle & Hall).
  eexists. split; [reflexivity|]. split.
  - destruct Hin as [->|?]; [by left|by right].
  - intros x [->|Hx]%elem_of_cons; [done|by apply Hall].
Qed.

(** [len(set(xs)) == 1]: the list is not empty and its elements are
    equal. *)
Lemma all_equal_spec xs :
  all_equal xs = true <-> xs <> [] /\ forall x y, x ∈ xs -> y ∈ xs -> x = y.
Proof.
  unfold all_equal. rewrite Nat.eqb_eq. split.
  - intros Hsize. split.
    + intros ->. by rewrite list_to_set_nil, size_empty in Hsize.
    + intros x y Hx Hy.
      apply (size_singleton_inv (list_to_set xs : gset Z) x y Hsize);
        by apply elem_of_list_to_set.
  - intros [Hne Heq]. destruct xs as [|a xs]; [done|].
    assert ((list_to_set (a :: xs) : gset Z) = {[a]}) as ->.
    { apply set_eq. intros x.
      rewrite elem_of_list_to_set, elem_of_singleton. split.
      - intros Hx. apply Heq; [done|by left].
      - intros ->. by left. }
    apply size_singleton.
Qed.

End extrema.

Lemma metric_report (f : Result.t -> Z) (results : list Result.t)
    (values : gmap string Z) :
  results <> [] ->
  exists mn mx,
    py_min (map f results) = Ok mn
    /\ py_max (map f results) = Ok mx
    /\ metric_sound f results
         {| Metric.consistent := all_equal (map f results);
            Metric.values := values;
            Metric.min := mn;
            Metric.max := mx;
            Metric.difference := mx - mn |}.
Proof.
  intros Hne.
  assert (map f results <> []) as Hne' by by destruct results.
  destruct (py_min_spec _ Hne') as (mn & Hmn & Hmn_in & Hmn_le).
  destruct (py_max_spec _ Hne') as (mx & Hmx & Hmx_in & Hmx_le).
  exists mn, mx. split; [done|]. split; [done|].
  assert (forall r, r ∈ results -> f r ∈ map f results) as Hmap
    by (intros r Hr; by apply (list_elem_of_fmap_2 f)).
  assert (all_equal (map f results) = true <->
          forall r1 r2, r1 ∈ results -> r2 ∈ results -> f r1 = f r2) as Hcons.
  { rewrite all_equal_spec. split.
    - intros [_ Heq] r1 r2 H1 H2. apply Heq; by apply Hmap.
    - intros Heq. split; [done|]. intros x y Hx Hy.
      apply list_elem_of_fmap in Hx as (r1 & -> & H1).
      apply list_elem_of_fmap in Hy as (r2 & -> & H2). by apply Heq. }
  unfold metric_sound. cbn [Metric.consistent Metric.min Metric.max
                            Metric.difference].
  split; [exact Hcons|]. split.
  { intros r Hr. split; [apply Hmn_le|apply Hmx_le]; by apply Hmap. }
  apply list_elem_of_fmap in Hmn_in as (rmin & Hrmin & Hrmin_in).
  apply list_elem_of_fmap in Hmx_in as (rmax & Hrmax & Hrmax_in).
  split; [by exists rmin|]. split; [by exists rmax|]. split; [done|].
  rewrite Hcons. split.
  - intros Hdiff r1 r2 H1 H2.
    pose proof (Hmn_le _ (Hmap r1 H1)). pose proof (Hmx_le _ (Hmap r1 H1)).
    pose proof (Hmn_le _ (Hmap r2 H2)). pose proof (Hmx_le _ (Hmap r2 H2)).
    lia.
  - intros Heq. rewrite Hrmin, Hrmax, (Heq rmin rmax) by done. lia.
Qed.

(** X2.  On two results or more [compare_results] returns a report.  Its
    status is [pass] when it is consistent and [warning] when it is not,
    it is consistent exactly when both metrics are, and each metric is
    consistent exactly when its values are all equal, has the least and
    the largest value as bounds, and has a difference that is zero
    exactly when it is consistent. *)
Theorem compare_results_report (results : list Result.t) :
  (2 <= length results)%nat ->
  exists status tw uw,
    compare_results results
    = Ok (Comparison.Report status
            (Metric.consistent tw && Metric.consistent uw) tw uw)
    /\ status
       = (if Metric.consistent tw && Metric.consistent uw
          then "pass" else "warning")
    /\ (status = "pass" <-> Metric.consistent tw && Metric.consistent uw = true)
    /\ metric_sound Result.total_words results tw
    /\ metric_sound Result.unique_words results uw.
Proof.
  intros Hlen.
  assert (results <> []) as Hne by (intros ->; simpl in Hlen; lia).
  destruct (metric_report Result.total_words results
              (values_by_method Result.total_words results) Hne)
    as (tmin & tmax & Htmin & Htmax & Htw).
  destruct (metric_report Result.unique_words results
              (values_by_method Result.unique_words results) Hne)
    as (umin & umax & Humin & Humax & Huw).
  unfold compare_results.
  destruct (Nat.ltb_spec (length results) 2) as [?|_]; [lia|].
  rewrite Htmin, Htmax, Humin, Humax.
  cbn [mbind res_bind mret res_ret].
  eexists _, (Metric.Make _ _ _ _ _), (Metric.Make _ _ _ _ _).
  split; [reflexivity|]. split; [reflexivity|]. split; [|by split].
  cbn [Metric.consistent].
  destruct (all_equal (map Result.total_words results)
            && all_equal (map Result.unique_words results)); split; done.
Qed.

(** The theorem on the results of two methods. *)
Lemma compare_results_report_example :
  exists status tw uw,
    compare_results [count_words_method2 "don't go"; count_words_method3 "don't go"]
    = Ok (Comparison.Report status
            (Metric.consistent tw && Metric.consistent uw) tw uw)
    /\ Metric.difference tw = Metric.max tw - Metric.min tw.
Proof.
  destruct (compare_results_report
              [count_words_method2 "don't go"; count_words_method3 "don't go"])
    as (status & tw & uw & Hcmp & _ & _ & Htw & _).
  - simpl. lia.
  - exists status, tw, uw. split; [exact Hcmp|].
    by destruct Htw as (_ & _ & _ & _ & Hdiff & _).
Defined.

(** ** The selected counts *)

Lemma first_top_total (A B C : Result.t) :
  Result.total_words (first_top A B C) = top_total A B C.
Proof.
  unfold first_top, top_total.
  repeat match goal with
         | |- context [?x =? ?y] => destruct (Z.eqb_spec x y)
         end; lia.
Qed.

(** X3.  The total that [verify_text] reports is never below the total of
    method 1, never above the largest of the three totals and never more
    than 10% below that largest total; and the counts it reports are
    those of one of the three methods. *)
Theorem final_total_bounds (text : string) :
  let A := (count_words_method1 text initial_state).1 in
  let B := count_words_method2 text in
  let C := count_words_method3 text in
  exists v,
    (verify_text text initial_state).1 = Ok v
    /\ Result.total_words A <= Final.total_words (Verification.final_stats v)
    /\ Final.total_words (Verification.final_stats v) <= top_total A B C
    /\ 9 * top_total A B C <= 10 * Final.total_words (Verification.final_stats v)
    /\ exists r, r ∈ [A; B; C] /\ selects (Verification.final_stats v) r.
Proof.
  intros A B C.
  destruct (verify_text_report text initial_state)
    as (cmp & msg & _ & _ & _ & Hrun).
  fold A B C in Hrun. rewrite Hrun. eexists. split; [reflexivity|].
  cbn [Verification.final_stats].
  assert (Result.total_words A <= top_total A B C) as HA
    by (unfold top_total; lia).
  assert (0 <= Result.total_words A) as Hpos by apply tally_total_nonneg.
  destruct (negb (consistent3 A B C)) eqn:Hcons; cbn [andb].
  - destruct (Z.ltb_spec (10 * Result.total_words A) (9 * top_total A B C)).
    + cbn [final_of Final.total_words]. rewrite first_top_total.
      repeat split; try lia.
      exists (first_top A B C). split; [|by repeat split].
      destruct (first_top_cases A B C) as [->|[->| ->]]; repeat constructor.
    + cbn [final_of Final.total_words]. repeat split; try lia.
      exists A. split; [by left|by repeat split].
  - apply negb_false_iff, consistent3_agree in Hcons as [[Hab Hbc] _].
    cbn [final_of Final.total_words]. unfold top_total in *.
    repeat split; try lia.
    exists A. split; [by left|by repeat split].
Qed.

(** ** The verified mode of analyze_text *)

Lemma messages_agree (consistent : bool) (tw uw : Metric.t) :
  exists msg summary,
    get_recommendation
      (Comparison.Report (if consistent then "pass" else "warning")
                         consistent tw uw) = Ok msg
    /\ get_verification_summary
      (Comparison.Report (if consistent then "pass" else "warning")
                         consistent tw uw) = Ok summary
    /\ confidence_of summary = confidence_of msg
    /\ (consistent = true -> summary = "验证通过 ✅")
    /\ (confidence_of summary = Warn <->
        consistent = false /\ 50 < Metric.difference tw).
Proof.
  unfold get_recommendation, get_verification_summary.
  cbn [Comparison.status Comparison.consistent Comparison.total_words
       Comparison.unique_words mbind res_bind mret res_ret].
  destruct consistent.
  - change (String.eqb "pass" "pass") with true. cbv iota.
    eexists _, _. split; [reflexivity|]. split; [reflexivity|].
    split; [reflexivity|]. split; [done|]. split; [discriminate|].
    intros [? _]. discriminate.
  - change (String.eqb "warning" "pass") with false. cbv iota.
    destruct (Z.leb_spec (Metric.difference tw) 2);
      destruct (Z.leb_spec (Metric.difference uw) 2);
      destruct (Z.leb_spec (Metric.difference tw) 10);
      destruct (Z.leb_spec (Metric.difference uw) 5);
      destruct (Z.leb_spec (Metric.difference tw) 50);
      cbn [andb]; eexists _, _;
      (split; [reflexivity|]); (split; [reflexivity|]);
      (split; [reflexivity|]); (split; [discriminate|]);
      split; try discriminate; try (intros [_ ?]; lia);
      try (intros _; split; [reflexivity|lia]);
      intros _; reflexivity.
Qed.

(** X4.  In verified mode [analyze_text] returns the final counts of
    [verify_text], the flag [verified] of its report, and a status and a
    detail that carry the same mark.  When it reports [verified = True]
    the selected method is method 1, the status is the pass message and
    the total and the unique count are those of each of the three
    methods. *)
Theorem analyze_text_verified (text : string) :
  let A := (count_words_method1 text initial_state).1 in
  let B := count_words_method2 text in
  let C := count_words_method3 text in
  exists v s,
    (verify_text text initial_state).1 = Ok v
    /\ (analyze_text text true initial_state).1 = Ok s
    /\ Stats.total_words s = Final.total_words (Verification.final_stats v)
    /\ Stats.unique_words s = Final.unique_words (Verification.final_stats v)
    /\ Stats.word_freq s = Final.word_freq (Verification.final_stats v)
    /\ Stats.unique_word_list s
       = Final.unique_word_list (Verification.final_stats v)
    /\ Stats.verified s = Some (Verification.verified v)
    /\ confidence_of (Stats.verification_status s)
       = confidence_of (Stats.verification_detail s)
    /\ (Stats.verified s = Some true ->
        Stats.selected_method s = Some METHOD1
        /\ Stats.verification_status s = "验证通过 ✅"
        /\ forall r, r ∈ [A; B; C] ->
             Stats.total_words s = Result.total_words r
             /\ Stats.unique_words s = Result.unique_words r).
Proof.
  intros A B C.
  destruct (verify_text_report text initial_state)
    as (cmp & msg & Hcmp & _ & Hmsg & Hrun).
  fold A B C in Hcmp, Hmsg, Hrun.
  destruct (compare_results_three A B C) as (tw & uw & Hcmp' & _).
  rewrite Hcmp' in Hcmp. injection Hcmp as <-.
  destruct (messages_agree (consistent3 A B C) tw uw)
    as (msg' & summary & Hmsg' & Hsum & Hmark & Hpass & _).
  rewrite Hmsg in Hmsg'. injection Hmsg' as <-.
  unfold analyze_text. rewrite Hrun. rewrite bind_Ok.
  cbn [Verification.comparison]. rewrite Hsum, bind_Ok.
  eexists _, _. split; [reflexivity|]. split; [reflexivity|].
  cbn [Stats.total_words Stats.unique_words Stats.word_freq
       Stats.unique_word_list Stats.verified Stats.verification_status
       Stats.verification_detail Stats.selected_method
       Verification.final_stats Verification.verified
       Verification.recommendation].
  do 5 (split; [reflexivity|]). split; [exact Hmark|].
  intros [= Hcons]. rewrite Hcons. cbn [negb andb final_of
    Final.selected_method Final.total_words Final.unique_words].
  split; [reflexivity|]. split; [by apply Hpass|].
  apply consistent3_agree in Hcons as [[Hab Hbc] [Hab' Hbc']].
  intros r Hr.
  repeat (apply elem_of_cons in Hr as [->|Hr]);
    [| | |by apply not_elem_of_nil in Hr]; split; congruence.
Qed.

(** ** The words that are counted *)

Section counted_words.
Import Re.
Local Open Scope list_scope.
Implicit Types (s m : list ascii) (prev : option ascii) (w : string).

Lemma more_matched (P : ascii -> Prop) cap cls
    (cont : option ascii -> list ascii -> option found) :
  (forall c, cls c = true -> P c) ->
  (forall p t r, cont p t = Some r -> Forall P (matched r)) ->
  forall s x r, more cap cls cont x s = Some r -> Forall P (matched r).
Proof.
  intros Hcls Hcont. induction s as [|y s IH]; intros x r; simpl.
  - apply Hcont.
  - destruct (cls y) eqn:Hy; [|apply Hcont].
    destruct (more cap cls cont y s) as [r'|] eqn:Hr'; [|apply Hcont].
    intros [= <-]. simpl. constructor; [by apply Hcls|by apply (IH y)].
Qed.

(** A match of [\b[a-zA-Z]+\b] or of [[a-zA-Z]+] is a run of letters that
    is not empty. *)
Lemma match_bounded_letters prev s r :
  match_here false bounded_word_pattern prev s = Some r ->
  matched r <> [] /\ letters (matched r).
Proof.
  unfold bounded_word_pattern. rewrite match_here_Bnd.
  destruct (boundary prev s); [|done].
  destruct s as [|x s]; [done|]. rewrite match_here_Plus.
  destruct (Char.is_letter x) eqn:Hx; [|done].
  destruct (more false Char.is_letter (match_here false [Bnd]) x s)
    as [r'|] eqn:Hr'; [|done].
  intros [= <-]. split; [done|]. simpl. constructor; [done|].
  apply (more_matched (fun c => Char.is_letter c = true) false
           Char.is_letter (match_here false [Bnd])) with s x; [done| |done].
  intros p t r0. rewrite match_here_Bnd. destruct (boundary p t); [|done].
  intros [= <-]. constructor.
Qed.

Lemma match_letters_letters prev s r :
  match_here false letters_pattern prev s = Some r ->
  matched r <> [] /\ letters (matched r).
Proof.
  unfold letters_pattern. destruct s as [|x s]; [done|].
  rewrite match_here_Plus.
  destruct (Char.is_letter x) eqn:Hx; [|done].
  destruct (more false Char.is_letter (match_here false []) x s)
    as [r'|] eqn:Hr'; [|done].
  intros [= <-]. split; [done|]. simpl. constructor; [done|].
  apply (more_matched (fun c => Char.is_letter c = true) false
           Char.is_letter (match_here false [])) with s x; [done| |done].
  intros p t r0 [= <-]. constructor.
Qed.

(** The words found by a pattern without group are its matches. *)
Lemma findall_matches (re : regex) (P : list ascii -> Prop) :
  has_group re = false ->
  (forall prev s r, match_here false re prev s = Some r -> P (matched r)) ->
  forall s skip prev, Forall P (findall_scan re skip prev s).
Proof.
  intros Hgroup Hmatch. induction s as [|x s IH]; intros skip prev.
  - destruct skip; cbn [findall_scan]; [|constructor].
    destruct (match_here false re prev []) as [r|] eqn:Hr; [|constructor].
    rewrite Hgroup. constructor; [by apply (Hmatch prev [])|constructor].
  - destruct skip as [|skip]; cbn [findall_scan]; [|apply IH].
    destruct (match_here false re prev (x :: s)) as [r|] eqn:Hr; [|apply IH].
    rewrite Hgroup. constructor; [by apply (Hmatch prev (x :: s))|].
    destruct (matched r); apply IH.
Qed.

Lemma lower_of_letter c :
  Char.is_letter c = true -> Char.is_lower_az (Char.lower c) = true.
Proof. by_cases c. Qed.

Lemma lower_of_alpha c :
  Char.isalpha c = true -> Char.isalpha (Char.lower c) = true.
Proof. by_cases c. Qed.

Lemma str_lower_letters m :
  m <> [] -> letters m -> lowercase_word (str_lower (str m)).
Proof.
  intros Hne Hm. unfold lowercase_word, str_lower. rewrite !chars_str. split.
  - destruct m; [done|]. discriminate.
  - induction Hm as [|c m Hc _ IH]; [done|].
    constructor; [by apply lower_of_letter|]. destruct m; [constructor|].
    by apply IH.
Qed.

Lemma lower_letters_word w :
  chars w <> [] -> letters (chars w) -> lowercase_word (str_lower w).
Proof.
  intros Hne Hm. rewrite <- (str_chars w). by apply str_lower_letters.
Qed.

Lemma findall_letter_runs (re : regex) text :
  has_group re = false ->
  (forall prev s r, match_here false re prev s = Some r ->
                    matched r <> [] /\ letters (matched r)) ->
  Forall (fun w => chars w <> [] /\ letters (chars w)) (findall re text).
Proof.
  intros Hgroup Hmatch. unfold findall. apply Forall_fmap.
  eapply Forall_impl;
    [exact (findall_matches re (fun m => m <> [] /\ letters m)
              Hgroup Hmatch (chars text) 0%nat None)|].
  intros m [Hne Hm]. simpl. by rewrite chars_str.
Qed.

Lemma lowered_matches (re : regex) text :
  has_group re = false ->
  (forall prev s r, match_here false re prev s = Some r ->
                    matched r <> [] /\ letters (matched r)) ->
  Forall lowercase_word (map str_lower (findall re text)).
Proof.
  intros Hgroup Hmatch. apply Forall_fmap.
  eapply Forall_impl; [exact (findall_letter_runs re text Hgroup Hmatch)|].
  intros w [Hne Hw]. by apply lower_letters_word.
Qed.

Lemma method1_words_lowercase text st :
  Forall lowercase_word (extract_words_with_smart_contractions text st).1.
Proof.
  unfold extract_words_with_smart_contractions, expand_contractions.
  cbn [fst]. apply lowered_matches; [done|]. apply match_bounded_letters.
Qed.

Lemma method3_words_lowercase text :
  Forall lowercase_word (Result.word_list (count_words_method3 text)).
Proof.
  unfold count_words_method3. cbn [tally Result.word_list].
  apply Forall_fmap. apply Forall_forall. intros w Hw.
  apply list_elem_of_filter in Hw as [_ Hw].
  pose proof (findall_letter_runs letters_pattern
                (sub false digits_pattern [Text []] text) eq_refl
                match_letters_letters) as Hall.
  rewrite Forall_forall in Hall. destruct (Hall w Hw) as [Hne Hl].
  by apply lower_letters_word.
Qed.

Lemma method2_token_words token :
  Forall alphabetic_lower_word (method2_token token).
Proof.
  unfold method2_token.
  destruct (truthy _ && _); [|constructor].
  set (alpha := filter (fun c => Char.isalpha c = true) _).
  destruct (truthy (str alpha)) eqn:Htruthy; [|constructor].
  constructor; [|constructor].
  assert (Forall (fun c => Char.isalpha c = true) alpha) as Halpha.
  { subst alpha. apply Forall_forall. intros c Hc.
    by apply list_elem_of_filter in Hc as [Hc _]. }
  assert (alpha <> []) as Hne by (intros Heq; by rewrite Heq in Htruthy).
  unfold alphabetic_lower_word, str_lower. rewrite !chars_str. split.
  - destruct alpha; [done|]. discriminate.
  - split.
    + clear Hne Htruthy. induction Halpha as [|c l Hc _ IH]; [constructor|].
      constructor; [by apply lower_of_alpha|done].
    + f_equal. rewrite map_map. apply map_ext. intros c. apply lower_idem.
Qed.

Lemma method2_words_alphabetic text :
  Forall alphabetic_lower_word (Result.word_list (count_words_method2 text)).
Proof.
  unfold count_words_method2. cbn [tally Result.word_list].
  induction (split text) as [|token tokens IH]; [constructor|].
  cbn [flat_map]. apply Forall_app. split; [apply method2_token_words|done].
Qed.

End counted_words.

(** X5.  Every word that method 1 or method 3 counts, and every word in
    the list of the quick mode, consists of one or more lower-case
    letters a to z; every word that method 2 counts consists of one or
    more alphabetic characters and is not changed by [lower]. *)
Theorem counted_words_are_lowercase (text : string) :
  Forall lowercase_word
         (Result.word_list (count_words_method1 text initial_state).1)
  /\ Forall alphabetic_lower_word
            (Result.word_list (count_words_method2 text))
  /\ Forall lowercase_word (Result.word_list (count_words_method3 text))
  /\ exists s,
       (analyze_text text false initial_state).1 = Ok s
       /\ Forall lowercase_word (Stats.unique_word_list s)
       /\ forall w, is_Some (Stats.word_freq s !! w) -> lowercase_word w.
Proof.
  split; [apply method1_words_lowercase|].
  split; [apply method2_words_alphabetic|].
  split; [apply method3_words_lowercase|].
  eexists. split; [reflexivity|].
  cbn [Stats.unique_word_list Stats.word_freq].
  assert (Forall lowercase_word
            (map str_lower (Re.findall bounded_word_pattern text))) as Hall
    by (apply lowered_matches; [done|apply match_bounded_letters]).
  assert (forall w,
            is_Some (Counter (map str_lower
                       (Re.findall bounded_word_pattern text)) !! w) ->
            lowercase_word w) as Hkeys.
  { intros w Hw. apply Counter_keys in Hw.
    rewrite Forall_forall in Hall. by apply Hall. }
  split; [|exact Hkeys].
  apply Forall_forall. intros w Hw.
  rewrite sorted_Permutation in Hw. apply keys_spec in Hw. by apply Hkeys.
Qed.

(** X6.  Method 3 removes the digits before it looks for words: a text
    and the same text without its digits have the same word count, so
    letters that only digits separate are counted as one word. *)
Theorem method3_ignores_digits (text : string) :
  count_words_method3 text = count_words_method3 (without_digits text)
  /\ Re.sub false digits_pattern [Re.Text []] text = without_digits text.
Proof.
  assert (forall t, Re.sub false digits_pattern [Re.Text []] t
                    = without_digits t) as Hsub.
  { intros t. unfold digits_pattern. rewrite sub_class_text.
    by rewrite collapse_nil. }
  split; [|apply Hsub].
  unfold count_words_method3. rewrite !Hsub.
  assert (without_digits (without_digits text) = without_digits text) as ->;
    [|done].
  unfold without_digits. rewrite chars_str. f_equal.
  apply list_filter_filter_l. done.
Qed.

(** ** The text cleaned by [preprocess_text] *)

Section cleaned_text.
Import Re.
Local Open Scope list_scope.
Local Open Scope char_scope.
Implicit Types (s m t : list ascii) (prev : option ascii) (c : ascii).

Lemma twice_no_infix c s : twice c s = false -> ~ has_infix [c; c] s.
Proof.
  induction s as [|x s IH]; intros Htwice (s1 & s2 & Heq).
  - by destruct s1.
  - cbn [twice] in Htwice. apply orb_false_iff in Htwice as [Hx Hs].
    destruct s1 as [|y s1]; simpl in Heq.
    + injection Heq as -> ->. simpl in Hx. by rewrite Ascii.eqb_refl in Hx.
    + injection Heq as -> ->. apply (IH Hs). by exists s1, s2.
Qed.

Lemma infix_of_infix p s a b s' :
  s = a ++ s' ++ b -> has_infix p s' -> has_infix p s.
Proof.
  intros -> (s1 & s2 & ->). exists (a ++ s1), (s2 ++ b).
  by rewrite <- !app_assoc.
Qed.

Lemma twice_cons_other c x s : x <> c -> twice c (x :: s) = twice c s.
Proof.
  intros Hx. cbn [twice]. by rewrite (proj2 (Ascii.eqb_neq x c) Hx).
Qed.

Lemma twice_cons_head c x s :
  head s <> Some c -> twice c (x :: s) = twice c s.
Proof.
  intros Hs. cbn [twice]. destruct s as [|y s]; [by rewrite andb_false_r|].
  destruct (Ascii.eqb_spec y c) as [->|]; [done|]. by rewrite andb_false_r.
Qed.

(** Replacing runs by one space brings no character twice in a row,
    other than the space. *)
Lemma collapse_head cls c s :
  c <> " " -> head (collapse cls [" "] false s) = Some c -> head s = Some c.
Proof.
  intros Hc. destruct s as [|x s]; [done|]. cbn [collapse].
  destruct (cls x); [|done]. simpl. congruence.
Qed.

Lemma collapse_twice cls c s : forall b,
  c <> " " -> twice c s = false -> twice c (collapse cls [" "] b s) = false.
Proof.
  intros b Hc. revert b. induction s as [|x s IH]; intros b Hs; [done|].
  assert (twice c s = false) as Hs'
    by (cbn [twice] in Hs; by apply orb_false_iff in Hs as [_ ?]).
  cbn [collapse]. destruct (cls x).
  - destruct b; simpl app; [by apply IH|].
    rewrite twice_cons_other by done. by apply IH.
  - destruct (Ascii.eqb_spec x c) as [->|Hx].
    + rewrite twice_cons_head; [by apply IH|].
      intros Hhead. apply collapse_head in Hhead; [|done].
      destruct s as [|y s]; [done|]. injection Hhead as ->.
      cbn [twice] in Hs. by rewrite Ascii.eqb_refl in Hs.
    + rewrite twice_cons_other by done. by apply IH.
Qed.

(** After [re.sub(r'\s+', ' ', text)] every whitespace character is a
    space and no two spaces are adjacent. *)
Lemma collapse_space_chars s : forall b,
  Forall (fun c => Char.isspace c = true -> c = " ")
         (collapse Char.isspace [" "] b s).
Proof.
  induction s as [|x s IH]; intros b; [constructor|].
  cbn [collapse]. destruct (Char.isspace x) eqn:Hx.
  - destruct b; simpl app; [apply IH|]. constructor; [done|apply IH].
  - constructor; [congruence|apply IH].
Qed.

Lemma collapse_space_twice s : forall b,
  twice " " (collapse Char.isspace [" "] b s) = false
  /\ (b = true -> head (collapse Char.isspace [" "] b s) <> Some " ").
Proof.
  induction s as [|x s IH]; intros b; [done|].
  cbn [collapse]. destruct (Char.isspace x) eqn:Hx.
  - destruct b; simpl app; [apply IH|]. split; [|done].
    rewrite twice_cons_head; [apply IH|]. by apply IH.
  - assert (x <> " ") as Hne by (intros ->; done).
    split; [|intros _ [= ?]; done].
    rewrite twice_cons_other by done. apply IH.
Qed.

(** [lstrip] keeps a suffix, which does not begin with whitespace. *)
Lemma lstrip_space_suffix s : exists p, s = p ++ lstrip_space s.
Proof.
  induction s as [|x s [p IH]]; [by exists []|].
  cbn [lstrip_space]. destruct (Char.isspace x); [|by exists []].
  exists (x :: p). simpl. by f_equal.
Qed.

Lemma lstrip_space_head s c :
  head (lstrip_space s) = Some c -> Char.isspace c = false.
Proof.
  induction s as [|x s IH]; [done|]. cbn [lstrip_space].
  destruct (Char.isspace x) eqn:Hx; [done|]. by intros [= <-].
Qed.

Lemma last_rev_head s : last (rev s) = head s.
Proof. destruct s as [|x s]; [done|]. simpl. by rewrite last_snoc. Qed.

(** [strip] keeps a part of the text that neither begins nor ends with
    whitespace. *)
Lemma strip_space_spec (text : string) :
  let out := chars (strip_space text) in
  (exists a b, chars text = a ++ out ++ b)
  /\ (forall c, head out = Some c -> Char.isspace c = false)
  /\ (forall c, last out = Some c -> Char.isspace c = false).
Proof.
  unfold strip_space. rewrite chars_str. cbn zeta.
  destruct (lstrip_space_suffix (chars text)) as [a Ha].
  set (L := lstrip_space (chars text)) in *.
  destruct (lstrip_space_suffix (rev L)) as [p Hp].
  set (R := lstrip_space (rev L)) in *.
  assert (L = rev R ++ rev p) as HL
    by (rewrite <- rev_app_distr, <- Hp; by rewrite rev_involutive).
  split; [|split].
  - exists a, (rev p). by rewrite Ha, HL.
  - intros c Hc. apply (lstrip_space_head (chars text)). fold L.
    rewrite HL. destruct (rev R); [done|]. exact Hc.
  - intros c. rewrite last_rev_head. apply lstrip_space_head.
Qed.

Lemma preprocess_text_strip text file_type :
  exists body a b,
    body = a ++ chars (preprocess_text text file_type) ++ b
    /\ Forall (fun c => Char.isspace c = true -> c = " ") body
    /\ twice " " body = false
    /\ (forall text', (file_type = "3外教")%string ->
          text' = Re.sub false bold_pattern [Text []]
                    (Re.sub false speaker_pattern [Text []] text) ->
          twice "*" (chars text') = false -> twice "*" body = false).
Proof.
  unfold preprocess_text.
  set (inner := if String.eqb file_type "1双语" then _ else _).
  destruct (strip_space_spec
              (Re.sub false whitespace_pattern [Text [" "]] inner))
    as ((a & b & Hsplit) & _ & _).
  unfold whitespace_pattern in *. rewrite sub_class_text in *.
  rewrite chars_str in Hsplit.
  exists (collapse Char.isspace [" "] false (chars inner)), a, b.
  split; [done|]. split; [apply collapse_space_chars|].
  split; [apply collapse_space_twice|].
  intros text' -> -> Hstars. subst inner. cbn [String.eqb Ascii.eqb Bool.eqb].
  apply collapse_twice; [done|].
  unfold cjk_pattern. rewrite sub_class_text, chars_str.
  by apply collapse_twice.
Qed.

(** [re.sub(r'\*\*', '', text)] leaves no two asterisks in a row. *)
Lemma match_bold prev s :
  match_here false bold_pattern prev s
  = match s with
    | x :: y :: s' =>
        if Ascii.eqb x "*" && Ascii.eqb y "*"
        then Some (Found [x; y] [] s') else None
    | _ => None
    end.
Proof.
  unfold bold_pattern. destruct s as [|x [|y s]]; [done| |].
  - rewrite match_here_Lit. unfold lit_match.
    by destruct (Ascii.eqb x "*").
  - rewrite match_here_Lit. unfold lit_match.
    destruct (Ascii.eqb x "*"); [|done]. rewrite match_here_Lit.
    unfold lit_match. destruct (Ascii.eqb y "*"); done.
Qed.

Lemma sub_bold_twice (n : nat) : forall s prev,
  (length s <= n)%nat ->
  let out := sub_scan false bold_pattern [Text []] 0 prev s in
  twice "*" out = false /\ (head out = Some "*" -> head s = Some "*").
Proof.
  induction n as [|n IH]; intros s prev Hlen.
  - destruct s; [|simpl in Hlen; lia]. cbn zeta. cbn [sub_scan].
    by rewrite match_bold.
  - destruct s as [|x s]; [cbn zeta; cbn [sub_scan]; by rewrite match_bold|].
    cbn zeta. cbn [sub_scan]. rewrite match_bold.
    destruct s as [|y s].
    { cbn [sub_scan]. rewrite match_bold. split; [|done].
      simpl. by rewrite andb_false_r. }
    destruct (Ascii.eqb_spec x "*") as [->|Hx].
    + destruct (Ascii.eqb_spec y "*") as [->|Hy]; cbn [andb].
      * cbn [matched expand_repl flat_map app length sub_scan].
        destruct (IH s (Some "*") ltac:(simpl in Hlen |- *; lia)) as [Htw Hhd].
        split; [exact Htw|done].
      * destruct (IH (y :: s) (Some "*") ltac:(simpl in Hlen |- *; lia))
          as [Htw Hhd].
        split; [|done]. rewrite twice_cons_head; [exact Htw|].
        intros Hhead. apply Hhd in Hhead. by injection Hhead.
    + cbn [andb].
      destruct (IH (y :: s) (Some x) ltac:(simpl in Hlen |- *; lia)) as [Htw Hhd].
      split; [|by intros [= ?]]. by rewrite twice_cons_other.
Qed.

End cleaned_text.

(** X7.  The text cleaned by [preprocess_text], for every text and every
    file type: each whitespace character in it is a space, no two spaces
    are adjacent, and it neither begins nor ends with whitespace. *)
Theorem preprocess_text_spacing (text file_type : string) :
  let out := chars (preprocess_text text file_type) in
  Forall (fun c => Char.isspace c = true -> c = " "%char) out
  /\ ~ has_infix [" "%char; " "%char] out
  /\ (forall c, head out = Some c -> Char.isspace c = false)
  /\ (forall c, last out = Some c -> Char.isspace c = false).
Proof.
  cbn zeta.
  destruct (preprocess_text_strip text file_type)
    as (body & a & b & Hsplit & Hchars & Htwice & _).
  split; [|split].
  - rewrite Hsplit in Hchars.
    apply Forall_app in Hchars as [_ Hchars].
    by apply Forall_app in Hchars as [Hchars _].
  - intros Hinfix. apply (twice_no_infix _ _ Htwice).
    by apply (infix_of_infix _ _ a b _ Hsplit).
  - unfold preprocess_text. apply strip_space_spec.
Qed.

(** X8.  The text cleaned for the file type 3外教 contains no bold mark:
    no two asterisks are adjacent in it. *)
Theorem preprocess_text_no_bold (text : string) :
  ~ has_infix ["*"%char; "*"%char] (chars (preprocess_text text "3外教")).
Proof.
  destruct (preprocess_text_strip text "3外教")
    as (body & a & b & Hsplit & _ & _ & Hstars).
  intros Hinfix. apply (infix_of_infix _ _ a b _ Hsplit) in Hinfix.
  revert Hinfix. apply twice_no_infix. eapply Hstars; [done|reflexivity|].
  unfold Re.sub at 1. rewrite chars_str.
  by apply (sub_bold_twice (length (chars (Re.sub false speaker_pattern
                                             [Re.Text []] text)))).
Qed.

(** ** The statistics of a book file *)

Lemma summary_status (consistent : bool) (tw uw : Metric.t) :
  exists summary,
    get_verification_summary
      (Comparison.Report (if consistent then "pass" else "warning")
                         consistent tw uw) = Ok summary
    /\ contains "✅" summary || contains "验证通过" summary
       = consistent || (Metric.difference tw <=? 50).
Proof.
  unfold get_verification_summary.
  cbn [Comparison.consistent Comparison.total_words Comparison.unique_words
       mbind res_bind mret res_ret].
  destruct consistent; [eexists; split; reflexivity|].
  destruct (Z.leb_spec (Metric.difference tw) 2);
    destruct (Z.leb_spec (Metric.difference uw) 2);
    destruct (Z.leb_spec (Metric.difference tw) 10);
    destruct (Z.leb_spec (Metric.difference uw) 5);
    destruct (Z.leb_spec (Metric.difference tw) 50);
    cbn [andb orb]; eexists; (split; [reflexivity|]);
    try reflexivity; lia.
Qed.

(** A run of [analyze_text]: it returns statistics, leaves the module
    state as it is, its counts are well formed, and its status is a pass
    message exactly in verified mode with totals at most 50 apart. *)
Lemma analyze_text_run (text : string) (verify : bool) (st : module_state) :
  let A := (count_words_method1 text st).1 in
  let B := count_words_method2 text in
  let C := count_words_method3 text in
  exists s,
    analyze_text text verify st = (Ok s, st)
    /\ well_formed (Stats.total_words s) (Stats.unique_words s)
                   (Stats.word_freq s)
    /\ contains "✅" (Stats.verification_status s)
       || contains "验证通过" (Stats.verification_status s)
       = verify && (spread A B C <=? 50).
Proof.
  intros A B C. destruct verify.
  - destruct (verify_text_report text st)
      as (cmp & msg & Hcmp & _ & _ & Hrun).
    fold A B C in Hcmp, Hrun.
    destruct (compare_results_three A B C) as (tw & uw & Hcmp' & Htw & _).
    rewrite Hcmp' in Hcmp. injection Hcmp as <-.
    destruct (summary_status (consistent3 A B C) tw uw)
      as (summary & Hsum & Hmark).
    unfold analyze_text. rewrite Hrun, bind_Ok.
    cbn [Verification.comparison]. rewrite Hsum, bind_Ok.
    eexists. split; [reflexivity|].
    cbn [Stats.total_words Stats.unique_words Stats.word_freq
         Stats.verification_status Verification.final_stats].
    split.
    + match goal with
      | |- context [final_of ?b] => set (best := b)
      end.
      assert (exists m words, best = tally m words) as (m & words & ->).
      { subst best. destruct (_ && _); [|eexists _, _; reflexivity].
        destruct (first_top_cases A B C) as [->|[->| ->]];
          eexists _, _; reflexivity. }
      apply tally_well_formed.
    + rewrite Hmark. cbn [andb]. fold (spread A B C) in Htw. rewrite Htw.
      destruct (consistent3 A B C) eqn:Hcons; [|done].
      apply consistent3_agree in Hcons as [[Hab Hbc] _].
      cbn [orb]. symmetry. apply Z.leb_le.
      unfold spread, top_total. lia.
  - eexists. split; [reflexivity|]. split; [|reflexivity].
    cbn [Stats.total_words Stats.unique_words Stats.word_freq].
    apply (tally_well_formed EmptyString).
Qed.

Lemma analyze_book_file_run (text file_type filename : string)
    (verify : bool) (st : module_state) (s : Stats.t) :
  analyze_text (preprocess_text text file_type) verify st = (Ok s, st) ->
  analyze_book_file text file_type filename verify st
  = (Ok {| BookStats.stats :=
             if String.eqb file_type "2原文"
             then set_total_words (Stats.total_words s * 3) s else s;
           BookStats.original_total_words :=
             if String.eqb file_type "2原文"
             then Some (Stats.total_words s) else None;
           BookStats.multiplier :=
             if String.eqb file_type "2原文" then Some 3 else None;
           BookStats.file_type := file_type;
           BookStats.filename := filename;
           BookStats.cleaned_text := preprocess_text text file_type;
           BookStats.cleaned_text_preview :=
             if (300 <? String.length (preprocess_text text file_type))%nat
             then str_take 300 (preprocess_text text file_type) ++ "..."
             else preprocess_text text file_type |},
     st).
Proof.
  intros Hs. unfold analyze_book_file. rewrite Hs, bind_Ok.
  by destruct (String.eqb file_type "2原文").
Qed.

Lemma length_chars (s : string) : length (chars s) = String.length s.
Proof. by rewrite <- (str_chars s) at 2; rewrite str_length. Qed.

(** X9.  [analyze_book_file] returns statistics for every text, file
    type and mode, and leaves the module state as it is.  The total it
    reports is the total of [analyze_text] on the cleaned text, times
    three for the file type 2原文 and as it is for the others; so it is
    that factor times the sum of the reported frequencies, while the
    unique count stays the number of reported words.  The preview is the
    cleaned text when that has at most 300 characters, and otherwise its
    first 300 characters and three dots. *)
Theorem analyze_book_file_counts (text file_type filename : string)
    (verify : bool) (st : module_state) :
  let cleaned := preprocess_text text file_type in
  exists s b,
    analyze_text cleaned verify st = (Ok s, st)
    /\ analyze_book_file text file_type filename verify st = (Ok b, st)
    /\ Stats.total_words (BookStats.stats b)
       = factor file_type * Stats.total_words s
    /\ Stats.total_words (BookStats.stats b)
       = factor file_type
         * py_sum (values (Stats.word_freq (BookStats.stats b)))
    /\ Stats.unique_words (BookStats.stats b)
       = Z.of_nat (length (keys (Stats.word_freq (BookStats.stats b))))
    /\ BookStats.original_total_words b
       = (if String.eqb file_type "2原文"
          then Some (Stats.total_words s) else None)
    /\ BookStats.cleaned_text b = cleaned
    /\ (String.length (BookStats.cleaned_text_preview b) <= 303)%nat
    /\ ((String.length cleaned <= 300)%nat ->
        BookStats.cleaned_text_preview b = cleaned)
    /\ ((300 < String.length cleaned)%nat ->
        chars (BookStats.cleaned_text_preview b)
        = (take 300 (chars cleaned) ++ chars "...")%list).
Proof.
  intros cleaned.
  destruct (analyze_text_run cleaned verify st) as (s & Hs & Hwf & _).
  exists s. eexists. split; [exact Hs|].
  split; [exact (analyze_book_file_run text file_type filename verify st s Hs)|].
  cbn [BookStats.stats BookStats.original_total_words BookStats.cleaned_text
       BookStats.cleaned_text_preview].
  fold cleaned. destruct Hwf as (Htotal & Hunique & _). unfold factor.
  split; [destruct (String.eqb file_type "2原文"); simpl; lia|].
  split; [destruct (String.eqb file_type "2原文"); simpl; lia|].
  split; [by destruct (String.eqb file_type "2原文")|].
  split; [reflexivity|]. split; [reflexivity|].
  assert (chars (str_take 300 cleaned ++ "...")
          = (take 300 (chars cleaned) ++ chars "...")%list) as Hpreview
    by (unfold str_take; by rewrite chars_app, chars_str).
  destruct (Nat.ltb_spec 300 (String.length cleaned)) as [Hlong|Hshort].
  - split; [|split; [lia|done]].
    rewrite <- length_chars, Hpreview, length_app, length_take.
    change (length (chars "...")) with 3%nat. lia.
  - split; [lia|]. split; [done|lia].
Qed.

(** X10.  The status of the statistics of a book file carries a pass
    mark, so that [generate_summary] takes the file as verified, exactly
    when the verification is enabled and the largest and the smallest
    total of the three methods on the cleaned text are at most 50 apart;
    in the quick mode no file is taken as verified. *)
Theorem book_file_is_verified (text file_type filename : string)
    (verify : bool) (st : module_state) :
  let cleaned := preprocess_text text file_type in
  let A := (count_words_method1 cleaned st).1 in
  let B := count_words_method2 cleaned in
  let C := count_words_method3 cleaned in
  exists b,
    analyze_book_file text file_type filename verify st = (Ok b, st)
    /\ is_verified b = verify && (spread A B C <=? 50).
Proof.
  intros cleaned A B C.
  destruct (analyze_text_run cleaned verify st) as (s & Hs & _ & Hmark).
  eexists.
  split; [exact (analyze_book_file_run text file_type filename verify st s Hs)|].
  unfold is_verified. cbn [BookStats.stats].
  by destruct (String.eqb file_type "2原文").
Qed.

(** ** The files of a book *)

Section book_files.
Implicit Types (s kw : string) (files : list File.t).

Lemma startswith_spec kw s : startswith kw s = true <-> exists b, s = kw ++ b.
Proof.
  unfold startswith. revert s. induction kw as [|c kw IH]; intros s.
  - split; [intros _; by exists s|intros _; by destruct s].
  - destruct s as [|x s]; cbn [String.prefix].
    + split; [done|]. intros [b Hb]. discriminate.
    + destruct (ascii_dec c x) as [->|Hne].
      * rewrite IH. split; intros [b Hb]; exists b.
        -- simpl. by rewrite Hb.
        -- simpl in Hb. by injection Hb.
      * split; [done|]. intros [b Hb]. simpl in Hb. by injection Hb.
Qed.

Lemma contains_cons kw c s :
  kw <> EmptyString ->
  contains kw (String c s) = startswith kw (String c s) || contains kw s.
Proof.
  intros Hkw. unfold contains, startswith. cbn [String.index].
  destruct (String.prefix kw (String c s)); [done|].
  by destruct (String.index 0 kw s).
Qed.

(** [kw in s] tells whether [kw] occurs in [s]. *)
Lemma contains_spec kw s :
  kw <> EmptyString -> contains kw s = true <-> occurs kw s.
Proof.
  intros Hkw. induction s as [|c s IH].
  - unfold contains. cbn [String.index].
    destruct kw as [|k kw']; [done|]. split; [done|].
    intros (a & b & Heq). destruct a; discriminate.
  - rewrite contains_cons, orb_true_iff, startswith_spec, IH by done. split.
    + intros [[b Hb]|(a & b & Hab)].
      * by exists EmptyString, b.
      * exists (String c a), b. simpl. by rewrite Hab.
    + intros (a & b & Hab). destruct a as [|x a].
      * left. by exists b.
      * right. simpl in Hab. injection Hab as -> ->. by exists a, b.
Qed.

Lemma string_app_assoc (a b c : string) : (a ++ b) ++ c = a ++ b ++ c.
Proof.
  induction a as [|x a IH]; [done|].
  change (String x ((a ++ b) ++ c) = String x (a ++ b ++ c)). by rewrite IH.
Qed.

Lemma startswith_contains (lead kw tail s : string) :
  kw <> EmptyString ->
  startswith (lead ++ kw ++ tail) s = true -> contains kw s = true.
Proof.
  intros Hkw Hs. apply contains_spec; [done|].
  apply startswith_spec in Hs as [b ->]. exists lead, (tail ++ b).
  by rewrite !string_app_assoc.
Qed.

Lemma identify_file_type_keywords (filename : string) :
  identify_file_type filename
  = if contains "双语" filename then Some "1双语"
    else if contains "原文" filename then Some "2原文"
    else if contains "外教" filename then Some "3外教"
    else None.
Proof.
  unfold identify_file_type.
  assert (forall lead kw tail,
            kw <> EmptyString ->
            startswith (lead ++ kw ++ tail) filename || contains kw filename
            = contains kw filename) as Hor.
  { intros lead kw tail Hkw.
    destruct (startswith _ filename) eqn:Hs; [|done].
    by rewrite (startswith_contains lead kw tail filename Hkw Hs). }
  change "1双语-" with ("1" ++ "双语" ++ "-").
  change "2原文-" with ("2" ++ "原文" ++ "-").
  change "3外教-" with ("3" ++ "外教" ++ "-").
  by rewrite !Hor.
Qed.

(** The dictionary built from the files holds, for each type, the last
    file of that type. *)
Lemma file_types_last files (t : string) :
  foldl (fun file_types file =>
           match identify_file_type (File.name file) with
           | Some file_type => <[file_type := file]> file_types
           | None => file_types
           end) (∅ : gmap string File.t) files !! t
  = last (files_of_type t files).
Proof.
  unfold files_of_type.
  induction files as [|f files IH] using rev_ind; [done|].
  rewrite foldl_app, filter_app. cbn [foldl].
  destruct (identify_file_type (File.name f)) as [t'|] eqn:Hf.
  - destruct (decide (t' = t)) as [->|Hne].
    + rewrite lookup_insert_eq.
      rewrite (filter_cons_True _ f []) by done.
      rewrite filter_nil. by rewrite last_snoc.
    + rewrite lookup_insert_ne by done.
      rewrite (filter_cons_False _ f []) by congruence.
      rewrite filter_nil, app_nil_r. exact IH.
  - rewrite (filter_cons_False _ f []) by congruence.
    rewrite filter_nil, app_nil_r. exact IH.
Qed.

Lemma last_is_Some {A} (l : list A) : is_Some (last l) <-> l <> [].
Proof.
  destruct l as [|x l] using rev_ind.
  - split; [by intros [? ?]|done].
  - rewrite last_snoc. split; [by destruct l|eauto].
Qed.

Lemma files_of_type_nonempty t files :
  files_of_type t files <> []
  <-> exists f, f ∈ files /\ identify_file_type (File.name f) = Some t.
Proof.
  unfold files_of_type. split.
  - intros Hne. destruct (filter _ files) as [|f l] eqn:Hfilter; [done|].
    exists f. apply and_comm. apply (list_elem_of_filter
      (fun f => identify_file_type (File.name f) = Some t)).
    rewrite Hfilter. by left.
  - intros (f & Hf & Ht) Hnil.
    assert (f ∈ filter (fun f => identify_file_type (File.name f) = Some t)
                       files) as Hin
      by (by apply list_elem_of_filter).
    rewrite Hnil in Hin. by apply not_elem_of_nil in Hin.
Qed.

End book_files.

(** X11.  The file type of a name is decided by the keywords alone: it is
    1双语 when 双语 occurs in the name, else 2原文 when 原文 occurs, else
    3外教 when 外教 occurs, else none; the tests of the prefixes 1双语-,
    2原文- and 3外教- never change the answer. *)
Theorem identify_file_type_by_keyword (filename : string) :
  (identify_file_type filename = Some "1双语" <-> occurs "双语" filename)
  /\ (identify_file_type filename = Some "2原文" <->
      ~ occurs "双语" filename /\ occurs "原文" filename)
  /\ (identify_file_type filename = Some "3外教" <->
      ~ occurs "双语" filename /\ ~ occurs "原文" filename
      /\ occurs "外教" filename)
  /\ (identify_file_type filename = None <->
      ~ occurs "双语" filename /\ ~ occurs "原文" filename
      /\ ~ occurs "外教" filename)
  /\ (forall t, identify_file_type filename = Some t -> t ∈ REQUIRED).
Proof.
  rewrite identify_file_type_keywords.
  rewrite <- !(contains_spec "双语"), <- !(contains_spec "原文"),
    <- !(contains_spec "外教") by done.
  destruct (contains "双语" filename), (contains "原文" filename),
    (contains "外教" filename);
    repeat split; try discriminate; try tauto; try done;
    try (intros t [= <-]; unfold REQUIRED; set_solver);
    try (intros [? ?]; try discriminate; tauto);
    try (intros (? & ? & ?); try discriminate; tauto).
Qed.

(** X12.  [validate_uploaded_files] maps each file type to the last file
    of the list whose name has that type; the missing types are the
    required types that no file has, in the order of the required types;
    and the files are valid exactly when each of the three required types
    is the type of some file. *)
Theorem validate_uploaded_files_spec (files : list File.t) :
  let valid := (validate_uploaded_files files).1.1 in
  let missing := (validate_uploaded_files files).1.2 in
  let file_types := (validate_uploaded_files files).2 in
  (forall t, file_types !! t = last (files_of_type t files))
  /\ missing = List.filter (fun t => bool_decide (files_of_type t files = []))
                           REQUIRED
  /\ (forall t, t ∈ missing <->
        t ∈ REQUIRED
        /\ forall f, f ∈ files -> identify_file_type (File.name f) <> Some t)
  /\ (valid = true <->
      forall t, t ∈ REQUIRED ->
        exists f, f ∈ files /\ identify_file_type (File.name f) = Some t).
Proof.
  cbn zeta. unfold validate_uploaded_files. cbn [fst snd].
  set (file_types := foldl _ _ files).
  assert (forall t, file_types !! t = last (files_of_type t files)) as Hlast
    by (intros t; apply file_types_last).
  assert (forall t, negb (bool_decide (is_Some (file_types !! t)))
                    = bool_decide (files_of_type t files = [])) as Hmiss.
  { intros t. rewrite Hlast.
    destruct (decide (files_of_type t files = [])) as [Hnil|Hne].
    - rewrite Hnil. cbn [last].
      rewrite (bool_decide_eq_false_2 (is_Some None)) by (by intros [? ?]).
      by rewrite bool_decide_eq_true_2.
    - rewrite (bool_decide_eq_false_2 _ Hne).
      rewrite bool_decide_eq_true_2; [done|]. by apply last_is_Some. }
  assert (List.filter
            (fun t => negb (bool_decide (is_Some (file_types !! t)))) REQUIRED
          = List.filter (fun t => bool_decide (files_of_type t files = []))
                        REQUIRED) as Hfilter
    by (apply List.filter_ext; intros t; apply Hmiss).
  rewrite Hfilter. clear Hfilter Hmiss.
  assert (forall t,
            t ∈ List.filter (fun t => bool_decide (files_of_type t files = []))
                            REQUIRED
            <-> t ∈ REQUIRED
                /\ forall f, f ∈ files ->
                     identify_file_type (File.name f) <> Some t) as Hin.
  { intros t. rewrite !list_elem_of_In, List.filter_In, bool_decide_eq_true.
    rewrite <- !list_elem_of_In.
    assert (files_of_type t files = []
            <-> forall f, f ∈ files ->
                  identify_file_type (File.name f) <> Some t) as ->; [|done].
    split.
    - intros Hnil f Hf Ht.
      by apply (proj2 (files_of_type_nonempty t files)); [exists f|].
    - intros Hno. destruct (decide (files_of_type t files = [])); [done|].
      apply files_of_type_nonempty in n as (f & Hf & Ht).
      by destruct (Hno f Hf). }
  split; [exact Hlast|]. split; [reflexivity|]. split; [exact Hin|].
  rewrite Nat.eqb_eq, length_zero_iff_nil. split.
  - intros Hnil t Ht. apply files_of_type_nonempty. intros Hnone.
    assert (t ∈ List.filter
                  (fun t => bool_decide (files_of_type t files = []))
                  REQUIRED) as Hmem.
    { apply Hin. split; [done|]. intros f Hf Hft.
      by apply (proj2 (files_of_type_nonempty t files)); [exists f|]. }
    rewrite Hnil in Hmem. by apply not_elem_of_nil in Hmem.
  - intros Hall.
    destruct (List.filter _ REQUIRED) as [|t l] eqn:Hl; [done|].
    assert (t ∈ t :: l) as Hmem by (by left).
    apply Hin in Hmem as [Hreq Hno].
    destruct (Hall t Hreq) as (f & Hf & Ht). by destruct (Hno f Hf).
Qed.

(** ** The three files of a book *)

Lemma process_each_run (file_types : list string)
    (uploaded_files : gmap string File.t) (verify : bool)
    (st : module_state) :
  exists results,
    process_each file_types uploaded_files verify st = (Ok results, st)
    /\ results.*1 = filter (fun t => is_Some (uploaded_files !! t)) file_types
    /\ Forall (fun tb =>
                 exists file,
                   uploaded_files !! tb.1 = Some file
                   /\ analyze_book_file (File.content file) tb.1
                        (File.name file) verify st = (Ok tb.2, st))
              results.
Proof.
  induction file_types as [|t file_types (results & Hrun & Hkeys & Hall)].
  - exists []. by repeat split.
  - cbn [process_each].
    destruct (uploaded_files !! t) as [file|] eqn:Hfile.
    + destruct (analyze_text_run
                  (preprocess_text (File.content file) t) verify st)
        as (s & Hs & _).
      pose proof (analyze_book_file_run (File.content file) t
                    (File.name file) verify st s Hs) as Hbook.
      rewrite Hbook, Hrun, bind_Ok. eexists. split; [reflexivity|]. split.
      * rewrite filter_cons_True by (by rewrite Hfile).
        cbn [fmap list_fmap fst]. by rewrite <- Hkeys.
      * constructor; [|exact Hall]. exists file. by split.
    + exists results. split; [exact Hrun|]. split; [|exact Hall].
      rewrite filter_cons_False; [done|]. rewrite Hfile. by intros [? ?].
Qed.

(** X13.  [process_book_files] returns a result for every dictionary of
    decoded files and leaves the module state as it is.  Its results are
    those of [analyze_book_file] for the required types that are given,
    in the order 1双语, 2原文, 3外教, and [total_files] counts them.  The
    flag [all_verified] holds exactly when, for every given file, the
    verification is enabled and the totals of the three methods on its
    cleaned text are at most 50 apart; so in the quick mode it holds only
    when no file is given. *)
Theorem process_book_files_summary (uploaded_files : gmap string File.t)
    (verify : bool) (st : module_state) :
  exists p,
    process_book_files uploaded_files verify st = (Ok p, st)
    /\ (Processed.individual_results p).*1 = given_types uploaded_files
    /\ Forall (fun tb =>
                 exists file,
                   uploaded_files !! tb.1 = Some file
                   /\ analyze_book_file (File.content file) tb.1
                        (File.name file) verify st = (Ok tb.2, st))
              (Processed.individual_results p)
    /\ Summary.total_files (Processed.summary p)
       = Z.of_nat (length (given_types uploaded_files))
    /\ (Summary.all_verified (Processed.summary p) = true <->
        forall t file,
          t ∈ REQUIRED -> uploaded_files !! t = Some file ->
          let cleaned := preprocess_text (File.content file) t in
          verify = true
          /\ spread (count_words_method1 cleaned st).1
                    (count_words_method2 cleaned)
                    (count_words_method3 cleaned) <= 50)
    /\ (verify = false ->
        Summary.all_verified (Processed.summary p) = true <->
        given_types uploaded_files = []).
Proof.
  destruct (process_each_run REQUIRED uploaded_files verify st)
    as (results & Hrun & Hkeys & Hall).
  unfold process_book_files. rewrite Hrun, bind_Ok.
  eexists. split; [reflexivity|].
  cbn [Processed.individual_results Processed.summary generate_summary
       Summary.total_files Summary.all_verified].
  fold (given_types uploaded_files) in Hkeys.
  split; [exact Hkeys|]. split; [exact Hall|].
  split; [by rewrite <- Hkeys, length_fmap|].
  assert (forall tb, tb ∈ results ->
            exists file,
              uploaded_files !! tb.1 = Some file
              /\ is_verified tb.2
                 = verify
                   && (spread
                         (count_words_method1
                            (preprocess_text (File.content file) tb.1) st).1
                         (count_words_method2
                            (preprocess_text (File.content file) tb.1))
                         (count_words_method3
                            (preprocess_text (File.content file) tb.1))
                       <=? 50)) as Hmark.
  { intros [t b] Hin. rewrite Forall_forall in Hall.
    destruct (Hall (t, b) Hin) as (file & Hfile & Hbook).
    exists file. split; [exact Hfile|]. cbn [fst snd] in *.
    destruct (analyze_text_run (preprocess_text (File.content file) t)
                verify st) as (s & Hs & _ & Hstatus).
    rewrite (analyze_book_file_run (File.content file) t (File.name file)
               verify st s Hs) in Hbook.
    injection Hbook as <-. unfold is_verified. cbn [BookStats.stats].
    by destruct (String.eqb t "2原文"). }
  assert (forallb is_verified results.*2 = true <->
          forall t file,
            t ∈ REQUIRED -> uploaded_files !! t = Some file ->
            verify = true
            /\ spread
                 (count_words_method1
                    (preprocess_text (File.content file) t) st).1
                 (count_words_method2 (preprocess_text (File.content file) t))
                 (count_words_method3 (preprocess_text (File.content file) t))
               <= 50) as Hiff.
  { rewrite forallb_forall. split.
    - intros Hver t file Ht Hfile.
      assert (t ∈ results.*1) as Hin.
      { rewrite Hkeys. unfold given_types.
        apply list_elem_of_filter. split; [by rewrite Hfile|done]. }
      apply list_elem_of_fmap in Hin as ([t' b] & -> & Hin).
      destruct (Hmark (t', b) Hin) as (file' & Hfile' & Hb).
      cbn [fst snd] in *. rewrite Hfile in Hfile'. injection Hfile' as <-.
      assert (is_verified b = true) as Htrue.
      { apply Hver. apply list_elem_of_In. apply list_elem_of_fmap.
        by exists (t', b). }
      rewrite Htrue in Hb. symmetry in Hb.
      apply andb_true_iff in Hb as [-> Hle]. by apply Z.leb_le in Hle.
    - intros Hgiven b Hb. apply list_elem_of_In in Hb.
      apply list_elem_of_fmap in Hb as ([t b'] & -> & Hin).
      destruct (Hmark (t, b') Hin) as (file & Hfile & Hb').
      cbn [fst snd] in *.
      assert (t ∈ given_types uploaded_files) as Ht.
      { rewrite <- Hkeys. apply list_elem_of_fmap. by exists (t, b'). }
      apply list_elem_of_filter in Ht as [_ Ht].
      destruct (Hgiven t file Ht Hfile) as [-> Hle].
      rewrite Hb'. by apply Z.leb_le in Hle as ->. }
  split; [exact Hiff|]. intros ->. rewrite Hiff. split.
  - intros Hgiven. destruct (given_types uploaded_files) as [|t l] eqn:Hl;
      [done|].
    assert (t ∈ given_types uploaded_files) as Ht by (rewrite Hl; by left).
    apply list_elem_of_filter in Ht as [[file Hfile] Ht].
    by destruct (Hgiven t file Ht Hfile).
  - intros Hnil t file Ht Hfile.
    assert (t ∈ given_types uploaded_files) as Hin
      by (apply list_elem_of_filter; split; [by rewrite Hfile|done]).
    rewrite Hnil in Hin. by apply not_elem_of_nil in Hin.
Qed.

(** ** The name of the report file *)

Lemma replace_char_chars (old new : ascii) (s : string) :
  chars (replace_char old new s)
  = map (fun c => if Ascii.eqb c old then new else c) (chars s).
Proof. unfold replace_char. by rewrite chars_str. Qed.

(** X14.  The cleaned book name in the name of the report file has the
    length of the book name, and the file name has neither a space nor a
    slash when the time stamp has none; the name begins with the title of
    the report and ends with the extension of text files. *)
Theorem get_download_filename_safe (book_name timestamp : string) :
  Forall safe_char (chars timestamp) ->
  Forall safe_char (chars (get_download_filename book_name timestamp))
  /\ exists clean_name,
       get_download_filename book_name timestamp
       = "词汇统计报告_" ++ clean_name ++ "_" ++ timestamp ++ ".txt"
       /\ String.length clean_name = String.length book_name
       /\ Forall safe_char (chars clean_name)
       /\ (Forall safe_char (chars book_name) -> clean_name = book_name).
Proof.
  intros Hstamp.
  set (clean := replace_char "/" "_" (replace_char " " "_" book_name)).
  assert (chars clean
          = map (fun c => if Ascii.eqb c "/" then "_"%char else c)
                (map (fun c => if Ascii.eqb c " " then "_"%char else c)
                     (chars book_name))) as Hclean
    by (subst clean; by rewrite !replace_char_chars).
  assert (Forall safe_char (chars clean)) as Hsafe.
  { rewrite Hclean. apply Forall_fmap, Forall_fmap, Forall_forall.
    intros c _. simpl. unfold safe_char.
    destruct (Ascii.eqb_spec c " ") as [->|Hsp]; [done|].
    by destruct (Ascii.eqb_spec c "/") as [->|Hsl]. }
  split.
  - unfold get_download_filename. fold clean. rewrite !chars_app.
    repeat (apply Forall_app; split); try done.
    + by repeat constructor.
    + by repeat constructor.
    + by repeat constructor.
  - exists clean. split; [reflexivity|]. split; [|split; [exact Hsafe|]].
    + by rewrite <- !length_chars, Hclean, !length_map.
    + intros Hbook. rewrite <- (str_chars clean), <- (str_chars book_name).
      f_equal. rewrite Hclean, map_map.
      rewrite <- (map_id (chars book_name)) at 2.
      apply map_ext_Forall. eapply Forall_impl; [exact Hbook|].
      intros c [Hsp Hsl]. simpl.
      destruct (Ascii.eqb_spec c " ") as [->|_]; [done|].
      by destruct (Ascii.eqb_spec c "/") as [->|_].
Qed.

Lemma get_download_filename_example :
  Forall safe_char (chars "20240131_235959")
  /\ Forall safe_char
       (chars (get_download_filename "My Book/1" "20240131_235959")).
Proof.
  assert (Forall safe_char (chars "20240131_235959")) as Hstamp
    by (repeat constructor; discriminate).
  split; [exact Hstamp|].
  exact (proj1 (get_download_filename_safe "My Book/1" "20240131_235959"
                  Hstamp)).
Defined.

(** ** Texts without apostrophe *)

Section no_apostrophe.
Import Re.
Local Open Scope list_scope.
Implicit Types (s t : list ascii) (prev : option ascii).

(** A substitution by a fixed text brings no character that is neither
    in the text nor in the replacement. *)
Lemma sub_scan_chars (P : ascii -> Prop) ic re t s :
  Forall P t -> Forall P s ->
  forall skip prev, Forall P (sub_scan ic re [Text t] skip prev s).
Proof.
  intros Ht Hs. induction Hs as [|x s Hx Hs IH]; intros skip prev.
  - destruct skip; cbn [sub_scan]; [|constructor].
    destruct (match_here ic re prev []); [|constructor].
    cbn [expand_repl flat_map]. by rewrite !app_nil_r.
  - destruct skip as [|skip]; cbn [sub_scan]; [|apply IH].
    destruct (match_here ic re prev (x :: s)) as [r|].
    + cbn [expand_repl flat_map]. rewrite app_nil_r.
      apply Forall_app. split; [done|].
      destruct (matched r); [constructor; [done|apply IH]|apply IH].
    + constructor; [done|apply IH].
Qed.

Lemma no_apostrophe_lit c :
  c <> "'"%char -> lit_match true "'"%char c = false.
Proof.
  intros Hc. destruct c as [[] [] [] [] [] [] [] []];
    vm_compute in Hc |- *; congruence.
Qed.

Lemma no_apostrophe_lits (text : string) :
  Forall (fun c => c <> "'"%char) (chars text) ->
  Forall (fun x => lit_match true "'"%char x = false) (chars text).
Proof.
  intros Htext. eapply Forall_impl; [exact Htext|]. apply no_apostrophe_lit.
Qed.

Lemma expand_one_chars (P : ascii -> Prop) text entry :
  Forall P (chars (join " " entry.2)) -> Forall P (chars text) ->
  Forall P (chars (expand_one text entry)).
Proof.
  intros Hrepl Htext. unfold expand_one, sub. rewrite chars_str.
  by apply sub_scan_chars.
Qed.

End no_apostrophe.

(** X15.  On a text without apostrophe [expand_contractions] does the
    one substitution of the entry "cannot" and nothing else: no other
    entry of the table and no possessive matches, and the result has no
    apostrophe either. *)
Theorem expand_contractions_no_apostrophe (text : string) :
  Forall (fun c => c <> "'"%char) (chars text) ->
  (expand_contractions text initial_state).1
  = expand_one text ("cannot", ["can"; "not"])
  /\ Forall (fun c => c <> "'"%char)
            (chars (expand_contractions text initial_state).1).
Proof.
  intros Htext.
  assert (Forall (fun c => c <> "'"%char)
            (chars (expand_one text ("cannot", ["can"; "not"])))) as Hone.
  { apply expand_one_chars; [|done]. by repeat constructor. }
  assert ((expand_contractions text initial_state).1
          = expand_one text ("cannot", ["can"; "not"])) as Heq.
  { unfold expand_contractions. cbn [fst].
    change (STANDARD_CONTRACTIONS initial_state)
      with (take 38 (STANDARD_CONTRACTIONS initial_state)
            ++ ("cannot"%string, ["can"; "not"]%string)
               :: drop 39 (STANDARD_CONTRACTIONS initial_state))%list.
    unfold expand_standard. rewrite foldl_app. cbn [foldl].
    fold (expand_standard (take 38 (STANDARD_CONTRACTIONS initial_state))
            text).
    rewrite expand_standard_apostrophe;
      [|vm_compute; reflexivity|by apply no_apostrophe_lits].
    match goal with
    | |- context [foldl expand_one ?t ?table] =>
        fold (expand_standard table t)
    end.
    rewrite expand_standard_apostrophe;
      [|vm_compute; reflexivity|by apply no_apostrophe_lits].
    unfold strip_possessive.
    apply (sub_missing_lit false "'"%char).
    - unfold possessive_pattern. simpl. auto.
    - eapply Forall_impl; [exact Hone|]. intros c Hc. unfold Re.lit_match.
      by apply Ascii.eqb_neq. }
  split; [exact Heq|]. by rewrite Heq.
Qed.

Lemma expand_contractions_no_apostrophe_example :
  Forall (fun c => c <> "'"%char) (chars "I Cannot go")
  /\ (expand_contractions "I Cannot go" initial_state).1 = "I can not go".
Proof.
  assert (Forall (fun c => c <> "'"%char) (chars "I Cannot go")) as Htext
    by (repeat constructor; discriminate).
  split; [exact Htext|].
  rewrite (proj1 (expand_contractions_no_apostrophe "I Cannot go" Htext)).
  reflexivity.
Defined.

(** ** The text cleaned by [remove_chinese] *)

Section removed_characters.
Local Open Scope list_scope.
Local Open Scope char_scope.
Implicit Types (s t : list ascii) (c : ascii).

(** The characters after replacing the runs of a class: those of the
    replacement and those outside the class. *)
Lemma collapse_chars (P : ascii -> Prop) cls t s : forall b,
  Forall P t -> Forall (fun c => cls c = false -> P c) s ->
  Forall P (collapse cls t b s).
Proof.
  intros b Ht Hs. revert b. induction Hs as [|x s Hx _ IH]; intros b.
  - constructor.
  - cbn [collapse]. destruct (cls x) eqn:Hcls.
    + destruct b; [apply IH|]. apply Forall_app. split; [done|apply IH].
    + constructor; [by apply Hx|apply IH].
Qed.

Lemma space_is_ascii : Char.in_range 0 127 " " = true.
Proof. reflexivity. Qed.

Lemma space_or_not c :
  Char.isspace c = false -> not_alnum_space c = false ->
  Char.is_letter c || Char.is_digit c = true.
Proof.
  unfold not_alnum_space. intros ->. rewrite orb_false_r.
  by intros ?%negb_false_iff.
Qed.

End removed_characters.

(** X16.  The text returned by [remove_chinese] holds only characters
    from U+0000 to U+007F when the punctuation is kept, and only letters
    a to z and A to Z, digits and spaces when it is not; in both cases
    each whitespace character in it is a space, no two spaces are
    adjacent, and it neither begins nor ends with whitespace. *)
Theorem remove_chinese_clean (text : string) (keep_punctuation : bool) :
  let out := chars (remove_chinese text keep_punctuation) in
  Forall (kept_char keep_punctuation) out
  /\ Forall (fun c => Char.isspace c = true -> c = " "%char) out
  /\ ~ has_infix [" "%char; " "%char] out
  /\ (forall c, head out = Some c -> Char.isspace c = false)
  /\ (forall c, last out = Some c -> Char.isspace c = false).
Proof.
  cbn zeta. unfold remove_chinese.
  set (inner := if keep_punctuation then _ else _).
  destruct (strip_space_spec
              (Re.sub false whitespace_pattern [Re.Text [" "%char]] inner))
    as ((a & b & Hsplit) & Hhead & Hlast).
  revert Hsplit Hhead Hlast.
  set (out := chars (strip_space _)). intros Hsplit Hhead Hlast.
  unfold whitespace_pattern in Hsplit.
  rewrite sub_class_text, chars_str in Hsplit.
  assert (forall P : ascii -> Prop,
            Forall P (collapse Char.isspace [" "%char] false (chars inner)) ->
            Forall P out) as Hpart.
  { intros P HP. rewrite Hsplit in HP. apply Forall_app in HP as [_ HP].
    by apply Forall_app in HP as [HP _]. }
  split; [|split; [|split; [|split; [exact Hhead|exact Hlast]]]].
  - apply Hpart. subst inner. destruct keep_punctuation; cbn [kept_char].
    + apply collapse_chars; [by repeat constructor|].
      unfold non_ascii_pattern. rewrite sub_class_text, chars_str.
      eapply Forall_impl;
        [apply (collapse_chars (fun c => Char.in_range 0 127 c = true)
                  non_ascii [" "%char] (chars text) false);
         [by repeat constructor|]|by intros c Hc _].
      apply Forall_forall. intros c _. unfold non_ascii.
      by intros ?%negb_false_iff.
    + apply collapse_chars; [repeat constructor; by right|].
      unfold sub_each. rewrite chars_str. apply Forall_fmap, Forall_forall.
      intros c _. simpl. destruct (not_alnum_space c) eqn:Hc.
      * by intros [=].
      * intros Hspace. left. by apply space_or_not.
  - apply Hpart. apply collapse_space_chars.
  - intros Hinfix.
    apply (twice_no_infix " "%char
             (collapse Char.isspace [" "%char] false (chars inner))).
    + apply collapse_space_twice.
    + by apply (infix_of_infix _ _ a b out Hsplit).
Qed.
